(** * rag-cimav: chunking, section classification and hybrid retrieval

    A shallow embedding of the algorithmic core of the repository:
      - [ThesisJSONToSQLConverter.tokenize_text], [insert_document],
        [insert_sections_and_chunks], [convert_json_to_sql]
        (src/json_to_sql_converter.py);
      - [GrobidXMLAnalyzer.categorize_section] (src/xml_analyzer.py);
      - [FaissSemanticSearchSQLite.search]
        (src/pruebas_calderon/semantic_search_sqlite.py) and
        [FaissSemanticSearch.search]
        (src/pruebas_calderon/semantic_search.py);
      - around them: [GrobidXMLAnalyzer.extract_content] and
        [detect_language], [ThesisJSONToSQLConverter.export_for_faiss] and
        [get_chunks_by_category], and the script
        src/pruebas_calderon/from_tei_to_sqlite.py.

    Python strings are sequences of Unicode code points; they are modelled
    as lists of integers.  Python integers are unbounded and are modelled
    by [Z]. *)

From Stdlib Require Import ZArith List Lia Lqa Bool String Ascii QArith
  Sorted Permutation DecimalString.
From stdpp Require Import gmap strings.
Import ListNotations.

#[local] Open Scope Z_scope.

(* ===================================================================== *)
(** * Python strings *)
(* ===================================================================== *)

Module PyStr.

(** A Python [str]: the list of its code points. *)
Definition str := list Z.

Definition len {A : Type} (s : list A) : Z := Z.of_nat (length s).

(** String literals of this file are written as UTF-8 byte strings and
    decoded to code points (1- to 4-byte sequences). *)
Definition byte_of (a : ascii) : Z := Z.of_N (N_of_ascii a).

Fixpoint utf8 (s : string) : str :=
  match s with
  | EmptyString => []
  | String a s1 =>
    let b0 := byte_of a in
    if b0 <? 128 then b0 :: utf8 s1
    else match s1 with
    | EmptyString => [b0]
    | String a1 s2 =>
      let b1 := byte_of a1 - 128 in
      if b0 <? 224 then ((b0 - 192) * 64 + b1) :: utf8 s2
      else match s2 with
      | EmptyString => [b0]
      | String a2 s3 =>
        let b2 := byte_of a2 - 128 in
        if b0 <? 240 then ((b0 - 224) * 4096 + b1 * 64 + b2) :: utf8 s3
        else match s3 with
        | EmptyString => [b0]
        | String a3 s4 =>
          ((b0 - 240) * 262144 + b1 * 4096 + b2 * 64 + (byte_of a3 - 128))
            :: utf8 s4
        end
      end
    end
  end.

#[global] Arguments utf8 s%_string.

Definition str_eqb (a b : str) : bool := bool_decide (a = b).

(** [str.isspace] on one character, which is also what [\s] matches in a
    [re] pattern over [str]: the code points CPython lists as whitespace. *)
Definition isspace (c : Z) : bool :=
  ((9 <=? c) && (c <=? 13)) || ((28 <=? c) && (c <=? 32))
  || (c =? 133) || (c =? 160) || (c =? 5760)
  || ((8192 <=? c) && (c <=? 8202))
  || (c =? 8232) || (c =? 8233) || (c =? 8239) || (c =? 8287)
  || (c =? 12288).

#[global] Arguments isspace : simpl never.

Definition SPACE : Z := 32.

Fixpoint lstrip (s : str) : str :=
  match s with
  | [] => []
  | c :: s' => if isspace c then lstrip s' else s
  end.

Definition rstrip (s : str) : str := rev (lstrip (rev s)).

(** [s.strip()] *)
Definition strip (s : str) : str := rstrip (lstrip s).

(** [re.sub(r'\s+', ' ', s)]: every maximal run of whitespace becomes one
    space.  [in_run] tells that the previous character was whitespace. *)
Fixpoint sub_ws (in_run : bool) (s : str) : str :=
  match s with
  | [] => []
  | c :: s' =>
    if isspace c
    then (if in_run then sub_ws true s' else SPACE :: sub_ws true s')
    else c :: sub_ws false s'
  end.

Definition collapse_ws (s : str) : str := sub_ws false s.

(** [str.lower()] on one character.  The model covers the code points up
    to U+00FF (ASCII and Latin-1, which is what the Spanish and English
    headings, names and keywords of this corpus use); a character above
    U+00FF is left as it is. *)
Definition lower_char (c : Z) : Z :=
  if (65 <=? c) && (c <=? 90) then c + 32
  else if (192 <=? c) && (c <=? 222) && negb (c =? 215) then c + 32
  else c.

(** [s.lower()] *)
Definition lower (s : str) : str := map lower_char s.

(** [s.split(sep)] for a one-character separator. *)
Fixpoint split (sep : Z) (s : str) : list str :=
  match s with
  | [] => [[]]
  | c :: s' =>
    if c =? sep then [] :: split sep s'
    else match split sep s' with
         | piece :: pieces => (c :: piece) :: pieces
         | [] => [[c]]
         end
  end.

(** Index adjustment of slices and of [find]/[rfind]: a negative index
    counts from the end, and is clipped at 0. *)
Definition from_end (n i : Z) : Z := if i <? 0 then Z.max 0 (i + n) else i.

(** [s[a:b]] *)
Definition slice {A : Type} (s : list A) (a b : Z) : list A :=
  let n := len s in
  let lo := Z.min (from_end n a) n in
  let hi := Z.min (from_end n b) n in
  firstn (Z.to_nat (hi - lo)) (skipn (Z.to_nat lo) s).

(** [s[i:i+len(sub)] == sub], for [0 <= i]. *)
Definition match_at (s sub : str) (i : Z) : bool :=
  str_eqb (firstn (length sub) (skipn (Z.to_nat i) s)) sub.

(** Scans the [k] positions [lo+k-1], ..., [lo], highest first. *)
Fixpoint rfind_down (s sub : str) (lo : Z) (k : nat) : Z :=
  match k with
  | O => -1
  | S k' =>
    if match_at s sub (lo + Z.of_nat k') then lo + Z.of_nat k'
    else rfind_down s sub lo k'
  end.

(** [s.rfind(sub, a, b)]: the highest index [i] with [a <= i],
    [i + len(sub) <= b] (both adjusted) where [sub] occurs, or [-1]. *)
Definition rfind (s sub : str) (a b : Z) : Z :=
  let n := len s in
  let lo := from_end n a in
  let hi := Z.min (from_end n b) n in
  rfind_down s sub lo (Z.to_nat (hi - len sub - lo + 1)).

(** Scans the positions [i], [i+1], ... of [s], lowest first. *)
Fixpoint find_up (s sub : str) (i : Z) (k : nat) : Z :=
  match k with
  | O => -1
  | S k' => if match_at s sub i then i else find_up s sub (i + 1) k'
  end.

(** [sub in s] *)
Definition contains (sub s : str) : bool :=
  0 <=? find_up s sub 0 (Z.to_nat (len s - len sub + 1)).

End PyStr.

(* ===================================================================== *)
(** * Chunker: [ThesisJSONToSQLConverter.tokenize_text] *)
(* ===================================================================== *)

Module Chunker.
Import PyStr.

(** One entry of the list [tokenize_text] returns (a dict with these
    keys). *)
Record chunk := mk_chunk {
  text : str;
  size : Z;
  index : Z;
  start_pos : Z;
  end_pos : Z;
  overlap_start : Z;
  overlap_end : Z
}.

(** The separators tried in order: ['. ', '\n', ' ']. *)
Definition separators : list str := [[46; 32]; [10]; [32]].

(** The [for separator in ...] loop with its [break]: the end of the
    chunk after looking for a natural cut in [text[start:end]]. *)
Fixpoint snap (txt : str) (seps : list str) (start end_ : Z) : Z :=
  match seps with
  | [] => end_
  | separator :: seps' =>
    let last_sep := rfind txt separator start end_ in
    if last_sep >? start then last_sep + len separator
    else snap txt seps' start end_
  end.

(** The end of the chunk that begins at [start]. *)
Definition chunk_end (txt : str) (chunk_size start : Z) : Z :=
  let end_ := start + chunk_size in
  if end_ <? len txt then snap txt separators start end_ else end_.

(** [start = max(start + 1, end - overlap)] *)
Definition next_start (overlap start end_ : Z) : Z :=
  Z.max (start + 1) (end_ - overlap).

(** The [while start < len(text)] loop.  [fuel] bounds the number of
    iterations; [None] means the bound was reached before the loop
    ended.  The chunks are listed in the order they are appended. *)
Fixpoint tokenize_loop (fuel : nat) (txt : str) (chunk_size overlap : Z)
    (start chunk_index : Z) : option (list chunk) :=
  if start <? len txt then
    match fuel with
    | O => None
    | S fuel' =>
      let end_ := chunk_end txt chunk_size start in
      let chunk_text := strip (slice txt start end_) in
      let start' := next_start overlap start end_ in
      match chunk_text with
      | [] => tokenize_loop fuel' txt chunk_size overlap start' chunk_index
      | _ :: _ =>
        let c := {| text := chunk_text;
                    size := len chunk_text;
                    index := chunk_index;
                    start_pos := start;
                    end_pos := end_;
                    overlap_start :=
                      if chunk_index >? 0 then Z.max 0 (start - overlap)
                      else 0;
                    overlap_end := Z.min (len txt) (end_ + overlap) |} in
        option_map (cons c)
          (tokenize_loop fuel' txt chunk_size overlap start'
             (chunk_index + 1))
      end
    end
  else Some [].

(** The text the loop runs on: [re.sub(r'\s+', ' ', text.strip())]. *)
Definition normalize (t : str) : str := collapse_ws (strip t).

(** [tokenize_text(text, chunk_size, overlap)]; the loop is given one
    unit of fuel per character of the normalized text. *)
Definition tokenize_text (t : str) (chunk_size overlap : Z)
    : option (list chunk) :=
  if match t with [] => true | _ => false end || (len (strip t) <? 10)
  then Some []
  else
    let txt := normalize t in
    tokenize_loop (length txt) txt chunk_size overlap 0 0.

Definition default_chunk_size : Z := 512.
Definition default_overlap : Z := 50.

(** [tokenize_text(text)] with the default configuration, as a list (the
    loop never runs out of its fuel, as proved below). *)
Definition tokenize_default (t : str) : list chunk :=
  match tokenize_text t default_chunk_size default_overlap with
  | Some chunks => chunks
  | None => []
  end.

(** [estimate_tokens] *)
Definition estimate_tokens (t : str) : Z := len t / 4.

End Chunker.

(* ===================================================================== *)
(** * SectionClassifier: [GrobidXMLAnalyzer.categorize_section] *)
(* ===================================================================== *)

Module Classifier.
Import PyStr.

(** What [\w] matches: alphanumeric characters and the underscore.  As
    for [lower], the model is exact up to U+00FF; a character above
    U+00FF counts as a word character. *)
Definition is_word (c : Z) : bool :=
  ((48 <=? c) && (c <=? 57)) || ((65 <=? c) && (c <=? 90))
  || ((97 <=? c) && (c <=? 122)) || (c =? 95)
  || (c =? 170) || (c =? 178) || (c =? 179) || (c =? 181)
  || (c =? 185) || (c =? 186) || ((188 <=? c) && (c <=? 190))
  || ((192 <=? c) && (c <=? 214)) || ((216 <=? c) && (c <=? 246))
  || (248 <=? c).

(** [re.sub(r'[^\w\s]', '', s)] *)
Definition strip_punctuation (s : str) : str :=
  List.filter (fun c => is_word c || isspace c) s.

(** ** [difflib.SequenceMatcher(None, a, b).ratio()]

    The Ratcliff/Obershelp measure as [difflib] computes it when no
    element of [b] is junk (no [isjunk] function is given, and the
    automatic junk heuristic only starts at 200 elements; the second
    sequence is always a keyword of the table below). *)

Fixpoint common_prefix (a b : str) : nat :=
  match a, b with
  | x :: a', y :: b' => if x =? y then S (common_prefix a' b') else O
  | _, _ => O
  end.

(** A block [(i, j, k)]: [a[i:i+k] == b[j:j+k]]. *)
Definition block : Type := nat * nat * nat.

Definition block_size (m : block) : nat := snd m.

(** The blocks that start at position [i] of [a] (whose suffix from [i]
    is [arow]), for every start [j] of [b], lowest [j] first; a block
    replaces the best one only if it is strictly longer. *)
Fixpoint best_in_row (arow brest : str) (i j : nat) (best : block) : block :=
  match brest with
  | [] => best
  | _ :: brest' =>
    let k := common_prefix arow brest in
    best_in_row arow brest' i (S j)
      (if (block_size best <? k)%nat then (i, j, k) else best)
  end.

Fixpoint best_from (arest b : str) (i : nat) (best : block) : block :=
  match arest with
  | [] => best
  | _ :: arest' => best_from arest' b (S i) (best_in_row arest b i O best)
  end.

(** [find_longest_match]: the longest matching block; of the longest, the
    one that starts earliest in [a], and of those, earliest in [b]. *)
Definition find_longest_match (a b : str) : block :=
  best_from a b O (O, O, O).

(** The total size of the blocks of [get_matching_blocks]: the longest
    block, then the same to its left and to its right. *)
Fixpoint matches (fuel : nat) (a b : str) : nat :=
  match fuel with
  | O => O
  | S fuel' =>
    let '(i, j, k) := find_longest_match a b in
    match k with
    | O => O
    | S _ =>
      (k + matches fuel' (firstn i a) (firstn j b)
         + matches fuel' (skipn (i + k) a) (skipn (j + k) b))%nat
    end
  end.

(** [ratio()]: [2.0 * matches / (len(a) + len(b))], and [1.0] for two
    empty sequences.  Scores are kept as exact rationals: the strings
    compared are short, and on such fractions the comparisons between
    doubles that Python makes (with each other, with 0, 0.6 and 0.7)
    give the same answers. *)
Definition ratio (a b : str) : Q :=
  let total := (length a + length b)%nat in
  match total with
  | O => 1%Q
  | S _ => Qmake (2 * Z.of_nat (matches total a b)) (Pos.of_nat total)
  end.

(** [similarity] *)
Definition similarity (a b : str) : Q := ratio (lower a) (lower b).

(** [x > y] on scores *)
Definition score_gt (x y : Q) : bool := negb (Qle_bool x y).

(** [self.section_mappings], in the order the dict literal lists it (the
    order [items()] iterates in). *)
Definition section_mappings : list (str * list str) :=
  [ (utf8 "resumen",
       [utf8 "resumen"; utf8 "summary"; utf8 "abstract"; utf8 "síntesis"]);
    (utf8 "abstract",
       [utf8 "abstract"; utf8 "resumen"; utf8 "summary"]);
    (utf8 "introduccion",
       [utf8 "introducción"; utf8 "introduction"; utf8 "intro";
        utf8 "presentación"]);
    (utf8 "antecedentes",
       [utf8 "antecedentes"; utf8 "background"; utf8 "marco histórico";
        utf8 "contexto histórico"]);
    (utf8 "estado_del_arte",
       [utf8 "estado del arte"; utf8 "state of the art";
        utf8 "revisión bibliográfica"; utf8 "literature review";
        utf8 "marco teórico"]);
    (utf8 "objetivos",
       [utf8 "objetivos"; utf8 "objectives"; utf8 "goals";
        utf8 "propósitos"]);
    (utf8 "justificacion",
       [utf8 "justificación"; utf8 "justification"; utf8 "motivación";
        utf8 "motivation"]);
    (utf8 "objetivo_general",
       [utf8 "objetivo general"; utf8 "general objective";
        utf8 "main objective"; utf8 "propósito general"]);
    (utf8 "hipotesis",
       [utf8 "hipótesis"; utf8 "hypothesis"; utf8 "supuestos";
        utf8 "assumptions"]);
    (utf8 "metodologia",
       [utf8 "metodología"; utf8 "methodology"; utf8 "métodos";
        utf8 "methods"; utf8 "diseño metodológico"]);
    (utf8 "resultados",
       [utf8 "resultados"; utf8 "results"; utf8 "findings";
        utf8 "hallazgos"]);
    (utf8 "conclusiones",
       [utf8 "conclusiones"; utf8 "conclusions"; utf8 "conclusión";
        utf8 "conclusion"; utf8 "cierre"]) ].

(** The pair [(best_match, best_score)]; [best_match] starts as [None]. *)
Definition best : Type := option str * Q.

(** [content[:200].lower() if content else ""] *)
Definition content_start (content : str) : str :=
  match content with
  | [] => []
  | _ :: _ => lower (slice content 0 200)
  end.

(** The body of the inner loop, for one keyword of one category. *)
Definition try_keyword (section_title_clean content : str)
    (category keyword : str) (st : best) : best :=
  let st1 :=
    if contains keyword section_title_clean then
      let score := similarity section_title_clean keyword in
      if score_gt score (snd st) then (Some category, score) else st
    else st in
  if contains keyword (content_start content) then
    let score := (7 # 10)%Q in
    if score_gt score (snd st1) then (Some category, score) else st1
  else st1.

Definition try_category (section_title_clean content : str)
    (st : best) (entry : str * list str) : best :=
  fold_left
    (fun st keyword =>
       try_keyword section_title_clean content (fst entry) keyword st)
    (snd entry) st.

(** [categorize_section(section_title, content)]; [None] is Python's
    [None]. *)
Definition categorize_section (section_title content : str) : option str :=
  let section_title_clean := strip_punctuation (lower section_title) in
  let '(best_match, best_score) :=
    fold_left (try_category section_title_clean content) section_mappings
      (None, 0%Q) in
  if score_gt best_score (6 # 10)%Q then best_match else Some (utf8 "otros").

End Classifier.

(* ===================================================================== *)
(** * Python values, exceptions and the result loop of the searchers *)
(* ===================================================================== *)

Module Py.
Import PyStr.

(** The values that filters, SQLite rows and JSON items hold: [None],
    integers, strings and lists. *)
#[warnings="-register-all"]
Inductive pyval : Type :=
| PNone
| PInt (n : Z)
| PStr (s : str)
| PList (l : list pyval).

(** [a == b] *)
Fixpoint py_eqb (a b : pyval) : bool :=
  match a, b with
  | PNone, PNone => true
  | PInt n, PInt m => n =? m
  | PStr s, PStr t => str_eqb s t
  | PList l, PList m =>
    (fix all2 (l m : list pyval) : bool :=
       match l, m with
       | [], [] => true
       | x :: l', y :: m' => py_eqb x y && all2 l' m'
       | _, _ => false
       end) l m
  | _, _ => false
  end.

(** Truth value of [v] in a condition. *)
Definition truthy (v : pyval) : bool :=
  match v with
  | PNone => false
  | PInt n => negb (n =? 0)
  | PStr [] => false
  | PStr (_ :: _) => true
  | PList [] => false
  | PList (_ :: _) => true
  end.

(** [x in l] for a list [l] *)
Definition py_in_list (x : pyval) (l : list pyval) : bool :=
  existsb (py_eqb x) l.

Inductive exn : Type :=
  AttributeError | TypeError | IndexError | IntegrityError.

(** The outcome of code that may raise. *)
Inductive res (A : Type) : Type :=
| Ok (a : A)
| Raise (e : exn).
#[global] Arguments Ok {A} a.
#[global] Arguments Raise {A} e.

#[global] Instance res_ret : MRet res := fun A a => Ok a.

#[global] Instance res_bind : MBind res := fun A B f r =>
  match r with
  | Ok a => f a
  | Raise e => Raise e
  end.

(** [v.lower()]: only a [str] has the method. *)
Definition py_lower (v : pyval) : res str :=
  match v with
  | PStr s => Ok (lower s)
  | _ => Raise AttributeError
  end.

(** [v[a:b]] *)
Definition py_slice (v : pyval) (a b : Z) : res pyval :=
  match v with
  | PStr s => Ok (PStr (slice s a b))
  | PList l => Ok (PList (slice l a b))
  | _ => Raise TypeError
  end.

(** A condition evaluated after another one: [b] is looked at only if [a]
    let the hit through. *)
Definition and_also (a b : res bool) : res bool :=
  match a with
  | Ok true => b
  | _ => a
  end.

(** [enumerate(l)] *)
Definition enumerate {A : Type} (l : list A) : list (nat * A) :=
  combine (seq 0 (length l)) l.

(** What the body of a search loop does with one candidate: [continue]
    ([Skip]), append a result ([Keep]), or raise ([Fail]). *)
Inductive verdict (H : Type) : Type :=
| Skip
| Keep (h : H)
| Fail (e : exn).
#[global] Arguments Skip {H}.
#[global] Arguments Keep {H} h.
#[global] Arguments Fail {H} e.

(** The loop
<<
    for c in cands:
        <body: continue, raise, or results.append(h)>
        if len(results) >= k:
            break
    return results
>>
    The test of [len(results)] is reached only after an append. *)
Fixpoint collect {C H : Type} (judge : C -> verdict H) (k : Z)
    (cands : list C) (results : list H) : res (list H) :=
  match cands with
  | [] => Ok results
  | c :: rest =>
    match judge c with
    | Skip => collect judge k rest results
    | Fail e => Raise e
    | Keep h =>
      let results' := results ++ [h] in
      if len results' >=? k then Ok results'
      else collect judge k rest results'
    end
  end.

End Py.

(* ===================================================================== *)
(** * HybridSearcher over SQLite: [FaissSemanticSearchSQLite] *)
(* ===================================================================== *)

Module SearchSQLite.
Import PyStr Py.

(** The row [_get_chunk_with_metadata] fetches: the columns of its
    SELECT, by name. *)
Record row : Type := {
  chunk_id : pyval;
  section : pyval;
  subsection : pyval;
  text : pyval;
  student_id : pyval;
  student_name : pyval;
  journal : pyval;
  editorial : pyval;
  doi : pyval;
  published_date : pyval;
  conference : pyval;
  isbn : pyval;
  title : pyval;
  abstract : pyval;
  keywords : pyval;
  affiliations : pyval;
  authors : pyval
}.

Section WithDistance.

(** Distances are the floats of the index; the search only copies them. *)
Context {dist : Type} {qvec : Type}.

(** The object: its embedding model, its index, the chunk ids loaded by
    [_load_chunk_ids], and the SQL query of [_get_chunk_with_metadata] as
    a function of the chunk id ([None] when [fetchone] finds no row).
    [index_search v n] is [self.index.search(v, n)], giving [(D[0], I[0])]. *)
Record FaissSemanticSearchSQLite : Type := {
  encode : str -> qvec;
  index_search : qvec -> Z -> list dist * list Z;
  chunk_ids : list pyval;
  get_chunk_with_metadata : pyval -> option row
}.

(** One entry of the list [search] returns. *)
Record hit : Type := {
  hit_chunk_id : pyval;
  hit_section : pyval;
  hit_subsection : pyval;
  hit_text : pyval;
  hit_score : dist;
  hit_title : pyval;
  hit_abstract : pyval;
  hit_keywords : pyval;
  hit_affiliations : pyval;
  hit_student_name : pyval;
  hit_student_id : pyval;
  hit_authors : pyval;
  hit_journal : pyval;
  hit_doi : pyval;
  hit_published_date : pyval;
  hit_conference : pyval;
  hit_isbn : pyval
}.

Definition make_hit (chunk : row) (score : dist) : hit :=
  {| hit_chunk_id := chunk_id chunk;
     hit_section := section chunk;
     hit_subsection := subsection chunk;
     hit_text := text chunk;
     hit_score := score;
     hit_title := title chunk;
     hit_abstract := abstract chunk;
     hit_keywords := keywords chunk;
     hit_affiliations := affiliations chunk;
     hit_student_name := student_name chunk;
     hit_student_id := student_id chunk;
     hit_authors := authors chunk;
     hit_journal := journal chunk;
     hit_doi := doi chunk;
     hit_published_date := published_date chunk;
     hit_conference := conference chunk;
     hit_isbn := isbn chunk |}.

(** [sections and chunk["section"] not in sections] *)
Definition section_rejects (sections : option (list pyval)) (chunk : row)
    : bool :=
  match sections with
  | None => false
  | Some [] => false
  | Some l => negb (py_in_list (section chunk) l)
  end.

(** [key in filters and filters[key].lower() not in field.lower()] lets
    the hit through when the key is absent or the filter is a substring. *)
Definition substring_check (filters : gmap string pyval) (key : string)
    (field : pyval) : res bool :=
  match filters !! key with
  | None => Ok true
  | Some v =>
    needle ← py_lower v;
    hay ← py_lower field;
    Ok (contains needle hay)
  end.

(** ["student_id" in filters and filters["student_id"] != chunk["student_id"]] *)
Definition student_id_check (filters : gmap string pyval) (chunk : row)
    : res bool :=
  match filters !! "student_id"%string with
  | None => Ok true
  | Some v => Ok (py_eqb v (student_id chunk))
  end.

(** [any(name.lower() in chunk["authors"].lower() for name in names)] *)
Fixpoint any_name (names : list pyval) (field : pyval) : res bool :=
  match names with
  | [] => Ok false
  | name :: names' =>
    needle ← py_lower name;
    hay ← py_lower field;
    if contains needle hay then Ok true else any_name names' field
  end.

Definition SEMICOLON : Z := 59.

(** The names of an author filter: a string is split at [";"] and its
    parts stripped; anything else is iterated as it is. *)
Definition author_names (v : pyval) : res (list pyval) :=
  match v with
  | PStr s => Ok (map (fun x => PStr (strip x)) (split SEMICOLON s))
  | PList l => Ok l
  | _ => Raise TypeError
  end.

Definition author_check (filters : gmap string pyval) (chunk : row)
    : res bool :=
  match filters !! "author"%string with
  | None => Ok true
  | Some v =>
    names ← author_names v;
    any_name names (authors chunk)
  end.

(** ["year" in filters and chunk["published_date"]], then
    [filters["year"] != chunk["published_date"][:4]] *)
Definition year_check (filters : gmap string pyval) (chunk : row)
    : res bool :=
  match filters !! "year"%string with
  | None => Ok true
  | Some v =>
    if truthy (published_date chunk) then
      first4 ← py_slice (published_date chunk) 0 4;
      Ok (py_eqb v first4)
    else Ok true
  end.

(** The checks under [if filters:], in their order; [Ok true] when none
    of them ends the iteration with [continue]. *)
Definition filters_pass (filters : option (gmap string pyval)) (chunk : row)
    : res bool :=
  match filters with
  | None => Ok true
  | Some f =>
    if bool_decide (f = ∅) then Ok true
    else
      and_also (substring_check f "title" (title chunk))
      (and_also (student_id_check f chunk)
      (and_also (substring_check f "student_name" (student_name chunk))
      (and_also (author_check f chunk)
      (and_also (substring_check f "journal" (journal chunk))
      (and_also (substring_check f "editorial" (editorial chunk))
      (and_also (year_check f chunk)
      (and_also (substring_check f "abstract" (abstract chunk))
      (and_also (substring_check f "keywords" (keywords chunk))
                (substring_check f "affiliations" (affiliations chunk))))))))))
  end.

(** [idx < 0 or idx >= len(self.chunk_ids)] *)
Definition out_of_range (self : FaissSemanticSearchSQLite) (idx : Z) : bool :=
  (idx <? 0) || (idx >=? len (chunk_ids self)).

(** The body of the loop for the candidate [idx] at position [rank]. *)
Definition judge (self : FaissSemanticSearchSQLite) (D : list dist)
    (sections : option (list pyval)) (filters : option (gmap string pyval))
    (c : nat * Z) : verdict hit :=
  let '(rank, idx) := c in
  if out_of_range self idx then Skip
  else
    let cid := nth (Z.to_nat idx) (chunk_ids self) PNone in
    match get_chunk_with_metadata self cid with
    | None => Skip
    | Some chunk =>
      if section_rejects sections chunk then Skip
      else
        match filters_pass filters chunk with
        | Raise e => Fail e
        | Ok false => Skip
        | Ok true =>
          match nth_error D rank with
          | Some d => Keep (make_hit chunk d)
          | None => Fail IndexError
          end
        end
    end.

Definition overfetch : Z := 10.

(** [search(query, k, sections, filters)] *)
Definition search (self : FaissSemanticSearchSQLite) (query : str) (k : Z)
    (sections : option (list pyval)) (filters : option (gmap string pyval))
    : res (list hit) :=
  let query_vec := encode self query in
  let '(D, I') := index_search self query_vec (k * overfetch) in
  collect (judge self D sections filters) k (enumerate I') [].

End WithDistance.

#[global] Arguments FaissSemanticSearchSQLite : clear implicits.
#[global] Arguments hit : clear implicits.

End SearchSQLite.

(* ===================================================================== *)
(** * HybridSearcher over a JSON metadata list: [FaissSemanticSearch] *)
(* ===================================================================== *)

Module SearchJSON.
Import PyStr Py.

(** One JSON object of the metadata file. *)
Abbreviation item := (gmap string pyval).

(** [item.get(key, default)] *)
Definition get (it : item) (key : string) (default : pyval) : pyval :=
  match it !! key with
  | Some v => v
  | None => default
  end.

Section WithDistance.

Context {dist : Type} {qvec : Type}.

Record FaissSemanticSearch : Type := {
  encode : str -> qvec;
  index_search : qvec -> Z -> list dist * list Z;
  metadata : list item
}.

Record hit : Type := {
  hit_id : pyval;
  hit_pdf_id : pyval;
  hit_section : pyval;
  hit_subsection : pyval;
  hit_text : pyval;
  hit_score : dist;
  hit_title : pyval;
  hit_student_name : pyval;
  hit_source_file : pyval;
  hit_journal : pyval;
  hit_doi : pyval;
  hit_published_date : pyval;
  hit_conference : pyval;
  hit_isbn : pyval
}.

Definition make_hit (it : item) (score : dist) : hit :=
  {| hit_id := get it "id" PNone;
     hit_pdf_id := get it "pdf_id" PNone;
     hit_section := get it "section" PNone;
     hit_subsection := get it "subsection" (PStr []);
     hit_text := get it "text" (PStr []);
     hit_score := score;
     hit_title := get it "title" (PStr []);
     hit_student_name := get it "student_name" (PStr []);
     hit_source_file := get it "source_file" (PStr []);
     hit_journal := get it "journal" (PStr []);
     hit_doi := get it "doi" (PStr []);
     hit_published_date := get it "published_date" (PStr []);
     hit_conference := get it "conference" (PStr []);
     hit_isbn := get it "isbn" (PStr []) |}.

(** [sections is None or item.get("section") in sections] *)
Definition section_accepts (sections : option (list pyval)) (it : item)
    : bool :=
  match sections with
  | None => true
  | Some l => py_in_list (get it "section" PNone) l
  end.

Definition out_of_range (self : FaissSemanticSearch) (idx : Z) : bool :=
  (idx <? 0) || (idx >=? len (metadata self)).

Definition judge (self : FaissSemanticSearch) (D : list dist)
    (sections : option (list pyval)) (c : nat * Z) : verdict hit :=
  let '(rank, idx) := c in
  if out_of_range self idx then Skip
  else
    let it := nth (Z.to_nat idx) (metadata self) ∅ in
    if section_accepts sections it then
      match nth_error D rank with
      | Some d => Keep (make_hit it d)
      | None => Fail IndexError
      end
    else Skip.

Definition overfetch : Z := 5.

(** [search(query, sections, k)] *)
Definition search (self : FaissSemanticSearch) (query : str)
    (sections : option (list pyval)) (k : Z) : res (list hit) :=
  let query_vec := encode self query in
  let '(D, I') := index_search self query_vec (k * overfetch) in
  collect (judge self D sections) k (enumerate I') [].

End WithDistance.

#[global] Arguments FaissSemanticSearch : clear implicits.
#[global] Arguments hit : clear implicits.

End SearchJSON.

(* ===================================================================== *)
(** * Ingestion: [ThesisJSONToSQLConverter.convert_json_to_sql] *)
(* ===================================================================== *)

Module Ingest.
Import PyStr Py.

(** One entry of [content['sections']], as [extract_content] writes it. *)
Record section_data : Type := {
  title : str;
  content : str;
  category : str
}.

(** One entry of [references], as [extract_references] writes it. *)
Record reference_data : Type := {
  ref_title : option str;
  ref_authors : list str;
  ref_date : option str
}.

(** One analysis of the JSON file, as [analyze_xml_file] writes it. *)
Record thesis_data : Type := {
  file : str;
  status : str;
  metadata_title : str;
  metadata_authors : list str;
  metadata_date : option str;
  metadata_abstract : option str;
  language : str;
  sections : list section_data;
  references : list reference_data
}.

(** Rows of the four tables.  The columns that hold JSON text keep the
    value that is serialised. *)
Record document_row : Type := {
  doc_id : Z;
  filename : str;
  doc_title : str;
  doc_language : str;
  doc_authors : list str;
  date_published : option str;
  doc_abstract : option str;
  total_sections : Z;
  total_references : Z;
  file_hash : str
}.

Record section_row : Type := {
  sec_id : Z;
  sec_document_id : Z;
  section_title : str;
  section_category : str;
  sec_content : str;
  content_length : Z;
  tokens_count : Z;
  sec_chunk_index : Z
}.

Record chunk_metadata : Type := {
  cm_document_id : Z;
  cm_section_id : Z;
  cm_section_title : str;
  cm_section_category : str;
  cm_chunk_index : Z;
  cm_document_title : str;
  cm_authors : list str;
  cm_language : str
}.

Record text_chunk_row : Type := {
  tc_id : Z;
  tc_document_id : Z;
  tc_section_id : Z;
  chunk_text : str;
  chunk_size : Z;
  chunk_index : Z;
  overlap_start : Z;
  overlap_end : Z;
  metadata_json : chunk_metadata
}.

Record reference_row : Type := {
  rr_id : Z;
  rr_document_id : Z;
  rr_title : option str;
  rr_authors : list str;
  rr_date : option str;
  ref_index : Z
}.

(** The database: its tables, rows in insertion order.  No row is ever
    deleted, so the next AUTOINCREMENT id of a table is its number of
    rows plus one. *)
Record db : Type := {
  documents : list document_row;
  sections_table : list section_row;
  text_chunks : list text_chunk_row;
  bibliographic_references : list reference_row
}.

Definition empty_db : db :=
  {| documents := []; sections_table := []; text_chunks := [];
     bibliographic_references := [] |}.

Definition lastrowid {A : Type} (table : list A) : Z := len table + 1.

Section WithHash.

(** [calculate_file_hash]: the MD5 digest of [str(thesis_data)], a
    function of the data. *)
Variable calculate_file_hash : thesis_data -> str.

(** [insert_document]: the id it returns (or the error of the UNIQUE
    constraint on [filename]) and the database afterwards. *)
Definition insert_document (d : db) (thesis : thesis_data) : res Z * db :=
  let h := calculate_file_hash thesis in
  match List.find (fun r => str_eqb (file_hash r) h) (documents d) with
  | Some existing => (Ok (doc_id existing), d)
  | None =>
    if existsb (fun r => str_eqb (filename r) (file thesis)) (documents d)
    then (Raise IntegrityError, d)
    else
      let document_id := lastrowid (documents d) in
      let r := {| doc_id := document_id;
                  filename := file thesis;
                  doc_title := metadata_title thesis;
                  doc_language := language thesis;
                  doc_authors := metadata_authors thesis;
                  date_published := metadata_date thesis;
                  doc_abstract := metadata_abstract thesis;
                  total_sections := len (sections thesis);
                  total_references := len (references thesis);
                  file_hash := h |} in
      (Ok document_id,
       {| documents := documents d ++ [r];
          sections_table := sections_table d;
          text_chunks := text_chunks d;
          bibliographic_references := bibliographic_references d |})
  end.

(** The inner loop of [insert_sections_and_chunks]: one row per chunk. *)
Fixpoint insert_chunks (document_id section_id : Z) (thesis : thesis_data)
    (sec : section_data) (chunks : list Chunker.chunk)
    (rows : list text_chunk_row) : list text_chunk_row :=
  match chunks with
  | [] => rows
  | c :: chunks' =>
    let m := {| cm_document_id := document_id;
                cm_section_id := section_id;
                cm_section_title := title sec;
                cm_section_category := category sec;
                cm_chunk_index := Chunker.index c;
                cm_document_title := metadata_title thesis;
                cm_authors := metadata_authors thesis;
                cm_language := language thesis |} in
    let r := {| tc_id := lastrowid rows;
                tc_document_id := document_id;
                tc_section_id := section_id;
                chunk_text := Chunker.text c;
                chunk_size := Chunker.size c;
                chunk_index := Chunker.index c;
                overlap_start := Chunker.overlap_start c;
                overlap_end := Chunker.overlap_end c;
                metadata_json := m |} in
    insert_chunks document_id section_id thesis sec chunks' (rows ++ [r])
  end.

(** The outer loop of [insert_sections_and_chunks]. *)
Fixpoint insert_sections (document_id : Z) (thesis : thesis_data)
    (secs : list section_data) (d : db) : db :=
  match secs with
  | [] => d
  | sec :: secs' =>
    let section_content := content sec in
    let section_id := lastrowid (sections_table d) in
    let r := {| sec_id := section_id;
                sec_document_id := document_id;
                section_title := title sec;
                section_category := category sec;
                sec_content := section_content;
                content_length := len section_content;
                tokens_count := Chunker.estimate_tokens section_content;
                sec_chunk_index := 0 |} in
    let chunks := Chunker.tokenize_default section_content in
    insert_sections document_id thesis secs'
      {| documents := documents d;
         sections_table := sections_table d ++ [r];
         text_chunks :=
           insert_chunks document_id section_id thesis sec chunks
             (text_chunks d);
         bibliographic_references := bibliographic_references d |}
  end.

Definition insert_sections_and_chunks (document_id : Z)
    (thesis : thesis_data) (d : db) : db :=
  insert_sections document_id thesis (sections thesis) d.

Fixpoint insert_refs (document_id : Z) (refs : list reference_data)
    (i : Z) (rows : list reference_row) : list reference_row :=
  match refs with
  | [] => rows
  | ref :: refs' =>
    insert_refs document_id refs' (i + 1)
      (rows ++ [{| rr_id := lastrowid rows;
                   rr_document_id := document_id;
                   rr_title := ref_title ref;
                   rr_authors := ref_authors ref;
                   rr_date := ref_date ref;
                   ref_index := i |}])
  end.

Definition insert_references (document_id : Z) (thesis : thesis_data)
    (d : db) : db :=
  {| documents := documents d;
     sections_table := sections_table d;
     text_chunks := text_chunks d;
     bibliographic_references :=
       insert_refs document_id (references thesis) 0
         (bibliographic_references d) |}.

(** The state of [convert_json_to_sql]: the database and its two
    counters. *)
Record conversion : Type := {
  database : db;
  successful_conversions : Z;
  failed_conversions : Z
}.

(** The body of the loop of [convert_json_to_sql] for one analysis. *)
Definition convert_one (st : conversion) (thesis : thesis_data)
    : conversion :=
  if negb (str_eqb (status thesis) (utf8 "success")) then
    {| database := database st;
       successful_conversions := successful_conversions st;
       failed_conversions := failed_conversions st + 1 |}
  else
    match insert_document (database st) thesis with
    | (Ok document_id, d1) =>
      let d2 := insert_sections_and_chunks document_id thesis d1 in
      let d3 := insert_references document_id thesis d2 in
      {| database := d3;
         successful_conversions := successful_conversions st + 1;
         failed_conversions := failed_conversions st |}
    | (Raise _, d1) =>
      {| database := d1;
         successful_conversions := successful_conversions st;
         failed_conversions := failed_conversions st + 1 |}
    end.

(** [convert_json_to_sql] on the analyses loaded from the JSON file,
    starting from the database [d]. *)
Definition convert_json_to_sql (d : db) (thesis_analyses : list thesis_data)
    : conversion :=
  fold_left convert_one thesis_analyses
    {| database := d; successful_conversions := 0;
       failed_conversions := 0 |}.

End WithHash.

End Ingest.

(* ===================================================================== *)
(** * A small store and index, used to run the searchers *)
(* ===================================================================== *)

Module Sample.
Import PyStr Py.

Definition paper (cid sec ttl auth : string) (date : pyval) : SearchSQLite.row :=
  {| SearchSQLite.chunk_id := PStr (utf8 cid);
     SearchSQLite.section := PStr (utf8 sec);
     SearchSQLite.subsection := PStr (utf8 sec);
     SearchSQLite.text := PStr (utf8 "Lorem ipsum dolor sit amet.");
     SearchSQLite.student_id := PInt 12345;
     SearchSQLite.student_name := PStr (utf8 "Juan Calderón");
     SearchSQLite.journal := PStr [];
     SearchSQLite.editorial := PStr [];
     SearchSQLite.doi := PStr [];
     SearchSQLite.published_date := date;
     SearchSQLite.conference := PStr [];
     SearchSQLite.isbn := PStr [];
     SearchSQLite.title := PStr (utf8 ttl);
     SearchSQLite.abstract := PStr [];
     SearchSQLite.keywords := PStr (utf8 "nlp, retrieval");
     SearchSQLite.affiliations := PStr [];
     SearchSQLite.authors := PStr (utf8 auth) |}.

(** Three chunks of three papers; the first has no publication date. *)
Definition rows : list SearchSQLite.row :=
  [ paper "001_chunk_0001" "Abstract" "Deep learning for text"
      "Juana Perez; Luis Soto" PNone;
    paper "002_chunk_0001" "Abstract" "Graph theory"
      "Ana Ruiz" (PStr (utf8 "2021-05-01"));
    paper "003_chunk_0001" "Methods" "Deep models of language"
      "Luis Soto" (PStr (utf8 "2020-03-02")) ].

(** The index answers every query with five candidates at distances
    0.1 to 0.5; the second is a stale entry and the last an empty slot. *)
Definition store : SearchSQLite.FaissSemanticSearchSQLite Q unit :=
  {| SearchSQLite.encode := fun _ => tt;
     SearchSQLite.index_search := fun _ _ =>
       ([1 # 10; 2 # 10; 3 # 10; 4 # 10; 5 # 10]%Q, [0; 7; 1; 2; -1]);
     SearchSQLite.chunk_ids := map SearchSQLite.chunk_id rows;
     SearchSQLite.get_chunk_with_metadata := fun cid =>
       List.find (fun r => py_eqb (SearchSQLite.chunk_id r) cid) rows |}.

Definition json_item (id : Z) (sec : string) : SearchJSON.item :=
  <[ "id"%string := PInt id ]>
  (<[ "section"%string := PStr (utf8 sec) ]>
  {[ "text"%string := PStr (utf8 "Lorem ipsum dolor sit amet.") ]}).

Definition json_store : SearchJSON.FaissSemanticSearch Q unit :=
  {| SearchJSON.encode := fun _ => tt;
     SearchJSON.index_search := fun _ _ =>
       ([1 # 10; 2 # 10; 3 # 10; 4 # 10; 5 # 10]%Q, [0; 7; 1; 2; -1]);
     SearchJSON.metadata :=
       [json_item 1 "Abstract"; json_item 2 "Methods";
        json_item 3 "Abstract"] |}.

Definition thesis : Ingest.thesis_data :=
  {| Ingest.file := utf8 "tesis_001.xml";
     Ingest.status := utf8 "success";
     Ingest.metadata_title := utf8 "Sintesis de peliculas delgadas";
     Ingest.metadata_authors := [utf8 "Ana Ruiz"];
     Ingest.metadata_date := None;
     Ingest.metadata_abstract := None;
     Ingest.language := utf8 "spanish";
     Ingest.sections :=
       [ {| Ingest.title := utf8 "Metodologia";
            Ingest.content :=
              utf8 "Las muestras se midieron por difraccion de rayos X.";
            Ingest.category := utf8 "metodologia" |} ];
     Ingest.references := [] |}.

(** A stand-in for the MD5 digest: any function of the data serves. *)
Definition digest (t : Ingest.thesis_data) : str :=
  Ingest.file t ++ Ingest.metadata_title t.

End Sample.

(* ===================================================================== *)
(** * Vocabulary of the statements *)
(* ===================================================================== *)

Section StringProps.
Import PyStr.

(** The text without its whitespace characters. *)
Definition despace (s : str) : str := List.filter (fun c => negb (isspace c)) s.

(** The first character is whitespace. *)
Definition starts_ws (s : str) : bool :=
  match s with c :: _ => isspace c | [] => false end.

(** The last character is whitespace. *)
Definition ends_ws (s : str) : bool := starts_ws (rev s).

(** No two consecutive characters are both whitespace. *)
Fixpoint ws_pair_free (s : str) : bool :=
  match s with
  | c1 :: s' =>
    match s' with
    | c2 :: _ => negb (isspace c1 && isspace c2) && ws_pair_free s'
    | [] => true
    end
  | [] => true
  end.

(** The only whitespace character that occurs is the plain space. *)
Definition only_plain_spaces (s : str) : Prop :=
  Forall (fun ch => isspace ch = true -> ch = SPACE) s.

(** 600 times the letter "a". *)
Definition six_hundred_a : str := repeat 97 600.

End StringProps.

Section ChunkProps.
Import PyStr Chunker.

(** [c] is the dict the loop appends for the window that begins at
    [start_pos c]. *)
Definition emitted (txt : str) (cs ov : Z) (c : chunk) : Prop :=
  end_pos c = chunk_end txt cs (start_pos c) /\
  text c = strip (slice txt (start_pos c) (end_pos c)) /\
  text c <> [] /\
  size c = len (text c) /\
  overlap_start c = (if index c >? 0 then Z.max 0 (start_pos c - ov) else 0) /\
  overlap_end c = Z.min (len txt) (end_pos c + ov).

(** The order of the chunks in the returned list. *)
Definition before (a b : chunk) : Prop :=
  start_pos a < start_pos b /\ index a < index b.

End ChunkProps.

Section ClassifierProps.
Import PyStr Classifier.

(** Every keyword of the table. *)
Definition all_keywords : list str := concat (map snd section_mappings).


End ClassifierProps.

Section PyProps.
Import PyStr Py.

(** Induction on values, with the elements of a list as hypotheses. *)
Fixpoint pyval_nested_ind (P : pyval -> Prop)
    (HN : P PNone) (HI : forall n, P (PInt n)) (HS : forall s, P (PStr s))
    (HL : forall l, Forall P l -> P (PList l)) (v : pyval) : P v :=
  match v with
  | PNone => HN
  | PInt n => HI n
  | PStr s => HS s
  | PList l =>
    HL l ((fix go (l : list pyval) : Forall P l :=
             match l with
             | [] => @List.Forall_nil _ P
             | x :: l' =>
               @List.Forall_cons _ P x l' (pyval_nested_ind P HN HI HS HL x) (go l')
             end) l)
  end.

Section Collect.
Context {C H : Type} (judge : C -> verdict H).

(** The result a candidate contributes, if it is kept. *)
Definition kept (c : C) : option H :=
  match judge c with
  | Keep h => Some h
  | _ => None
  end.

(** The results of the candidates that are kept, in candidate order. *)
Definition survivors (cands : list C) : list H := omap kept cands.

(** The positions (ranks) of the candidates behind the results. *)
Definition from_ranks (cands : list C) (ranks : list nat) (hits : list H)
    : Prop :=
  StronglySorted lt ranks /\
  Forall2 (fun r h => exists c, nth_error cands r = Some c /\
                                judge c = Keep h) ranks hits.

End Collect.

(** [hits] is the list of the first [k] survivors of [cands], in their
    order: a prefix of the survivors, of at most [k] entries, taken at
    increasing ranks; all the survivors when there are fewer than [k];
    and unchanged by whatever follows [cands] once [k] are gathered. *)
Definition first_k_in_order {C H : Type} (judge : C -> Py.verdict H) (k : Z)
    (cands : list C) (hits : list H) : Prop :=
  hits = firstn (Z.to_nat k) (survivors judge cands) /\
  PyStr.len hits <= k /\
  (exists ranks, from_ranks judge cands ranks hits) /\
  (PyStr.len (survivors judge cands) < k -> hits = survivors judge cands) /\
  (forall more, k <= PyStr.len hits ->
                Py.collect judge k (cands ++ more) [] = Py.Ok hits).

End PyProps.

Section SQLiteProps.
Import PyStr Py SearchSQLite.
Context {dist qvec : Type}.
Implicit Types (self : FaissSemanticSearchSQLite dist qvec) (chunk : row).

(** A candidate the store cannot resolve. *)
Definition unresolved self (idx : Z) : Prop :=
  out_of_range self idx = true \/
  get_chunk_with_metadata self (nth (Z.to_nat idx) (chunk_ids self) PNone) = None.

(** The same, as a test on an enumerated candidate. *)
Definition resolvable self (c : nat * Z) : bool :=
  negb (out_of_range self (snd c)) &&
  match get_chunk_with_metadata self
          (nth (Z.to_nat (snd c)) (chunk_ids self) PNone) with
  | Some _ => true
  | None => false
  end.



(** Typing, under which no check raises. *)
Definition is_str (v : pyval) : bool :=
  match v with PStr _ => true | _ => false end.

(** The text columns hold strings and [published_date] a string or NULL,
    as the ingestion script writes them. *)
Definition row_typed chunk : bool :=
  is_str (title chunk) && is_str (student_name chunk) &&
  is_str (authors chunk) && is_str (journal chunk) &&
  is_str (editorial chunk) && is_str (abstract chunk) &&
  is_str (keywords chunk) && is_str (affiliations chunk) &&
  match published_date chunk with
  | PNone | PStr _ => true
  | _ => false
  end.

(** Every row the store returns is typed so. *)
Definition store_typed self : Prop :=
  forall cid chunk,
    get_chunk_with_metadata self cid = Some chunk -> row_typed chunk = true.

(** The filter under [key], if supplied, is a string. *)
Definition str_if_given (f : gmap string pyval) (key : string) : bool :=
  match f !! key with
  | Some v => is_str v
  | None => true
  end.

(** The text filters are strings, and the author filter a string or a
    list of strings. *)
Definition filters_typed (filters : option (gmap string pyval)) : bool :=
  match filters with
  | None => true
  | Some f =>
    str_if_given f "title" && str_if_given f "student_name" &&
    str_if_given f "journal" && str_if_given f "editorial" &&
    str_if_given f "abstract" && str_if_given f "keywords" &&
    str_if_given f "affiliations" &&
    match f !! "author"%string with
    | Some (PStr _) => true
    | Some (PList l) => forallb is_str l
    | Some _ => false
    | None => true
    end
  end.

End SQLiteProps.

Section SampleProps.
Import PyStr Py.

(** The filters [{"title": "DEEP"}]. *)
Definition deep_filter : option (gmap string pyval) :=
  Some {[ "title"%string := PStr (utf8 "DEEP") ]}.


End SampleProps.

Section IngestProps.
Import PyStr Py Ingest.

(** The number of chunks [insert_sections_and_chunks] writes. *)
Definition chunk_count (secs : list section_data) : nat :=
  list_sum (map (fun sec => length (Chunker.tokenize_default (content sec))) secs).

(** The sample analysis converted into an empty database, and then
    converted a second time. *)
Definition ingested_once : conversion :=
  convert_json_to_sql Sample.digest empty_db [Sample.thesis].

Definition ingested_twice : conversion :=
  convert_json_to_sql Sample.digest (database ingested_once) [Sample.thesis].

End IngestProps.

Section IngestInvariants.
Import PyStr Py Ingest.

(** The ids of a table are 1, 2, ... in row order: what AUTOINCREMENT
    gives a table whose rows are never deleted. *)
Definition ids_in_sequence (ids : list Z) : Prop :=
  forall i id, nth_error ids i = Some id -> id = Z.of_nat i + 1.

(** No two documents share a file name or a content hash, and the ids of
    every table are in sequence. *)
Definition keys_unique (d : db) : Prop :=
  List.NoDup (map file_hash (documents d)) /\
  List.NoDup (map filename (documents d)) /\
  ids_in_sequence (map doc_id (documents d)) /\
  ids_in_sequence (map sec_id (sections_table d)) /\
  ids_in_sequence (map tc_id (text_chunks d)) /\
  ids_in_sequence (map rr_id (bibliographic_references d)).

(** Every foreign key points at a stored row: a section at its document,
    a chunk at its document and at a section of that document, a
    reference at its document. *)
Definition references_resolve (d : db) : Prop :=
  Forall (fun s => In (sec_document_id s) (map doc_id (documents d)))
         (sections_table d) /\
  Forall (fun c =>
            In (tc_document_id c) (map doc_id (documents d)) /\
            exists s, In s (sections_table d) /\
                      sec_id s = tc_section_id c /\
                      sec_document_id s = tc_document_id c)
         (text_chunks d) /\
  Forall (fun r => In (rr_document_id r) (map doc_id (documents d)))
         (bibliographic_references d).

(** The analyses that [convert_json_to_sql] does not skip. *)
Definition is_success (thesis : thesis_data) : bool :=
  str_eqb (status thesis) (utf8 "success").

(** The sample analysis after a correction of its title: the same file,
    another content. *)
Definition thesis_revised : thesis_data :=
  {| file := file Sample.thesis;
     status := status Sample.thesis;
     metadata_title := utf8 "Sintesis de peliculas delgadas de ZnO";
     metadata_authors := metadata_authors Sample.thesis;
     metadata_date := metadata_date Sample.thesis;
     metadata_abstract := metadata_abstract Sample.thesis;
     language := language Sample.thesis;
     sections := sections Sample.thesis;
     references := references Sample.thesis |}.

(** An analysis that failed, as [analyze_xml_file] reports it. *)
Definition thesis_failed : thesis_data :=
  {| file := utf8 "tesis_002.xml";
     status := utf8 "error";
     metadata_title := [];
     metadata_authors := [];
     metadata_date := None;
     metadata_abstract := None;
     language := [];
     sections := [];
     references := [] |}.

End IngestInvariants.

Section SearchVocabulary.
Import PyStr Py SearchSQLite.

(** The filter keys that [search] looks at. *)
Definition known_keys : list string :=
  ["title"; "student_id"; "student_name"; "author"; "journal"; "editorial";
   "year"; "abstract"; "keywords"; "affiliations"]%string.

End SearchVocabulary.

Section ClassifierVocabulary.
Import PyStr Classifier.

(** The categories of the table, in its order. *)
Definition categories : list str := map fst section_mappings.

(** The first category of the table one of whose keywords occurs in the
    first 200 characters of the content. *)
Definition content_category (content : str) : option str :=
  option_map fst
    (List.find
       (fun entry =>
          existsb (fun keyword => contains keyword (content_start content))
                  (snd entry))
       section_mappings).

End ClassifierVocabulary.

Section ClassifierDecision.
Import PyStr Classifier.



End ClassifierDecision.

(* ===================================================================== *)
(** * The analyzer around the classifier: [GrobidXMLAnalyzer.extract_content]
      and [detect_language] *)
(* ===================================================================== *)

Module Analyzer.
Import PyStr Py Classifier.

(** [s.split()]: the words of [s], the maximal runs of characters that
    are not whitespace. *)
Fixpoint split_ws (s : str) : list str :=
  match s with
  | [] => []
  | c :: s' =>
    if isspace c then split_ws s'
    else
      match s' with
      | [] => [[c]]
      | c' :: _ =>
        if isspace c' then [c] :: split_ws s'
        else match split_ws s' with
             | word :: words => (c :: word) :: words
             | [] => [[c]]
             end
      end
  end.

Definition spanish_indicators : list str :=
  [utf8 "de"; utf8 "la"; utf8 "el"; utf8 "en"; utf8 "que"; utf8 "con";
   utf8 "por"; utf8 "para"; utf8 "del"; utf8 "los"; utf8 "las"; utf8 "una";
   utf8 "uno"].

Definition english_indicators : list str :=
  [utf8 "the"; utf8 "of"; utf8 "and"; utf8 "to"; utf8 "in"; utf8 "for";
   utf8 "with"; utf8 "on"; utf8 "at"; utf8 "by"; utf8 "from"; utf8 "this";
   utf8 "that"].

(** [sum(1 for word in words if word in indicators)] *)
Definition count_in (indicators words : list str) : Z :=
  len (List.filter (fun word => existsb (str_eqb word) indicators) words).

(** [detect_language(text)] *)
Definition detect_language (text : str) : str :=
  let words := firstn 100 (split_ws (lower text)) in
  let spanish_count := count_in spanish_indicators words in
  let english_count := count_in english_indicators words in
  if spanish_count >? english_count then utf8 "spanish" else utf8 "english".

(** What [extract_content] reads of one [div] of the body: the [text] of
    its first [head] ([None] when it has no [head], [Some None] when the
    [head] has no text of its own), and the [text] of each of its [p]
    elements ([None] for a [p] without text). *)
Record div : Type := {
  head_text : option (option str);
  p_texts : list (option str)
}.

(** What it reads of the body: the [div] elements in document order, and
    the [text] of every [p] of the body. *)
Record body : Type := {
  divs : list div;
  all_paragraphs : list (option str)
}.

(** [sep.join(parts)] *)
Fixpoint join (sep : str) (parts : list str) : str :=
  match parts with
  | [] => []
  | [part] => part
  | part :: parts' => part ++ sep ++ join sep parts'
  end.

(** The list [section_text]: [p.text.strip()] for every [p] whose text is
    not empty. *)
Fixpoint section_text (paragraphs : list (option str)) : list str :=
  match paragraphs with
  | [] => []
  | Some (c :: s) :: paragraphs' => strip (c :: s) :: section_text paragraphs'
  | _ :: paragraphs' => section_text paragraphs'
  end.

(** The list [full_text_parts]: [p.text.strip()] for every [p] whose text
    is not empty and not only whitespace. *)
Fixpoint full_text_parts (paragraphs : list (option str)) : list str :=
  match paragraphs with
  | [] => []
  | Some (c :: s) :: paragraphs' =>
    match strip (c :: s) with
    | [] => full_text_parts paragraphs'
    | _ :: _ => strip (c :: s) :: full_text_parts paragraphs'
    end
  | _ :: paragraphs' => full_text_parts paragraphs'
  end.

(** One entry of [content['sections']]; the category is what
    [categorize_section] returned. *)
Record section_data : Type := {
  title : str;
  content : str;
  category : option str
}.

(** [content['categorized_sections']]: a dict from category to the list
    of the [{'title', 'content'}] entries of that category, its keys in
    insertion order. *)
Definition categorized : Type := list (option str * list (str * str)).

Definition category_eqb (a b : option str) : bool :=
  match a, b with
  | None, None => true
  | Some x, Some y => str_eqb x y
  | _, _ => false
  end.

(** [if category not in d: d[category] = []] and then
    [d[category].append(entry)] *)
Fixpoint append_to (d : categorized) (key : option str) (entry : str * str)
    : categorized :=
  match d with
  | [] => [(key, [entry])]
  | (k, entries) :: d' =>
    if category_eqb k key then (k, entries ++ [entry]) :: d'
    else (k, entries) :: append_to d' key entry
  end.

(** What the loop over the sections builds. *)
Record progress : Type := {
  sections : list section_data;
  categorized_sections : categorized;
  all_text_for_language : str
}.

Definition SIN_TITULO : str := utf8 "Sin título".

(** The body of the loop for one [div].  A [head] without text gives the
    title [None], on which [categorize_section] raises (at
    [section_title.lower()]). *)
Definition extract_section (st : progress) (section : div) : res progress :=
  let section_title :=
    match head_text section with
    | Some text => text
    | None => Some SIN_TITULO
    end in
  let section_content := join [SPACE] (section_text (p_texts section)) in
  match section_title with
  | None => Raise AttributeError
  | Some section_title =>
    let category := categorize_section section_title section_content in
    Ok {| sections :=
            sections st ++ [ {| title := section_title;
                                content := section_content;
                                category := category |} ];
          categorized_sections :=
            append_to (categorized_sections st) category
              (section_title, section_content);
          all_text_for_language :=
            all_text_for_language st ++ section_content ++ [SPACE] |}
  end.

Fixpoint extract_sections (st : progress) (sections : list div)
    : res progress :=
  match sections with
  | [] => Ok st
  | section :: sections' =>
    st' ← extract_section st section; extract_sections st' sections'
  end.

(** The dict that [extract_content] returns. *)
Record content_data : Type := {
  c_sections : list section_data;
  c_categorized_sections : categorized;
  c_full_text : str;
  c_language : str
}.

(** [extract_content(root)] *)
Definition extract_content (root : body) : res content_data :=
  st ← extract_sections
         {| sections := []; categorized_sections := [];
            all_text_for_language := [] |} (divs root);
  Ok {| c_sections := sections st;
        c_categorized_sections := categorized_sections st;
        c_language := detect_language (all_text_for_language st);
        c_full_text := join [SPACE] (full_text_parts (all_paragraphs root)) |}.

End Analyzer.

Section AnalyzerVocabulary.
Import PyStr Py Analyzer.

(** The [{'title', 'content'}] entries of the sections of one category,
    in document order. *)
Definition entries_of (key : option str) (sections_ : list section_data)
    : list (str * str) :=
  map (fun s => (title s, content s))
      (List.filter (fun s => category_eqb (category s) key) sections_).

(** A dict of categorized sections that groups the given sections: its
    keys are distinct, every key holds the entries of its sections, in
    document order and at least one, and the category of every section
    is a key. *)
Definition groups (d : categorized) (sections_ : list section_data) : Prop :=
  List.NoDup (map fst d) /\
  (forall key entries, In (key, entries) d ->
     entries <> [] /\ entries = entries_of key sections_) /\
  (forall s, In s sections_ -> In (category s) (map fst d)).

(** A body of three sections, the second one without a [head]. *)
Definition sample_body : body :=
  {| divs :=
       [ {| head_text := Some (Some (utf8 "1. Introducción"));
            p_texts := [Some (utf8 " En la actualidad los materiales "); None;
                        Some (utf8 "de la industria.")] |};
         {| head_text := None;
            p_texts := [Some (utf8 "Los resultados de la medición.")] |};
         {| head_text := Some (Some (utf8 "Introduction"));
            p_texts := [Some (utf8 "The materials of the industry.")] |} ];
     all_paragraphs :=
       [Some (utf8 " En la actualidad los materiales "); None;
        Some (utf8 "de la industria.");
        Some (utf8 "Los resultados de la medición.");
        Some (utf8 "The materials of the industry.")] |}.

(** A text of a hundred words. *)
Definition hundred_words : str := concat (repeat (utf8 "la casa ") 50).

(** A body whose only section has a title and no paragraph with text. *)
Definition empty_body : body :=
  {| divs := [ {| head_text := Some (Some (utf8 "Resumen"));
                  p_texts := [None; Some []] |} ];
     all_paragraphs := [None; Some []] |}.

End AnalyzerVocabulary.

(* ===================================================================== *)
(** * Reading the database back: [export_for_faiss] and
      [get_chunks_by_category] *)
(* ===================================================================== *)

Module FaissExport.
Import PyStr Py Ingest.

(** What [SELECT ... ORDER BY key] may return for the rows it selects: the
    same rows, in an order in which the key never decreases.  SQL leaves
    the order of rows with equal keys open, so this is a relation. *)
Definition ordered_by {R K : Type} (key : R -> K) (le : K -> K -> Prop)
    (rows result : list R) : Prop :=
  Permutation rows result /\
  StronglySorted (fun a b => le (key a) (key b)) result.

(** One order that satisfies it: insertion of each row after the rows
    whose key is not greater. *)
Fixpoint insert_by {R K : Type} (key : R -> K) (leb : K -> K -> bool)
    (r : R) (sorted : list R) : list R :=
  match sorted with
  | [] => [r]
  | x :: sorted' =>
    if leb (key x) (key r) then x :: insert_by key leb r sorted'
    else r :: sorted
  end.

Definition sort_by {R K : Type} (key : R -> K) (leb : K -> K -> bool)
    (rows : list R) : list R :=
  fold_left (fun sorted r => insert_by key leb r sorted) rows [].

(** A row of [text_chunks] with the document and the section it is
    joined with. *)
Record joined : Type := {
  j_chunk : text_chunk_row;
  j_document : document_row;
  j_section : section_row
}.

(** [FROM text_chunks tc JOIN documents d ON tc.document_id = d.id
          JOIN sections s ON tc.section_id = s.id] *)
Definition join_documents_sections (d : db) : list joined :=
  flat_map
    (fun tc =>
       flat_map
         (fun doc =>
            map (fun s => {| j_chunk := tc; j_document := doc; j_section := s |})
                (List.filter (fun s => sec_id s =? tc_section_id tc)
                             (sections_table d)))
         (List.filter (fun doc => doc_id doc =? tc_document_id tc)
                      (documents d)))
    (text_chunks d).

(** [ORDER BY d.id, s.id, tc.chunk_index] *)
Definition export_key (r : joined) : Z * Z * Z :=
  (doc_id (j_document r), sec_id (j_section r), chunk_index (j_chunk r)).

Definition le3 (a b : Z * Z * Z) : Prop :=
  let '(a1, a2, a3) := a in
  let '(b1, b2, b3) := b in
  a1 < b1 \/ (a1 = b1 /\ (a2 < b2 \/ (a2 = b2 /\ a3 <= b3))).

Definition leb3 (a b : Z * Z * Z) : bool :=
  let '(a1, a2, a3) := a in
  let '(b1, b2, b3) := b in
  (a1 <? b1) || ((a1 =? b1) && ((a2 <? b2) || ((a2 =? b2) && (a3 <=? b3)))).

(** The metadata of an exported entry: the chunk's own metadata with the
    four keys that the export sets (['document_title'] and
    ['section_title'] replace the values of the chunk's metadata). *)
Record faiss_metadata : Type := {
  fm_document_id : Z;
  fm_section_id : Z;
  fm_section_title : str;
  fm_section_category : str;
  fm_chunk_index : Z;
  fm_document_title : str;
  fm_authors : list str;
  fm_language : str;
  fm_filename : str;
  fm_category : str
}.

Record faiss_entry : Type := {
  fe_id : Z;
  fe_text : str;
  fe_metadata : faiss_metadata
}.

(** The body of the loop over the rows fetched. *)
Definition faiss_entry_of (r : joined) : faiss_entry :=
  let metadata := metadata_json (j_chunk r) in
  {| fe_id := tc_id (j_chunk r);
     fe_text := chunk_text (j_chunk r);
     fe_metadata :=
       {| fm_document_id := cm_document_id metadata;
          fm_section_id := cm_section_id metadata;
          fm_section_title := section_title (j_section r);
          fm_section_category := cm_section_category metadata;
          fm_chunk_index := cm_chunk_index metadata;
          fm_document_title := doc_title (j_document r);
          fm_authors := cm_authors metadata;
          fm_language := cm_language metadata;
          fm_filename := filename (j_document r);
          fm_category := section_category (j_section r) |} |}.

(** [export_for_faiss()] may return [faiss_data]. *)
Definition export_for_faiss (d : db) (faiss_data : list faiss_entry) : Prop :=
  exists rows,
    ordered_by export_key le3 (join_documents_sections d) rows /\
    faiss_data = map faiss_entry_of rows.

(** A row of [text_chunks] with the section it is joined with. *)
Record joined_section : Type := {
  js_chunk : text_chunk_row;
  js_section : section_row
}.

(** [FROM text_chunks tc JOIN sections s ON tc.section_id = s.id
     WHERE s.section_category = ?] *)
Definition join_sections_where (d : db) (category : str)
    : list joined_section :=
  flat_map
    (fun tc =>
       map (fun s => {| js_chunk := tc; js_section := s |})
           (List.filter
              (fun s => (sec_id s =? tc_section_id tc)
                        && str_eqb (section_category s) category)
              (sections_table d)))
    (text_chunks d).

(** [ORDER BY tc.document_id, tc.chunk_index] *)
Definition category_key (r : joined_section) : Z * Z :=
  (tc_document_id (js_chunk r), chunk_index (js_chunk r)).

Definition le2 (a b : Z * Z) : Prop :=
  fst a < fst b \/ (fst a = fst b /\ snd a <= snd b).

Definition leb2 (a b : Z * Z) : bool :=
  (fst a <? fst b) || ((fst a =? fst b) && (snd a <=? snd b)).

Record category_chunk : Type := {
  cc_text : str;
  cc_metadata : chunk_metadata
}.

Definition category_chunk_of (r : joined_section) : category_chunk :=
  {| cc_text := chunk_text (js_chunk r);
     cc_metadata := metadata_json (js_chunk r) |}.

(** [get_chunks_by_category(category)] may return [chunks]. *)
Definition get_chunks_by_category (d : db) (category : str)
    (chunks : list category_chunk) : Prop :=
  exists rows,
    ordered_by category_key le2 (join_sections_where d category) rows /\
    chunks = map category_chunk_of rows.

End FaissExport.

(* ===================================================================== *)
(** * The script that fills the searcher's database:
      [pruebas_calderon/from_tei_to_sqlite.py] *)
(* ===================================================================== *)

Module TeiToSqlite.
Import PyStr Py.

(** [str(n)] for [0 <= n] *)
Definition digits (n : Z) : str :=
  utf8 (NilEmpty.string_of_uint (N.to_uint (Z.to_N n))).

(** [s.zfill(width)] for a string of digits *)
Definition zfill (width : Z) (s : str) : str :=
  repeat 48 (Z.to_nat (width - len s)) ++ s.

(** [f"{n:0width}"]: padded with zeros after the sign. *)
Definition format_int (width n : Z) : str :=
  if n <? 0 then 45 :: zfill (width - 1) (digits (- n))
  else zfill width (digits n).

(** [f"{pdf_db_id:03}_chunk_{chunk_id:04}"] *)
Definition chunk_key (pdf_db_id chunk_id : Z) : str :=
  format_int 3 pdf_db_id ++ utf8 "_chunk_" ++ format_int 4 chunk_id.

Record metadata_row : Type := {
  pdf_id : Z;
  source_file : str;
  student_id : Z;
  student_name : str;
  language : str;
  created_at : str;
  type_ : str;
  journal : str;
  editorial : str;
  doi : str;
  published_date : option str;
  conference : str;
  isbn : str;
  title : str;
  abstract : str;
  keywords : str;
  affiliations : str;
  authors : str;
  first_author : str
}.

Record chunk_row : Type := {
  chunk_id : str;
  chunk_pdf_id : Z;
  section : str;
  subsection : str;
  text : str;
  tokens : Z
}.

(** The two tables, rows in insertion order. *)
Record store : Type := {
  metadata : list metadata_row;
  chunks : list chunk_row
}.

(** The configuration block of the script. *)
Record config : Type := {
  cfg_source_file : str;
  cfg_student_id : Z;
  cfg_student_name : str;
  cfg_doc_type : str;
  cfg_language : str;
  cfg_current_date : str
}.

(** What the script reads of the TEI file: the values it extracts from
    the header, and for every [div] of the text the text of its [head]
    ([None] without a [head]) and the [text] of each of its [p]. *)
Record tei : Type := {
  tei_title : str;
  tei_abstract : str;
  keywords_str : str;
  affiliations_str : str;
  all_authors : str;
  first_author_full : str;
  tei_journal : str;
  tei_editorial : str;
  tei_doi : str;
  tei_published_date : option str;
  tei_conference : str;
  tei_isbn : str;
  tei_divs : list (option str * list (option str))
}.

(** The rowid that an [INTEGER PRIMARY KEY] column gets when none is
    given: one more than the largest in use, 1 in an empty table. *)
Definition next_rowid (rows : list metadata_row) : Z :=
  match rows with
  | [] => 1
  | r :: rows' => fold_left Z.max (map pdf_id rows') (pdf_id r) + 1
  end.

(** The check for an existing record of the PDF, and the INSERT into
    [metadata] when there is none: the tables, and [pdf_db_id]. *)
Definition register_pdf (cfg : config) (xml : tei) (rows : list metadata_row)
    : list metadata_row * Z :=
  match List.find (fun r => str_eqb (source_file r) (cfg_source_file cfg)) rows with
  | Some row => (rows, pdf_id row)
  | None =>
    let pdf_db_id := next_rowid rows in
    (rows ++ [ {| pdf_id := pdf_db_id;
                  source_file := cfg_source_file cfg;
                  student_id := cfg_student_id cfg;
                  student_name := cfg_student_name cfg;
                  language := cfg_language cfg;
                  created_at := cfg_current_date cfg;
                  type_ := cfg_doc_type cfg;
                  journal := tei_journal xml;
                  editorial := tei_editorial xml;
                  doi := tei_doi xml;
                  published_date := tei_published_date xml;
                  conference := tei_conference xml;
                  isbn := tei_isbn xml;
                  title := tei_title xml;
                  abstract := tei_abstract xml;
                  keywords := keywords_str xml;
                  affiliations := affiliations_str xml;
                  authors := all_authors xml;
                  first_author := first_author_full xml |} ],
     pdf_db_id)
  end.

Definition section_map : list (str * str) :=
  [ (utf8 "title", utf8 "Title");
    (utf8 "abstract", utf8 "Abstract");
    (utf8 "introduction", utf8 "Introduction");
    (utf8 "background", utf8 "Background");
    (utf8 "state of the art", utf8 "State_of_the_Art");
    (utf8 "related work", utf8 "State_of_the_Art");
    (utf8 "methodology", utf8 "Methods");
    (utf8 "methods", utf8 "Methods");
    (utf8 "our approach", utf8 "Methods");
    (utf8 "approach", utf8 "Methods");
    (utf8 "experiments", utf8 "Results");
    (utf8 "experimental results", utf8 "Results");
    (utf8 "evaluation", utf8 "Results");
    (utf8 "discussion", utf8 "Discussion");
    (utf8 "conclusion", utf8 "Conclusion");
    (utf8 "future work", utf8 "Future_Work");
    (utf8 "references", utf8 "References") ].

(** [normalize_section(head)] *)
Definition normalize_section (head : option str) : str :=
  match head with
  | None | Some [] => utf8 "Other"
  | Some head =>
    let head_norm := strip (lower head) in
    match List.find (fun entry => contains (fst entry) head_norm) section_map with
    | Some entry => snd entry
    | None => utf8 "Other"
    end
  end.

(** The table [chunks] and the two global counters. *)
Record progress : Type := {
  rows : list chunk_row;
  next_chunk : Z;
  inserted_chunks : Z
}.

(** [insert_chunk(section, subsection, text)] *)
Definition insert_chunk (pdf_db_id : Z) (section_ subsection_ text_ : str)
    (st : progress) : progress :=
  match text_, strip text_ with
  | _ :: _, _ :: _ =>
    let key := chunk_key pdf_db_id (next_chunk st) in
    if existsb (fun r => str_eqb (chunk_id r) key) (rows st)
    then {| rows := rows st;
            next_chunk := next_chunk st + 1;
            inserted_chunks := inserted_chunks st |}
    else {| rows := rows st ++
                    [ {| chunk_id := key;
                         chunk_pdf_id := pdf_db_id;
                         section := section_;
                         subsection := subsection_;
                         text := strip text_;
                         tokens := len (Analyzer.split_ws text_) |} ];
            next_chunk := next_chunk st + 1;
            inserted_chunks := inserted_chunks st + 1 |}
  | _, _ => st
  end.

(** The six chunks of the header. *)
Definition insert_header (pdf_db_id : Z) (xml : tei) (st : progress)
    : progress :=
  let st := insert_chunk pdf_db_id (utf8 "Title") (utf8 "Title")
              (tei_title xml) st in
  let st := insert_chunk pdf_db_id (utf8 "Abstract") (utf8 "Abstract")
              (tei_abstract xml) st in
  let st := insert_chunk pdf_db_id (utf8 "Keywords") (utf8 "Keywords")
              (keywords_str xml) st in
  let st := insert_chunk pdf_db_id (utf8 "Affiliations") (utf8 "Affiliations")
              (affiliations_str xml) st in
  let st := insert_chunk pdf_db_id (utf8 "Authors") (utf8 "Authors")
              (all_authors xml) st in
  insert_chunk pdf_db_id (utf8 "First_Author") (utf8 "First_Author")
    (first_author_full xml) st.

(** ["\n".join(p.text for p in paragraphs if p is not None and p.text)] *)
Definition div_text (paragraphs : list (option str)) : str :=
  Analyzer.join [10]
    (flat_map (fun p => match p with
                        | Some (c :: s) => [c :: s]
                        | _ => []
                        end) paragraphs).

(** The body of the loop over the [div] elements. *)
Definition insert_div (pdf_db_id : Z) (st : progress)
    (div : option str * list (option str)) : progress :=
  let head := fst div in
  let is_appendix :=
    match head with
    | Some (c :: s) => contains (utf8 "appendix") (lower (c :: s))
    | _ => false
    end in
  if is_appendix then st
  else
    match div_text (snd div) with
    | [] => st
    | text_ =>
      let norm_section := normalize_section head in
      let subsection_ :=
        match head with
        | Some (c :: s) => strip (c :: s)
        | _ => norm_section
        end in
      insert_chunk pdf_db_id norm_section subsection_ text_ st
    end.

(** One run of the script on the database [db]: the database it leaves,
    and the number of chunks it reports as inserted. *)
Definition run (cfg : config) (xml : tei) (db : store) : store * Z :=
  let '(metadata', pdf_db_id) := register_pdf cfg xml (metadata db) in
  let st := {| rows := chunks db; next_chunk := 0; inserted_chunks := 0 |} in
  let st := insert_header pdf_db_id xml st in
  let st := fold_left (insert_div pdf_db_id) (tei_divs xml) st in
  ({| metadata := metadata'; chunks := rows st |}, inserted_chunks st).

End TeiToSqlite.

Section TeiVocabulary.
Import PyStr Py TeiToSqlite.

(** The calls of [insert_chunk] that a run makes, as
    [(section, subsection, text)], in order: six for the header, and at
    most one for every [div]. *)
Definition header_calls (xml : tei) : list (str * str * str) :=
  [ (utf8 "Title", utf8 "Title", tei_title xml);
    (utf8 "Abstract", utf8 "Abstract", tei_abstract xml);
    (utf8 "Keywords", utf8 "Keywords", keywords_str xml);
    (utf8 "Affiliations", utf8 "Affiliations", affiliations_str xml);
    (utf8 "Authors", utf8 "Authors", all_authors xml);
    (utf8 "First_Author", utf8 "First_Author", first_author_full xml) ].

Definition play (pdf_db_id : Z) (calls : list (str * str * str))
    (st : progress) : progress :=
  fold_left
    (fun st call => insert_chunk pdf_db_id (fst (fst call)) (snd (fst call))
                      (snd call) st)
    calls st.

(** The call that the loop makes for one [div], if any. *)
Definition div_calls (div : option str * list (option str))
    : list (str * str * str) :=
  let head := fst div in
  let is_appendix :=
    match head with
    | Some (c :: s) => contains (utf8 "appendix") (lower (c :: s))
    | _ => false
    end in
  if is_appendix then []
  else
    match div_text (snd div) with
    | [] => []
    | text_ =>
      [ (normalize_section head,
         match head with
         | Some (c :: s) => strip (c :: s)
         | _ => normalize_section head
         end,
         text_) ]
    end.

Definition calls_of (xml : tei) : list (str * str * str) :=
  header_calls xml ++ flat_map div_calls (tei_divs xml).

(** A store grows into another: rows are only appended. *)
Definition grows_into (db db' : store) : Prop :=
  (exists new, metadata db' = metadata db ++ new /\ (length new <= 1)%nat) /\
  (exists new, chunks db' = chunks db ++ new).

(** The keys that the script checks before it inserts. *)
Definition keys_distinct (db : store) : Prop :=
  List.NoDup (map source_file (metadata db)) /\
  List.NoDup (map chunk_id (chunks db)).

Definition sample_config : config :=
  {| cfg_source_file := utf8 "2002.01650v5.pdf";
     cfg_student_id := 12345;
     cfg_student_name := utf8 "Juan Calderón";
     cfg_doc_type := utf8 "paper";
     cfg_language := utf8 "en";
     cfg_current_date := utf8 "2025-01-31" |}.

Definition sample_tei : tei :=
  {| tei_title := utf8 "Deep learning for materials";
     tei_abstract := utf8 "We study thin films.";
     keywords_str := [];
     affiliations_str := utf8 "CIMAV";
     all_authors := utf8 "Ana Ruiz; Luis Soto";
     first_author_full := utf8 "Ana Ruiz";
     tei_journal := [];
     tei_editorial := [];
     tei_doi := [];
     tei_published_date := None;
     tei_conference := [];
     tei_isbn := [];
     tei_divs :=
       [ (Some (utf8 "1 Introduction"), [Some (utf8 "Thin films are used."); None]);
         (Some (utf8 "Appendix A"), [Some (utf8 "Tables.")]);
         (None, [Some (utf8 "Unnumbered text.")]);
         (Some (utf8 "2 Related Work"), []) ] |}.

Definition empty_store : store := {| metadata := []; chunks := [] |}.

End TeiVocabulary.

(* ===================================================================== *)
(** * Proofs *)
(* ===================================================================== *)

Section StringFacts.
Import PyStr.

Lemma len_nonneg {A} (s : list A) : 0 <= len s.
Proof. unfold len. lia. Qed.

Lemma len_app {A} (a b : list A) : len (a ++ b) = len a + len b.
Proof. unfold len. rewrite length_app. lia. Qed.

Lemma lstrip_suffix s : exists pre, s = pre ++ lstrip s /\ despace pre = [].
Proof.
  induction s as [|c s IH]; simpl.
  - exists []. auto.
  - destruct (isspace c) eqn:E.
    + destruct IH as [pre [H1 H2]]. exists (c :: pre). simpl. rewrite E. simpl.
      split; [congruence | assumption].
    + exists []. auto.
Qed.

Lemma rstrip_prefix s : exists post, s = rstrip s ++ post /\ despace post = [].
Proof.
  unfold rstrip. destruct (lstrip_suffix (rev s)) as [pre [H1 H2]].
  exists (rev pre). split.
  - rewrite <- rev_app_distr, <- H1, rev_involutive. reflexivity.
  - unfold despace in *. rewrite List.filter_rev, H2. reflexivity.
Qed.

Lemma despace_app a b : despace (a ++ b) = despace a ++ despace b.
Proof. unfold despace. apply List.filter_app. Qed.

Lemma strip_infix s :
  exists pre post, s = pre ++ strip s ++ post /\ despace pre = [] /\ despace post = [].
Proof.
  destruct (lstrip_suffix s) as [pre [H1 H2]].
  destruct (rstrip_prefix (lstrip s)) as [post [H3 H4]].
  exists pre, post. unfold strip. rewrite <- H3. auto.
Qed.

Lemma despace_strip s : despace (strip s) = despace s.
Proof.
  destruct (strip_infix s) as [pre [post [H1 [H2 H3]]]].
  rewrite H1 at 2. rewrite !despace_app, H2, H3, app_nil_r. reflexivity.
Qed.

Lemma starts_ws_lstrip s : starts_ws (lstrip s) = false.
Proof.
  induction s as [|c s IH]; simpl; auto.
  destruct (isspace c) eqn:E; simpl; auto.
Qed.

Lemma ends_ws_strip s : ends_ws (strip s) = false.
Proof.
  unfold ends_ws, strip, rstrip. rewrite rev_involutive. apply starts_ws_lstrip.
Qed.

Lemma starts_ws_prefix a b : a <> [] -> starts_ws (a ++ b) = starts_ws a.
Proof. destruct a; simpl; congruence. Qed.

Lemma starts_ws_strip s : starts_ws (strip s) = false.
Proof.
  unfold strip. destruct (rstrip_prefix (lstrip s)) as [post [H1 H2]].
  destruct (rstrip (lstrip s)) as [|c r] eqn:E; [reflexivity|].
  rewrite <- (starts_ws_prefix (c :: r) post) by discriminate.
  rewrite <- H1. apply starts_ws_lstrip.
Qed.

Lemma ws_pair_free_app a b :
  ws_pair_free (a ++ b) = true -> ws_pair_free a = true /\ ws_pair_free b = true.
Proof.
  induction a as [|c1 a IH]; simpl; intros H; [auto|].
  destruct a as [|c2 a'].
  - simpl in H. destruct b; [auto|]. apply andb_true_iff in H. tauto.
  - change ((c2 :: a') ++ b) with (c2 :: (a' ++ b)) in *.
    apply andb_true_iff in H. destruct H as [H1 H2].
    destruct (IH H2) as [H3 H4]. rewrite H1, H3. auto.
Qed.

Lemma ws_pair_free_strip s : ws_pair_free s = true -> ws_pair_free (strip s) = true.
Proof.
  intros H. destruct (strip_infix s) as [pre [post [H1 _]]].
  rewrite H1 in H. apply ws_pair_free_app in H. destruct H as [_ H].
  apply ws_pair_free_app in H. tauto.
Qed.

Lemma slice_infix {A} (s : list A) a b :
  exists pre post, s = pre ++ slice s a b ++ post.
Proof.
  unfold slice.
  exists (firstn (Z.to_nat (Z.min (from_end (len s) a) (len s))) s).
  eexists. rewrite firstn_skipn. rewrite firstn_skipn. reflexivity.
Qed.

Lemma ws_pair_free_slice s a b :
  ws_pair_free s = true -> ws_pair_free (slice s a b) = true.
Proof.
  intros H. destruct (slice_infix s a b) as [pre [post H1]].
  rewrite H1 in H. apply ws_pair_free_app in H. destruct H as [_ H].
  apply ws_pair_free_app in H. tauto.
Qed.

Lemma isspace_SPACE : isspace SPACE = true.
Proof. reflexivity. Qed.

Lemma ws_pair_free_cons c s :
  ws_pair_free (c :: s) = negb (isspace c && starts_ws s) && ws_pair_free s.
Proof. destruct s; simpl; rewrite ?andb_false_r; reflexivity. Qed.

Lemma sub_ws_pair_free b s :
  ws_pair_free (sub_ws b s) = true /\ (b = true -> starts_ws (sub_ws b s) = false).
Proof.
  revert b. induction s as [|c s IH]; intros b; cbn [sub_ws]; [auto|].
  destruct (isspace c) eqn:E.
  - destruct (IH true) as [H1 H2]. destruct b; [auto|].
    split; [|discriminate].
    rewrite ws_pair_free_cons, H1, (H2 eq_refl), andb_false_r. reflexivity.
  - destruct (IH false) as [H1 _]. split; [|intros _; simpl; exact E].
    rewrite ws_pair_free_cons, H1, E. reflexivity.
Qed.

Lemma despace_sub_ws b s : despace (sub_ws b s) = despace s.
Proof.
  revert b. induction s as [|c s IH]; intros b; simpl; [reflexivity|].
  destruct (isspace c) eqn:E; simpl.
  - destruct b; simpl; rewrite IH; reflexivity.
  - rewrite E. simpl. rewrite IH. reflexivity.
Qed.

Lemma slice_split {A} (s : list A) a b :
  0 <= a <= b -> slice s a b ++ skipn (Z.to_nat b) s = skipn (Z.to_nat a) s.
Proof.
  intros H. unfold slice, from_end.
  destruct (a <? 0) eqn:Ea; [lia|]. destruct (b <? 0) eqn:Eb; [lia|].
  pose proof (len_nonneg s) as Hn. unfold len in *.
  destruct (Z_le_gt_dec b (Z.of_nat (length s))) as [Hb|Hb].
  - rewrite (Z.min_l b), (Z.min_l a) by lia.
    rewrite <- (firstn_skipn (Z.to_nat (b - a)) (skipn (Z.to_nat a) s)) at 2.
    f_equal. rewrite skipn_skipn. f_equal. lia.
  - rewrite (Z.min_r b) by lia.
    rewrite (skipn_all2 s (n := Z.to_nat b)) by lia. rewrite app_nil_r.
    destruct (Z_le_gt_dec a (Z.of_nat (length s))) as [Ha|Ha].
    + rewrite (Z.min_l a) by lia. apply firstn_all2. rewrite length_skipn. lia.
    + rewrite (Z.min_r a) by lia. rewrite !skipn_all2 by lia. apply firstn_nil.
Qed.

Lemma rfind_down_range s sub lo k :
  rfind_down s sub lo k = -1 \/
  (lo <= rfind_down s sub lo k < lo + Z.of_nat k).
Proof.
  induction k as [|k IH]; simpl; [auto|].
  destruct (match_at s sub (lo + Z.of_nat k)); [right; lia|].
  destruct IH; [auto | right; lia].
Qed.

Lemma rfind_bound s sub a b :
  0 <= a -> 0 <= b <= len s -> a < rfind s sub a b ->
  rfind s sub a b + len sub <= b.
Proof.
  intros Ha Hb. unfold rfind, from_end.
  destruct (a <? 0) eqn:Ea; [lia|]. destruct (b <? 0) eqn:Eb; [lia|].
  rewrite (Z.min_l b) by lia.
  destruct (rfind_down_range s sub a (Z.to_nat (b - len sub - a + 1))) as [H|H];
    [lia|]. intros H1. lia.
Qed.

End StringFacts.

Section ChunkerFacts.
Import PyStr Chunker.

Lemma next_start_advances ov start e : start < next_start ov start e.
Proof. unfold next_start. lia. Qed.

Lemma snap_bounds txt seps start e :
  0 <= start -> e <= len txt -> start < e ->
  start < snap txt seps start e <= e.
Proof.
  intros H0 He Hlt. induction seps as [|sep seps IH]; simpl; [lia|].
  destruct (rfind txt sep start e >? start) eqn:E; [|exact IH].
  apply Z.gtb_lt in E.
  pose proof (rfind_bound txt sep start e H0 ltac:(lia) E).
  pose proof (len_nonneg sep). lia.
Qed.

Lemma chunk_end_bounds txt cs start :
  1 <= cs -> 0 <= start ->
  start < chunk_end txt cs start <= start + cs /\
  (chunk_end txt cs start <= len txt \/ chunk_end txt cs start = start + cs).
Proof.
  intros Hcs H0. unfold chunk_end.
  destruct (start + cs <? len txt) eqn:E.
  - apply Z.ltb_lt in E.
    pose proof (snap_bounds txt separators start (start + cs) H0 ltac:(lia) ltac:(lia)).
    lia.
  - lia.
Qed.

Lemma tokenize_loop_total txt cs ov : forall fuel start idx,
  len txt - start <= Z.of_nat fuel ->
  exists chunks, tokenize_loop fuel txt cs ov start idx = Some chunks.
Proof.
  induction fuel as [|fuel IH]; intros start idx Hf; cbn [tokenize_loop];
    destruct (start <? len txt) eqn:E; eauto; apply Z.ltb_lt in E; [lia|].
  pose proof (next_start_advances ov start (chunk_end txt cs start)) as Hadv.
  destruct (strip (slice txt start (chunk_end txt cs start))).
  - apply IH. lia.
  - edestruct IH as [r Hr]; [|rewrite Hr; simpl; eauto]. lia.
Qed.

Lemma tokenize_loop_fuel txt cs ov : forall fuel fuel' start idx,
  len txt - start <= Z.of_nat fuel -> (fuel <= fuel')%nat ->
  tokenize_loop fuel' txt cs ov start idx = tokenize_loop fuel txt cs ov start idx.
Proof.
  induction fuel as [|fuel IH]; intros fuel' start idx Hf Hle.
  - destruct fuel'; cbn [tokenize_loop];
      destruct (start <? len txt) eqn:E; auto; apply Z.ltb_lt in E; lia.
  - destruct fuel' as [|fuel']; [lia|]. cbn [tokenize_loop].
    destruct (start <? len txt) eqn:E; auto.
    pose proof (next_start_advances ov start (chunk_end txt cs start)) as Hadv.
    destruct (strip (slice txt start (chunk_end txt cs start)));
      rewrite (IH fuel') by lia; reflexivity.
Qed.

Lemma tokenize_loop_chunks txt cs ov : forall fuel start idx chunks,
  tokenize_loop fuel txt cs ov start idx = Some chunks ->
  Forall (fun c => start <= start_pos c < len txt /\ idx <= index c /\
                   emitted txt cs ov c) chunks
  /\ StronglySorted before chunks
  /\ (forall i c, nth_error chunks i = Some c -> index c = idx + Z.of_nat i).
Proof.
  induction fuel as [|fuel IH]; intros start idx chunks; cbn [tokenize_loop];
    destruct (start <? len txt) eqn:E; try discriminate;
    try (intros [= <-]; split; [|split]; try constructor;
         intros [|i] c Hc; discriminate).
  apply Z.ltb_lt in E.
  pose proof (next_start_advances ov start (chunk_end txt cs start)) as Hadv.
  destruct (strip (slice txt start (chunk_end txt cs start))) as [|ch rest] eqn:Es.
  - intros H. apply IH in H. destruct H as (HF & HS & HI).
    split; [|split]; auto.
    eapply List.Forall_impl; [|exact HF]. cbn beta.
        intros c (Hc1 & Hc2 & Hc3); split; [lia|split; [lia|assumption]].
  - destruct (tokenize_loop fuel txt cs ov _ (idx + 1)) as [r|] eqn:Er;
      [|discriminate].
    simpl. intros [= <-]. apply IH in Er. destruct Er as (HF & HS & HI).
    split; [|split].
    + constructor.
      * cbn. unfold emitted. cbn. rewrite Es.
        repeat split; auto; try lia; try discriminate.
      * eapply List.Forall_impl; [|exact HF]. cbn beta.
        intros c (Hc1 & Hc2 & Hc3); split; [lia|split; [lia|assumption]].
    + constructor; [exact HS|].
      eapply List.Forall_impl; [|exact HF]. cbn beta. unfold before. cbn.
      intros c (Hc1 & Hc2 & Hc3). lia.
    + intros [|i] c Hc; cbn in Hc.
      * injection Hc as <-. cbn. lia.
      * apply HI in Hc. lia.
Qed.

Lemma tokenize_loop_concat txt cs : forall fuel start idx chunks,
  1 <= cs -> 0 <= start ->
  tokenize_loop fuel txt cs 0 start idx = Some chunks ->
  despace (concat (map text chunks)) = despace (skipn (Z.to_nat start) txt).
Proof.
  induction fuel as [|fuel IH]; intros start idx chunks Hcs H0;
    cbn [tokenize_loop]; destruct (start <? len txt) eqn:E; try discriminate.
  - intros [= <-]. apply Z.ltb_ge in E. unfold len in E.
    rewrite skipn_all2 by lia. reflexivity.
  - apply Z.ltb_lt in E.
    destruct (chunk_end_bounds txt cs start Hcs H0) as [Hb _].
    assert (Hn : next_start 0 start (chunk_end txt cs start) = chunk_end txt cs start)
      by (unfold next_start; lia).
    rewrite Hn.
    rewrite <- (slice_split txt start (chunk_end txt cs start)) by lia.
    rewrite despace_app, <- (despace_strip (slice _ _ _)).
    destruct (strip (slice txt start (chunk_end txt cs start))) as [|ch rest] eqn:Es.
    + intros H. apply IH in H; [|lia|lia]. rewrite H. reflexivity.
    + destruct (tokenize_loop fuel txt cs 0 _ (idx + 1)) as [r|] eqn:Er;
        [|discriminate].
      simpl. intros [= <-]. apply IH in Er; [|lia|lia].
      cbn [map concat text]. rewrite despace_app, Er. reflexivity.
  - intros [= <-]. apply Z.ltb_ge in E. unfold len in E.
    rewrite skipn_all2 by lia. reflexivity.
Qed.

Lemma normalize_pair_free t : ws_pair_free (normalize t) = true.
Proof. unfold normalize, collapse_ws. apply sub_ws_pair_free. Qed.

Lemma despace_normalize t : despace (normalize t) = despace t.
Proof.
  unfold normalize, collapse_ws. rewrite despace_sub_ws. apply despace_strip.
Qed.

Lemma tokenize_text_total t cs ov :
  exists chunks, tokenize_text t cs ov = Some chunks /\
    (chunks = [] \/
     tokenize_loop (length (normalize t)) (normalize t) cs ov 0 0 = Some chunks).
Proof.
  unfold tokenize_text.
  destruct (_ || _); [eauto|].
  destruct (tokenize_loop_total (normalize t) cs ov (length (normalize t)) 0 0)
    as [r Hr]; [unfold len; lia|]. eauto.
Qed.

End ChunkerFacts.

Section ChunkerClaims.
Import PyStr Chunker.

Lemma sub_ws_plain b s : only_plain_spaces (sub_ws b s).
Proof.
  revert b. induction s as [|c s IH]; intros b; cbn [sub_ws]; [constructor|].
  destruct (isspace c) eqn:E.
  - destruct b; [apply IH|]. constructor; [reflexivity | apply IH].
  - constructor; [congruence | apply IH].
Qed.

Lemma only_plain_spaces_infix pre s post :
  only_plain_spaces (pre ++ s ++ post) -> only_plain_spaces s.
Proof.
  unfold only_plain_spaces. rewrite !Forall_app. tauto.
Qed.

Lemma emitted_clean txt cs ov c :
  ws_pair_free txt = true -> only_plain_spaces txt -> emitted txt cs ov c ->
  starts_ws (text c) = false /\ ends_ws (text c) = false /\
  ws_pair_free (text c) = true /\ only_plain_spaces (text c) /\
  size c = len (text c).
Proof.
  intros Hp Ho (_ & Ht & _ & Hs & _). rewrite Ht at 1 2 3 4.
  split; [apply starts_ws_strip|]. split; [apply ends_ws_strip|].
  split; [apply ws_pair_free_strip, ws_pair_free_slice, Hp|].
  split; [|exact Hs].
  destruct (slice_infix txt (start_pos c) (end_pos c)) as (p1 & q1 & H1).
  destruct (strip_infix (slice txt (start_pos c) (end_pos c))) as (p2 & q2 & H2 & _).
  rewrite H1 in Ho. apply only_plain_spaces_infix in Ho.
  rewrite H2 in Ho. apply only_plain_spaces_infix in Ho. exact Ho.
Qed.

(** C9.  For every text and every configuration, [tokenize_text] returns,
    and the text of each chunk has no leading or trailing whitespace, no
    two consecutive whitespace characters (the text it is cut from has
    every whitespace run collapsed to one plain space), and its [size]
    is the length of its [text]. *)
Theorem tokenize_text_chunk_text_clean (t : str) (chunk_size overlap : Z) :
  ws_pair_free (normalize t) = true /\
  only_plain_spaces (normalize t) /\
  exists chunks,
    tokenize_text t chunk_size overlap = Some chunks /\
    Forall (fun c =>
              starts_ws (text c) = false /\
              ends_ws (text c) = false /\
              ws_pair_free (text c) = true /\
              only_plain_spaces (text c) /\
              size c = len (text c)) chunks.
Proof.
  split; [apply normalize_pair_free|]. split; [apply sub_ws_plain|].
  destruct (tokenize_text_total t chunk_size overlap) as (chunks & H & [->|Hl]).
  - exists []. split; [exact H | constructor].
  - exists chunks. split; [exact H|].
    apply tokenize_loop_chunks in Hl. destruct Hl as (HF & _).
    eapply List.Forall_impl; [|exact HF]. cbn beta. intros c (_ & _ & Hc).
    eapply emitted_clean; [apply normalize_pair_free | | exact Hc].
    apply sub_ws_plain.
Qed.

(** C7.  The loop of [tokenize_text] terminates for every text and every
    configuration: each iteration moves [start] strictly forward (also
    when [overlap >= chunk_size]), so from any state [len(text) - start]
    iterations are enough and more fuel changes nothing; [tokenize_text]
    therefore returns, and the [start_pos] of its chunks are strictly
    increasing (for every configuration, in particular when
    [overlap < chunk_size] and when the length of the text is a multiple
    of [chunk_size]). *)
Theorem tokenize_text_terminates (t : str) (chunk_size overlap : Z) :
  (forall start end_, start < next_start overlap start end_) /\
  (forall txt start chunk_index fuel,
      len txt - start <= Z.of_nat fuel ->
      exists chunks, forall fuel', (fuel <= fuel')%nat ->
        tokenize_loop fuel' txt chunk_size overlap start chunk_index
        = Some chunks) /\
  exists chunks,
    tokenize_text t chunk_size overlap = Some chunks /\
    StronglySorted (fun a b => start_pos a < start_pos b) chunks.
Proof.
  split; [intros; apply next_start_advances|]. split.
  - intros txt start idx fuel Hf.
    destruct (tokenize_loop_total txt chunk_size overlap fuel start idx Hf)
      as [chunks Hc].
    exists chunks. intros fuel' Hle.
    rewrite (tokenize_loop_fuel txt chunk_size overlap fuel fuel') by assumption.
    exact Hc.
  - destruct (tokenize_text_total t chunk_size overlap) as (chunks & H & [->|Hl]).
    + exists []. split; [exact H | constructor].
    + exists chunks. split; [exact H|].
      apply tokenize_loop_chunks in Hl. destruct Hl as (_ & HS & _).
      clear H. induction HS as [|c l HS IH HF]; constructor; [exact IH|].
      eapply List.Forall_impl; [|exact HF]. intros b Hb. apply Hb.
Qed.

Lemma tokenize_text_terminates_witness :
  exists chunks,
    tokenize_loop 12 (utf8 "abcdefghijkl") 4 4 0 0 = Some chunks /\
    tokenize_loop 40 (utf8 "abcdefghijkl") 4 4 0 0 = Some chunks.
Proof.
  destruct (proj1 (proj2 (tokenize_text_terminates [] 4 4))
              (utf8 "abcdefghijkl") 0 0 12%nat ltac:(vm_compute; discriminate))
    as [chunks Hc].
  exists chunks. split; apply Hc; lia.
Defined.

(** C4 (amended).  For every text and every configuration
    [tokenize_text] returns chunks whose [start_pos] lies in the
    normalized text ([0 <= start_pos < len(normalizedText)]), whose index
    is strictly increasing (it is the position in the list), and whose
    [text] is the non-empty [normalizedText[start_pos:end_pos].strip()].
    When [chunk_size >= 1], moreover
    [start_pos < end_pos <= start_pos + chunk_size], and [end_pos] is at
    most [len(normalizedText)] except for a chunk whose window reaches
    the end of the text, where it is the unclipped
    [start_pos + chunk_size]. *)
Theorem tokenize_text_chunk_bounds (t : str) (chunk_size overlap : Z) :
  exists chunks,
    tokenize_text t chunk_size overlap = Some chunks /\
    Forall (fun c =>
              0 <= start_pos c < len (normalize t) /\
              text c = strip (slice (normalize t) (start_pos c) (end_pos c)) /\
              text c <> []) chunks /\
    StronglySorted (fun a b => index a < index b) chunks /\
    (forall i c, nth_error chunks i = Some c -> index c = Z.of_nat i) /\
    (1 <= chunk_size ->
     Forall (fun c =>
               start_pos c < end_pos c /\
               end_pos c <= start_pos c + chunk_size /\
               (end_pos c <= len (normalize t) \/
                end_pos c = start_pos c + chunk_size)) chunks).
Proof.
  destruct (tokenize_text_total t chunk_size overlap) as (chunks & H & [->|Hl]).
  - exists []. split; [exact H|]. split; [constructor|]. split; [constructor|].
    split; [|constructor]. intros [|i] c Hc; discriminate.
  - exists chunks. split; [exact H|].
    apply tokenize_loop_chunks in Hl. destruct Hl as (HF & HS & HI).
    split; [|split; [|split]].
    + eapply List.Forall_impl; [|exact HF]. cbn beta.
      intros c (H0 & _ & He & Ht & Hn & _). auto.
    + clear H HF HI. induction HS as [|c l HS IH HF]; constructor; [exact IH|].
      eapply List.Forall_impl; [|exact HF]. intros b Hb. apply Hb.
    + intros i c Hc. rewrite (HI i c Hc). lia.
    + intros Hcs. eapply List.Forall_impl; [|exact HF]. cbn beta.
      intros c ((H0 & _) & _ & He & _).
      destruct (chunk_end_bounds (normalize t) chunk_size (start_pos c) Hcs H0)
        as [Hb1 Hb2].
      rewrite <- He in Hb1, Hb2. repeat split; auto; lia.
Qed.

Lemma tokenize_text_chunk_bounds_witness :
  exists chunks,
    tokenize_text (utf8 "Metodos. Se midieron  las muestras.") 16 4 = Some chunks /\
    length chunks = 7%nat /\
    Forall (fun c => start_pos c < end_pos c /\ end_pos c <= start_pos c + 16)
           chunks.
Proof.
  destruct (tokenize_text_chunk_bounds
              (utf8 "Metodos. Se midieron  las muestras.") 16 4)
    as (chunks & H & _ & _ & _ & HB).
  exists chunks. split; [exact H|]. split.
  - vm_compute in H. injection H as <-. reflexivity.
  - eapply List.Forall_impl; [|exact (HB ltac:(lia))]. cbn beta. tauto.
Defined.

(** C4 (counterexample).  With the default configuration the only chunk
    of a ten-character text has [end_pos = 512], beyond the length 10 of
    the normalized text; and with [chunk_size = -1] a chunk is emitted
    with [end_pos = -1 < start_pos = 0]. *)
Lemma tokenize_text_end_pos_counterexample :
  (exists c,
      tokenize_text (utf8 "abcdefghij") default_chunk_size default_overlap = Some [c] /\
      start_pos c = 0 /\ end_pos c = 512 /\
      len (normalize (utf8 "abcdefghij")) = 10 /\
      ~ (end_pos c <= len (normalize (utf8 "abcdefghij")))) /\
  (exists c,
      tokenize_text (utf8 "abcdefghijkl") (-1) 0 = Some [c] /\
      start_pos c = 0 /\ end_pos c = -1 /\
      ~ (start_pos c < end_pos c)).
Proof.
  split; eexists; (split; [vm_compute; reflexivity|]); cbn [start_pos end_pos].
  - split; [reflexivity|]. split; [reflexivity|]. split; [reflexivity|].
    vm_compute. intros H. apply H. reflexivity.
  - split; [reflexivity|]. split; [reflexivity|]. lia.
Qed.

(** C5 (amended).  For every text the Chunker accepts (at least ten
    characters after trimming), with [overlap = 0] and [chunk_size >= 1],
    the concatenation of the chunk texts in order equals the input once
    the whitespace characters are removed from both. *)
Theorem tokenize_text_concat_no_overlap (t : str) (chunk_size : Z) :
  1 <= chunk_size -> 10 <= len (strip t) ->
  exists chunks,
    tokenize_text t chunk_size 0 = Some chunks /\
    despace (concat (map text chunks)) = despace t.
Proof.
  intros Hcs Hlen. unfold tokenize_text.
  assert (Hg : (match t with [] => true | _ => false end
                || (len (strip t) <? 10)) = false).
  { apply orb_false_iff. split.
    - destruct t; [vm_compute in Hlen; exfalso; apply Hlen; reflexivity | reflexivity].
    - apply Z.ltb_ge. exact Hlen. }
  rewrite Hg.
  destruct (tokenize_loop_total (normalize t) chunk_size 0
              (length (normalize t)) 0 0) as [chunks Hc]; [unfold len; lia|].
  exists chunks. split; [exact Hc|].
  apply tokenize_loop_concat in Hc; [|lia|lia].
  rewrite Hc. simpl. apply despace_normalize.
Qed.

Lemma tokenize_text_concat_no_overlap_witness :
  exists chunks,
    tokenize_text (utf8 "Hello world. This is a test.") 20 0 = Some chunks /\
    despace (concat (map text chunks))
    = despace (utf8 "Hello world. This is a test.").
Proof.
  apply (tokenize_text_concat_no_overlap (utf8 "Hello world. This is a test.") 20).
  - lia.
  - vm_compute. discriminate.
Defined.

(** C5 (counterexample).  With the default configuration, 600 letters
    give two chunks whose texts have 650 characters together: the 50
    characters of the overlap are repeated, so the concatenation differs
    from the input under every treatment of whitespace.  And even
    without overlap the space at a chunk boundary is lost, so the
    concatenation is not the whitespace-normalized input. *)
Lemma tokenize_text_concat_counterexample :
  (exists chunks,
      tokenize_text six_hundred_a default_chunk_size default_overlap = Some chunks /\
      len (concat (map text chunks)) = 650 /\
      despace (concat (map text chunks)) <> despace six_hundred_a /\
      normalize (concat (map text chunks)) <> normalize six_hundred_a) /\
  (exists chunks,
      tokenize_text (utf8 "Hello world. This is a test.") 20 0 = Some chunks /\
      concat (map text chunks) = utf8 "Hello world.This is a test." /\
      normalize (concat (map text chunks))
      <> normalize (utf8 "Hello world. This is a test.")).
Proof.
  split; eexists; (split; [vm_compute; reflexivity|]).
  - split; [vm_compute; reflexivity|].
    split; intros H; apply (f_equal (@length Z)) in H; vm_compute in H; discriminate.
  - split; [vm_compute; reflexivity|].
    intros H; apply (f_equal (@length Z)) in H; vm_compute in H; discriminate.
Qed.

End ChunkerClaims.

Section PyFacts.
Import PyStr Py.

Lemma str_eqb_eq (a b : str) : str_eqb a b = true <-> a = b.
Proof. unfold str_eqb. apply bool_decide_eq_true. Qed.


Lemma py_eqb_refl (a : pyval) : py_eqb a a = true.
Proof.
  induction a as [| n | s | l IH] using pyval_nested_ind; simpl; auto.
  - apply Z.eqb_refl.
  - apply str_eqb_eq. reflexivity.
  - induction IH as [|x l Hx _ IHl]; auto. rewrite Hx, IHl. reflexivity.
Qed.


Lemma and_also_ok a b :
  (exists x, a = Ok x) -> (exists y, b = Ok y) -> exists z, and_also a b = Ok z.
Proof. intros [[|] ->] [y ->]; simpl; eauto. Qed.

(** ** The result loop *)

Section Collect.
Context {C H : Type} (judge : C -> verdict H).

Lemma collect_skip k c : judge c = Skip -> forall l1 l2 results,
  collect judge k (l1 ++ c :: l2) results = collect judge k (l1 ++ l2) results.
Proof.
  intros Hc. induction l1 as [|x l1 IH]; intros l2 results; simpl.
  - rewrite Hc. reflexivity.
  - destruct (judge x); auto. destruct (_ >=? _); auto.
Qed.

Lemma collect_filter k (keep : C -> bool) :
  (forall c, keep c = false -> judge c = Skip) -> forall cands results,
  collect judge k (List.filter keep cands) results = collect judge k cands results.
Proof.
  intros Hk. induction cands as [|x l IH]; intros results; simpl; auto.
  destruct (keep x) eqn:E; simpl.
  - destruct (judge x); auto. destruct (_ >=? _); auto.
  - rewrite (Hk x E). apply IH.
Qed.

Lemma collect_first_k k : forall cands results hits,
  len results < k ->
  collect judge k cands results = Ok hits ->
  hits = results ++ firstn (Z.to_nat k - length results) (survivors judge cands).
Proof.
  induction cands as [|x l IH]; intros results hits Hlt; simpl.
  - intros [= <-]. rewrite firstn_nil, app_nil_r. reflexivity.
  - unfold kept. destruct (judge x) as [|h|e] eqn:E; try discriminate.
    + apply IH, Hlt.
    + assert (Hl : len (results ++ [h]) = len results + 1)
        by (rewrite len_app; reflexivity).
      unfold len in *.
      replace (Z.to_nat k - length results)%nat
        with (S (Z.to_nat k - length results - 1)) by lia.
      cbn [firstn].
      destruct (Z.of_nat (length (results ++ [h])) >=? k) eqn:Ek.
      * intros [= <-]. replace (Z.to_nat k - length results - 1)%nat with O by lia.
        reflexivity.
      * intros Hc. apply IH in Hc; [|lia]. rewrite Hc, <- app_assoc.
        rewrite length_app. simpl. do 3 f_equal. lia.
Qed.

Lemma collect_total k : forall cands results,
  Forall (fun c => forall e, judge c <> Fail e) cands ->
  exists hits, collect judge k cands results = Ok hits.
Proof.
  induction cands as [|x l IH]; intros results HF; simpl; [eauto|].
  inversion HF as [|? ? Hx Hl]; subst.
  destruct (judge x) as [|h|e] eqn:E; [auto| |exfalso; eapply Hx; reflexivity].
  destruct (_ >=? _); eauto.
Qed.

Lemma collect_stop k l2 : forall l1 results hits,
  len results < k ->
  collect judge k l1 results = Ok hits -> k <= len hits ->
  collect judge k (l1 ++ l2) results = Ok hits.
Proof.
  induction l1 as [|x l IH]; intros results hits Hlt; simpl.
  - intros [= <-]. lia.
  - destruct (judge x) as [|h|e]; try discriminate; [apply IH, Hlt|].
    destruct (len (results ++ [h]) >=? k) eqn:Ek; [auto|].
    apply IH. lia.
Qed.

Lemma collect_ranks k : forall cands results hits,
  collect judge k cands results = Ok hits ->
  exists new ranks, hits = results ++ new /\ from_ranks judge cands ranks new.
Proof.
  assert (Hshift : forall x l ranks new, from_ranks judge l ranks new ->
             from_ranks judge (x :: l) (map S ranks) new).
  { intros x l ranks new [HS HF]. split.
    - clear HF. induction HS as [|r rs HS IH HA]; simpl; constructor; auto.
      rewrite Forall_map. eapply List.Forall_impl; [|exact HA].
      cbn beta. intros; simpl; lia.
    - clear HS. induction HF; simpl; constructor; auto. }
  induction cands as [|x l IH]; intros results hits; simpl.
  - intros [= <-]. exists [], []. rewrite app_nil_r.
    repeat split; constructor.
  - destruct (judge x) as [|h|e] eqn:E; try discriminate.
    + intros Hc. apply IH in Hc. destruct Hc as (new & ranks & -> & HR).
      exists new, (map S ranks). split; [reflexivity | apply Hshift, HR].
    + assert (H0 : forall ranks new, from_ranks judge l ranks new ->
                from_ranks judge (x :: l) (O :: map S ranks) (h :: new)).
      { intros ranks new HR. destruct (Hshift x l ranks new HR) as [HS HF].
        split.
        - constructor; [exact HS|]. rewrite Forall_map.
          apply Forall_forall. intros; simpl; lia.
        - constructor; [|exact HF]. exists x. auto. }
      destruct (_ >=? _).
      * intros [= <-]. exists [h], [O]. split; [reflexivity|].
        apply (H0 [] []). split; constructor.
      * intros Hc. apply IH in Hc. destruct Hc as (new & ranks & -> & HR).
        exists (h :: new), (O :: map S ranks). rewrite <- app_assoc.
        split; [reflexivity | apply H0, HR].
Qed.

End Collect.

Lemma nth_error_enumerate_from {A} (l : list A) : forall a r c,
  nth_error (combine (seq a (length l)) l) r = Some c ->
  fst c = (a + r)%nat /\ nth_error l r = Some (snd c).
Proof.
  induction l as [|x l IH]; intros a r c; simpl.
  - destruct r; discriminate.
  - destruct r as [|r]; simpl.
    + intros [= <-]. simpl. split; [lia | reflexivity].
    + intros Hc. apply IH in Hc. destruct Hc as [H1 H2]. split; [lia | exact H2].
Qed.

Lemma nth_error_enumerate {A} (l : list A) r c :
  nth_error (enumerate l) r = Some c -> c = (r, snd c) /\ nth_error l r = Some (snd c).
Proof.
  intros Hc. apply nth_error_enumerate_from in Hc. destruct Hc as [H1 H2].
  split; [|exact H2]. destruct c as [r' x]. simpl in *. subst. reflexivity.
Qed.

Lemma strongly_sorted_nth {A} (R : A -> A -> Prop) (l : list A) :
  StronglySorted R l -> forall i j x y, (i < j)%nat ->
  nth_error l i = Some x -> nth_error l j = Some y -> R x y.
Proof.
  induction 1 as [|a l HS IH HA]; intros i j x y Hij Hi Hj.
  - destruct i; discriminate.
  - destruct j as [|j]; [lia|]. simpl in Hj. destruct i as [|i]; simpl in Hi.
    + injection Hi as <-. rewrite List.Forall_forall in HA. apply HA.
      eapply nth_error_In, Hj.
    + eapply IH; [|exact Hi|exact Hj]. lia.
Qed.

Lemma sorted_at_ranks {A} (R : A -> A -> Prop) (D : list A) :
  StronglySorted R D -> forall ranks scores,
  StronglySorted lt ranks ->
  Forall2 (fun r s => nth_error D r = Some s) ranks scores ->
  StronglySorted R scores.
Proof.
  intros HD ranks scores HS HF. induction HF as [|r s ranks scores Hr HF IH].
  - constructor.
  - inversion HS as [|? ? HS' HA]; subst. constructor; [apply IH, HS'|].
    clear IH HS HS'. induction HF as [|r2 s2 ranks scores Hr2 HF IH2].
    + constructor.
    + inversion HA; subst. constructor; [|apply IH2; assumption].
      eapply (strongly_sorted_nth R D HD r r2); eauto.
Qed.

End PyFacts.

Lemma collect_first_k_in_order {C H : Type} (judge : C -> Py.verdict H) k cands hits :
  1 <= k -> Py.collect judge k cands [] = Py.Ok hits ->
  first_k_in_order judge k cands hits.
Proof.
  intros Hk Hc. pose proof (collect_first_k judge k cands [] hits) as H1.
  simpl in H1. rewrite Nat.sub_0_r in H1. specialize (H1 ltac:(unfold PyStr.len; simpl; lia) Hc).
  split; [exact H1|]. split; [|split; [|split]].
  - rewrite H1. unfold PyStr.len. rewrite length_firstn. lia.
  - destruct (collect_ranks judge k cands [] hits Hc) as (new & ranks & -> & HR).
    exists ranks. exact HR.
  - intros Hlt. rewrite H1. apply firstn_all2. unfold PyStr.len in Hlt. lia.
  - intros more Hge. apply collect_stop; auto. unfold PyStr.len; simpl; lia.
Qed.

Section SQLiteFacts.
Import PyStr Py SearchSQLite.
Context {dist qvec : Type}.
Implicit Types (self : FaissSemanticSearchSQLite dist qvec) (chunk : row).

Lemma judge_unresolved self D sections filters rank idx :
  unresolved self idx -> judge self D sections filters (rank, idx) = Skip.
Proof.
  unfold judge. intros [H|H].
  - rewrite H. reflexivity.
  - destruct (out_of_range self idx); [reflexivity|]. rewrite H. reflexivity.
Qed.

Lemma judge_not_resolvable self D sections filters c :
  resolvable self c = false -> judge self D sections filters c = Skip.
Proof.
  destruct c as [rank idx]. unfold resolvable. simpl. intros H.
  apply judge_unresolved. unfold unresolved.
  destruct (out_of_range self idx); [auto|]. simpl in H.
  destruct (get_chunk_with_metadata _ _); [discriminate | auto].
Qed.

Lemma judge_keep self D sections filters rank idx h :
  judge self D sections filters (rank, idx) = Keep h ->
  exists chunk,
    out_of_range self idx = false /\
    get_chunk_with_metadata self (nth (Z.to_nat idx) (chunk_ids self) PNone)
    = Some chunk /\
    section_rejects sections chunk = false /\
    filters_pass filters chunk = Ok true /\
    nth_error D rank = Some (hit_score h) /\
    h = make_hit chunk (hit_score h).
Proof.
  unfold judge. destruct (out_of_range self idx) eqn:E1; [discriminate|].
  destruct (get_chunk_with_metadata _ _) as [chunk|] eqn:E2; [|discriminate].
  destruct (section_rejects sections chunk) eqn:E3; [discriminate|].
  destruct (filters_pass filters chunk) as [[|]|] eqn:E4; try discriminate.
  destruct (nth_error D rank) as [d|] eqn:E5; [|discriminate].
  intros [= <-]. exists chunk. repeat split; assumption || reflexivity.
Qed.

(** ** The filter predicates *)




Lemma substring_check_ok f key field :
  str_if_given f key = true -> is_str field = true ->
  exists b, substring_check f key field = Ok b.
Proof.
  unfold str_if_given, substring_check. destruct (f !! key) as [v|]; [|eauto].
  destruct v; try discriminate. destruct field; try discriminate.
  cbn. eauto.
Qed.

Lemma any_name_ok names field :
  forallb is_str names = true -> is_str field = true ->
  exists b, any_name names field = Ok b.
Proof.
  destruct field as [| |s|]; try discriminate. intros Hn _.
  induction names as [|name names IH]; cbn [any_name]; [eauto|].
  cbn in Hn. apply andb_true_iff in Hn. destruct Hn as [H1 H2].
  destruct name as [| |n|]; try discriminate. cbn.
  destruct (contains _ _); eauto.
Qed.

Lemma filters_pass_ok filters chunk :
  filters_typed filters = true -> row_typed chunk = true ->
  exists b, filters_pass filters chunk = Ok b.
Proof.
  unfold filters_typed, filters_pass, row_typed.
  destruct filters as [f|]; [|eauto]. intros Hf Hr.
  destruct (bool_decide (f = ∅)); [eauto|].
  repeat (apply andb_true_iff in Hf; destruct Hf as [Hf ?]).
  repeat (apply andb_true_iff in Hr; destruct Hr as [Hr ?]).
  repeat (apply and_also_ok); try (apply substring_check_ok; assumption).
  - unfold student_id_check. destruct (f !! "student_id"%string); eauto.
  - unfold author_check. destruct (f !! "author"%string) as [v|]; [|eauto].
    destruct v as [| |s|l]; try discriminate; cbn.
    + apply any_name_ok; [|assumption]. clear.
      induction (split SEMICOLON s); simpl; auto.
    + apply any_name_ok; assumption.
  - unfold year_check. destruct (f !! "year"%string) as [v|]; [|eauto].
    destruct (published_date chunk) as [| |s|]; try discriminate; cbn; eauto.
    destruct s; eauto.
Qed.

Lemma judge_no_fail self D sections filters (I' : list Z) :
  length D = length I' -> store_typed self -> filters_typed filters = true ->
  Forall (fun c => forall e, judge self D sections filters c <> Fail e)
         (enumerate I').
Proof.
  intros HD Hs Hf. apply List.Forall_forall. intros [rank idx] Hin e.
  apply In_nth_error in Hin. destruct Hin as [r Hr].
  apply nth_error_enumerate in Hr. destruct Hr as [Hc Hr]. simpl in *.
  injection Hc as Hrank. subst r.
  assert (Hlt : (rank < length D)%nat).
  { rewrite HD. apply nth_error_Some. congruence. }
  unfold judge. destruct (out_of_range self idx); [discriminate|].
  destruct (get_chunk_with_metadata _ _) as [chunk|] eqn:Eg; [|discriminate].
  destruct (section_rejects sections chunk); [discriminate|].
  destruct (filters_pass_ok filters chunk Hf (Hs _ _ Eg)) as [b ->].
  destruct b; [|discriminate].
  destruct (nth_error D rank) eqn:En; [discriminate|].
  apply nth_error_None in En. lia.
Qed.

End SQLiteFacts.

Section JSONFacts.
Import PyStr Py SearchJSON.
Context {dist qvec : Type}.
Implicit Types (self : FaissSemanticSearch dist qvec).

Lemma json_judge_out_of_range self D sections rank idx :
  out_of_range self idx = true -> judge self D sections (rank, idx) = Skip.
Proof. unfold judge. intros ->. reflexivity. Qed.

Lemma json_judge_keep self D sections rank idx h :
  judge self D sections (rank, idx) = Keep h ->
  out_of_range self idx = false /\
  section_accepts sections (nth (Z.to_nat idx) (metadata self) ∅) = true /\
  nth_error D rank = Some (hit_score h) /\
  h = make_hit (nth (Z.to_nat idx) (metadata self) ∅) (hit_score h).
Proof.
  unfold judge. destruct (out_of_range self idx) eqn:E1; [discriminate|].
  destruct (section_accepts _ _) eqn:E2; [|discriminate].
  destruct (nth_error D rank) as [d|] eqn:E3; [|discriminate].
  intros [= <-]. repeat split; assumption || reflexivity.
Qed.

Lemma json_judge_no_fail self D sections (I' : list Z) :
  length D = length I' ->
  Forall (fun c => forall e, judge self D sections c <> Fail e) (enumerate I').
Proof.
  intros HD. apply List.Forall_forall. intros [rank idx] Hin e.
  apply In_nth_error in Hin. destruct Hin as [r Hr].
  apply nth_error_enumerate in Hr. destruct Hr as [Hc Hr]. simpl in *.
  injection Hc as Hrank. subst r.
  assert (Hlt : (rank < length D)%nat).
  { rewrite HD. apply nth_error_Some. congruence. }
  unfold judge. destruct (out_of_range self idx); [discriminate|].
  destruct (section_accepts _ _); [|discriminate].
  destruct (nth_error D rank) eqn:En; [discriminate|].
  apply nth_error_None in En. lia.
Qed.

End JSONFacts.

Section SearchClaims.
Import PyStr Py.

Lemma sample_store_typed : store_typed Sample.store.
Proof.
  intros cid chunk H. apply find_some in H. destruct H as [Hin _].
  repeat (destruct Hin as [<-|Hin]; [reflexivity|]). destruct Hin.
Qed.

(** C1.  For both searchers, every query, every [k >= 1] and every
    section filter and attribute filters: a list that [search] returns is
    the first [k] surviving candidates in the order of the index ([hits]
    is a prefix of the survivors listed in candidate order, at strictly
    increasing ranks), has at most [k] entries, is the whole list of
    survivors when fewer than [k] survive, and once [k] are gathered no
    later candidate is looked at (whatever follows in the candidate list
    leaves the result as it is).  The index is queried once.  No
    exception is raised when the distance and label arrays have the same
    shape, the store holds rows as the ingestion writes them and the
    filters are strings (or lists of strings for the author). *)
Theorem search_first_k_in_ann_order :
  (forall (dist qvec : Type)
          (self : SearchSQLite.FaissSemanticSearchSQLite dist qvec)
          query k sections filters D I',
      1 <= k ->
      SearchSQLite.index_search self (SearchSQLite.encode self query)
        (k * SearchSQLite.overfetch) = (D, I') ->
      (forall hits,
          SearchSQLite.search self query k sections filters = Ok hits ->
          first_k_in_order (SearchSQLite.judge self D sections filters) k
            (enumerate I') hits) /\
      (length D = length I' -> store_typed self ->
       filters_typed filters = true ->
       exists hits, SearchSQLite.search self query k sections filters = Ok hits))
  /\
  (forall (dist qvec : Type) (self : SearchJSON.FaissSemanticSearch dist qvec)
          query k sections D I',
      1 <= k ->
      SearchJSON.index_search self (SearchJSON.encode self query)
        (k * SearchJSON.overfetch) = (D, I') ->
      (forall hits,
          SearchJSON.search self query sections k = Ok hits ->
          first_k_in_order (SearchJSON.judge self D sections) k
            (enumerate I') hits) /\
      (length D = length I' ->
       exists hits, SearchJSON.search self query sections k = Ok hits)).
Proof.
  split.
  - intros dist qvec self query k sections filters D I' Hk Hi.
    unfold SearchSQLite.search. rewrite Hi. split.
    + intros hits Hc. apply collect_first_k_in_order; assumption.
    + intros HD Hs Hf. apply collect_total, judge_no_fail; assumption.
  - intros dist qvec self query k sections D I' Hk Hi.
    unfold SearchJSON.search. rewrite Hi. split.
    + intros hits Hc. apply collect_first_k_in_order; assumption.
    + intros HD. apply collect_total, json_judge_no_fail; assumption.
Qed.

Lemma search_first_k_in_ann_order_witness :
  (exists hits,
      SearchSQLite.search Sample.store [] 2 None deep_filter = Ok hits /\
      map SearchSQLite.hit_chunk_id hits
      = [PStr (utf8 "001_chunk_0001"); PStr (utf8 "003_chunk_0001")] /\
      len hits <= 2) /\
  (exists hits,
      SearchJSON.search Sample.json_store [] (Some [PStr (utf8 "Abstract")]) 2
      = Ok hits /\
      map SearchJSON.hit_id hits = [PInt 1; PInt 3] /\ len hits <= 2).
Proof.
  destruct search_first_k_in_ann_order as [HS HJ]. split.
  - destruct (HS Q unit Sample.store [] 2 None deep_filter
                [1 # 10; 2 # 10; 3 # 10; 4 # 10; 5 # 10]%Q [0; 7; 1; 2; -1]
                ltac:(lia) eq_refl) as [H1 H2].
    destruct (H2 eq_refl sample_store_typed eq_refl) as [hits Hh].
    exists hits. split; [exact Hh|].
    destruct (H1 hits Hh) as (Hf & Hle & _).
    split; [|exact Hle]. rewrite Hf. vm_compute. reflexivity.
  - destruct (HJ Q unit Sample.json_store [] 2 (Some [PStr (utf8 "Abstract")])
                [1 # 10; 2 # 10; 3 # 10; 4 # 10; 5 # 10]%Q [0; 7; 1; 2; -1]
                ltac:(lia) eq_refl) as [H1 H2].
    destruct (H2 eq_refl) as [hits Hh].
    exists hits. split; [exact Hh|].
    destruct (H1 hits Hh) as (Hf & Hle & _).
    split; [|exact Hle]. rewrite Hf. vm_compute. reflexivity.
Defined.




(** C8.  For both searchers: a candidate whose identifier is out of range
    of the loaded list, or (SQLite) whose metadata lookup finds no row,
    is skipped without an exception, and the loop gives the same outcome
    as on the candidate list without it, from any state; hence [search]
    returns what the loop returns on the resolvable candidates alone. *)
Theorem search_skips_unresolved_hits :
  (forall (dist qvec : Type)
          (self : SearchSQLite.FaissSemanticSearchSQLite dist qvec)
          D k sections filters,
      (forall rank idx pre post results,
          unresolved self idx ->
          SearchSQLite.judge self D sections filters (rank, idx) = Skip /\
          collect (SearchSQLite.judge self D sections filters) k
            (pre ++ (rank, idx) :: post) results
          = collect (SearchSQLite.judge self D sections filters) k
              (pre ++ post) results) /\
      (forall query I',
          SearchSQLite.index_search self (SearchSQLite.encode self query)
            (k * SearchSQLite.overfetch) = (D, I') ->
          SearchSQLite.search self query k sections filters
          = collect (SearchSQLite.judge self D sections filters) k
              (List.filter (resolvable self) (enumerate I')) []))
  /\
  (forall (dist qvec : Type) (self : SearchJSON.FaissSemanticSearch dist qvec)
          D k sections,
      (forall rank idx pre post results,
          SearchJSON.out_of_range self idx = true ->
          SearchJSON.judge self D sections (rank, idx) = Skip /\
          collect (SearchJSON.judge self D sections) k
            (pre ++ (rank, idx) :: post) results
          = collect (SearchJSON.judge self D sections) k (pre ++ post) results) /\
      (forall query I',
          SearchJSON.index_search self (SearchJSON.encode self query)
            (k * SearchJSON.overfetch) = (D, I') ->
          SearchJSON.search self query sections k
          = collect (SearchJSON.judge self D sections) k
              (List.filter
                 (fun c => negb (SearchJSON.out_of_range self (snd c)))
                 (enumerate I')) [])).
Proof.
  split.
  - intros dist qvec self D k sections filters. split.
    + intros rank idx pre post results Hu.
      pose proof (judge_unresolved self D sections filters rank idx Hu) as Hj.
      split; [exact Hj | apply collect_skip, Hj].
    + intros query I' Hi. unfold SearchSQLite.search. rewrite Hi.
      symmetry. apply collect_filter. intros c. apply judge_not_resolvable.
  - intros dist qvec self D k sections. split.
    + intros rank idx pre post results Hu.
      pose proof (json_judge_out_of_range self D sections rank idx Hu) as Hj.
      split; [exact Hj | apply collect_skip, Hj].
    + intros query I' Hi. unfold SearchJSON.search. rewrite Hi.
      symmetry. apply collect_filter. intros [rank idx]. simpl. intros Ho.
      apply json_judge_out_of_range. destruct (SearchJSON.out_of_range _ _);
        [reflexivity | discriminate].
Qed.

Lemma search_skips_unresolved_hits_witness :
  SearchSQLite.search Sample.store [] 5 None None
  = collect (SearchSQLite.judge Sample.store
               [1 # 10; 2 # 10; 3 # 10; 4 # 10; 5 # 10]%Q None None) 5
      [(0%nat, 0); (2%nat, 1); (3%nat, 2)] [] /\
  SearchJSON.judge Sample.json_store [] None (1%nat, 7) = Skip.
Proof.
  destruct search_skips_unresolved_hits as [HS HJ]. split.
  - destruct (HS Q unit Sample.store
                [1 # 10; 2 # 10; 3 # 10; 4 # 10; 5 # 10]%Q 5 None None)
      as [_ H2].
    apply (H2 [] [0; 7; 1; 2; -1]). reflexivity.
  - destruct (HJ Q unit Sample.json_store [] 5 None) as [H1 _].
    apply (H1 1%nat 7 [] [] []). reflexivity.
Defined.

(** Scores of results read off the distance array at increasing ranks. *)
Lemma scores_at_ranks {C H A : Type} (judge : nat * C -> verdict H)
    (score : H -> A) (D : list A) (k : Z) (I' : list C) (hits : list H) :
  (forall r idx h, judge (r, idx) = Keep h -> nth_error D r = Some (score h)) ->
  collect judge k (enumerate I') [] = Ok hits ->
  (exists ranks,
      StronglySorted lt ranks /\
      Forall2 (fun r h => nth_error D r = Some (score h) /\
                          exists idx, nth_error I' r = Some idx /\
                                      judge (r, idx) = Keep h) ranks hits) /\
  (forall le : A -> A -> Prop,
      Transitive le -> Sorted le D -> Sorted le (map score hits)).
Proof.
  intros Hj Hc. apply collect_ranks in Hc.
  destruct Hc as (new & ranks & -> & HS & HF). simpl.
  assert (HF' : Forall2 (fun r h => nth_error D r = Some (score h) /\
                          exists idx, nth_error I' r = Some idx /\
                                      judge (r, idx) = Keep h) ranks new).
  { clear HS. induction HF as [|r h ranks new (c & Hn & Hk) _ IH];
      constructor; [|exact IH].
    apply nth_error_enumerate in Hn. destruct Hn as [Hc Hn].
    rewrite Hc in Hk. split; [eapply Hj, Hk|]. exists (snd c). auto. }
  split; [exists ranks; auto|].
  intros le Htr Hsorted. apply StronglySorted_Sorted.
  apply (sorted_at_ranks le D (Sorted_StronglySorted Htr Hsorted) ranks); auto.
  clear HS HF. induction HF' as [|r h ranks new [Hd _] _ IH]; simpl;
    constructor; auto.
Qed.

(** C10.  For both searchers: the hits that [search] returns come from
    candidates at strictly increasing ranks, the score of each hit is the
    distance [D[rank]] at the rank of its candidate, and therefore, when
    the index returns its distances in ascending order (for any
    transitive order), the scores of the returned list are ascending. *)
Theorem search_scores_follow_ann_distances :
  (forall (dist qvec : Type)
          (self : SearchSQLite.FaissSemanticSearchSQLite dist qvec)
          query k sections filters D I' hits,
      SearchSQLite.index_search self (SearchSQLite.encode self query)
        (k * SearchSQLite.overfetch) = (D, I') ->
      SearchSQLite.search self query k sections filters = Ok hits ->
      (exists ranks,
          StronglySorted lt ranks /\
          Forall2 (fun r h =>
                     nth_error D r = Some (SearchSQLite.hit_score h) /\
                     exists idx, nth_error I' r = Some idx /\
                       SearchSQLite.judge self D sections filters (r, idx)
                       = Keep h) ranks hits) /\
      (forall le : dist -> dist -> Prop,
          Transitive le -> Sorted le D ->
          Sorted le (map SearchSQLite.hit_score hits)))
  /\
  (forall (dist qvec : Type) (self : SearchJSON.FaissSemanticSearch dist qvec)
          query k sections D I' hits,
      SearchJSON.index_search self (SearchJSON.encode self query)
        (k * SearchJSON.overfetch) = (D, I') ->
      SearchJSON.search self query sections k = Ok hits ->
      (exists ranks,
          StronglySorted lt ranks /\
          Forall2 (fun r h =>
                     nth_error D r = Some (SearchJSON.hit_score h) /\
                     exists idx, nth_error I' r = Some idx /\
                       SearchJSON.judge self D sections (r, idx) = Keep h)
                  ranks hits) /\
      (forall le : dist -> dist -> Prop,
          Transitive le -> Sorted le D ->
          Sorted le (map SearchJSON.hit_score hits))).
Proof.
  split.
  - intros dist qvec self query k sections filters D I' hits Hi.
    unfold SearchSQLite.search. rewrite Hi. apply scores_at_ranks.
    intros r idx h Hk. apply judge_keep in Hk.
    destruct Hk as (chunk & _ & _ & _ & _ & Hd & _). exact Hd.
  - intros dist qvec self query k sections D I' hits Hi.
    unfold SearchJSON.search. rewrite Hi. apply scores_at_ranks.
    intros r idx h Hk. apply json_judge_keep in Hk.
    destruct Hk as (_ & _ & Hd & _). exact Hd.
Qed.

Lemma sample_distances_sorted :
  Sorted Qle [1 # 10; 2 # 10; 3 # 10; 4 # 10; 5 # 10]%Q.
Proof. repeat constructor; unfold Qle; simpl; lia. Qed.

Lemma search_scores_follow_ann_distances_witness :
  (exists hits,
      SearchSQLite.search Sample.store [] 2 None deep_filter = Ok hits /\
      map SearchSQLite.hit_score hits = [1 # 10; 4 # 10]%Q /\
      Sorted Qle (map SearchSQLite.hit_score hits)) /\
  (exists hits,
      SearchJSON.search Sample.json_store [] (Some [PStr (utf8 "Abstract")]) 2
      = Ok hits /\
      Sorted Qle (map SearchJSON.hit_score hits)).
Proof.
  destruct search_scores_follow_ann_distances as [HS HJ]. split.
  - eexists. split; [vm_compute; reflexivity|]. split; [reflexivity|].
    refine (proj2 (HS Q unit Sample.store [] 2 None deep_filter _ _ _ eq_refl
                      eq_refl) Qle _ sample_distances_sorted).
    intros x y z. apply Qle_trans.
  - eexists. split; [vm_compute; reflexivity|].
    refine (proj2 (HJ Q unit Sample.json_store [] 2
                      (Some [PStr (utf8 "Abstract")]) _ _ _ eq_refl eq_refl)
                  Qle _ sample_distances_sorted).
    intros x y z. apply Qle_trans.
Defined.

End SearchClaims.

Section ClassifierClaims.
Import PyStr Classifier.


Lemma score_gt_true x y : score_gt x y = true -> (y < x)%Q.
Proof.
  unfold score_gt. intros H. apply negb_true_iff in H.
  apply Qnot_le_lt. intros Hle. apply Qle_bool_iff in Hle. congruence.
Qed.








End ClassifierClaims.

Section IngestClaims.
Import PyStr Py Ingest.

Variable calculate_file_hash : thesis_data -> str.

Lemma insert_document_existing d thesis r :
  List.find (fun r => str_eqb (file_hash r) (calculate_file_hash thesis))
            (documents d) = Some r ->
  insert_document calculate_file_hash d thesis = (Ok (doc_id r), d).
Proof. unfold insert_document. intros ->. reflexivity. Qed.

Lemma insert_chunks_length document_id section_id thesis sec : forall chunks rows,
  length (insert_chunks document_id section_id thesis sec chunks rows)
  = (length rows + length chunks)%nat.
Proof.
  induction chunks as [|c chunks IH]; intros rows; simpl; [lia|].
  rewrite IH, length_app. simpl. lia.
Qed.

Lemma insert_sections_effect document_id thesis : forall secs d,
  documents (insert_sections document_id thesis secs d) = documents d /\
  length (sections_table (insert_sections document_id thesis secs d))
  = (length (sections_table d) + length secs)%nat /\
  length (text_chunks (insert_sections document_id thesis secs d))
  = (length (text_chunks d) + chunk_count secs)%nat.
Proof.
  induction secs as [|sec secs IH]; intros d; simpl.
  - unfold chunk_count. simpl. repeat split; lia.
  - destruct (IH {| documents := documents d;
         sections_table := sections_table d ++
           [{| sec_id := lastrowid (sections_table d);
               sec_document_id := document_id;
               section_title := title sec;
               section_category := category sec;
               sec_content := content sec;
               content_length := len (content sec);
               tokens_count := Chunker.estimate_tokens (content sec);
               sec_chunk_index := 0 |}];
         text_chunks :=
           insert_chunks document_id (lastrowid (sections_table d)) thesis sec
             (Chunker.tokenize_default (content sec)) (text_chunks d);
         bibliographic_references := bibliographic_references d |})
      as (H1 & H2 & H3).
    rewrite H1, H2, H3. cbn [documents sections_table text_chunks].
    rewrite insert_chunks_length, length_app. unfold chunk_count. simpl.
    repeat split; lia.
Qed.

(** Converting an analysis whose hash is already stored adds no document
    row, and adds the rows of all its sections and chunks once more. *)
Lemma convert_one_again st thesis r :
  status thesis = utf8 "success" ->
  List.find (fun r => str_eqb (file_hash r) (calculate_file_hash thesis))
            (documents (database st)) = Some r ->
  let st' := convert_one calculate_file_hash st thesis in
  documents (database st') = documents (database st) /\
  successful_conversions st' = successful_conversions st + 1 /\
  length (sections_table (database st'))
  = (length (sections_table (database st)) + length (sections thesis))%nat /\
  length (text_chunks (database st'))
  = (length (text_chunks (database st)) + chunk_count (sections thesis))%nat.
Proof.
  intros Hs Hf. unfold convert_one. rewrite Hs.
  replace (negb (str_eqb (utf8 "success") (utf8 "success"))) with false
    by reflexivity.
  rewrite (insert_document_existing _ _ _ Hf). cbn.
  unfold insert_sections_and_chunks.
  destruct (insert_sections_effect (doc_id r) thesis (sections thesis) (database st))
    as (H1 & H2 & H3).
  repeat split; assumption.
Qed.

End IngestClaims.

Section IngestEvaluation.
Import PyStr Py Ingest.

(** C3 (evaluation).  Converting the same analysis a second time: the
    second [insert_document] returns the stored id 1 and adds no row to
    [documents], but [convert_json_to_sql] goes on to insert the section
    and its chunk again: [text_chunks] then holds two rows with the same
    document, index and text. *)
Theorem reingestion_duplicates_chunks :
  map doc_id (documents (database ingested_once)) = [1] /\
  insert_document Sample.digest (database ingested_once) Sample.thesis
  = (Ok 1, database ingested_once) /\
  documents (database ingested_twice) = documents (database ingested_once) /\
  successful_conversions ingested_twice = 1 /\
  map (fun r => (tc_id r, tc_document_id r, chunk_index r))
      (text_chunks (database ingested_once)) = [(1, 1, 0)] /\
  map (fun r => (tc_id r, tc_document_id r, chunk_index r))
      (text_chunks (database ingested_twice)) = [(1, 1, 0); (2, 1, 0)] /\
  map chunk_text (text_chunks (database ingested_twice))
  = [utf8 "Las muestras se midieron por difraccion de rayos X.";
     utf8 "Las muestras se midieron por difraccion de rayos X."] /\
  map sec_id (sections_table (database ingested_twice)) = [1; 2].
Proof. vm_compute. repeat split; reflexivity. Qed.

End IngestEvaluation.

(* ===================================================================== *)
(** * Further properties of the code *)
(* ===================================================================== *)

Section ChunkerMore.
Import PyStr Chunker.

Lemma len_slice_le {A} (s : list A) a b :
  0 <= a -> a <= b -> len (slice s a b) <= b - a.
Proof.
  intros Ha Hab. unfold slice, from_end.
  destruct (a <? 0) eqn:Ea; [lia|]. destruct (b <? 0) eqn:Eb; [lia|].
  unfold len. rewrite length_firstn. lia.
Qed.

Lemma len_strip_le s : len (strip s) <= len s.
Proof.
  destruct (strip_infix s) as (pre & post & H & _).
  rewrite H at 2. rewrite !len_app.
  pose proof (len_nonneg pre). pose proof (len_nonneg post). lia.
Qed.

Lemma despace_nil_In s ch : despace s = [] -> In ch s -> isspace ch = true.
Proof.
  unfold despace. intros H Hin.
  destruct (isspace ch) eqn:E; [reflexivity|].
  assert (Hf : In ch (List.filter (fun c => negb (isspace c)) s)).
  { apply List.filter_In. rewrite E. auto. }
  rewrite H in Hf. destruct Hf.
Qed.

Lemma In_strip s ch : In ch s -> isspace ch = false -> In ch (strip s).
Proof.
  intros Hin Hc. destruct (strip_infix s) as (pre & post & H & Hp & Hq).
  rewrite H in Hin. apply in_app_or in Hin. destruct Hin as [Hin|Hin].
  - rewrite (despace_nil_In pre ch Hp Hin) in Hc. discriminate.
  - apply in_app_or in Hin. destruct Hin as [Hin|Hin]; [exact Hin|].
    rewrite (despace_nil_In post ch Hq Hin) in Hc. discriminate.
Qed.

Lemma In_slice {A} (s : list A) a b p x :
  0 <= a -> a <= Z.of_nat p -> Z.of_nat p < b ->
  nth_error s p = Some x -> In x (slice s a b).
Proof.
  intros Ha Hap Hpb Hn. unfold slice, from_end.
  destruct (a <? 0) eqn:Ea; [lia|]. destruct (b <? 0) eqn:Eb; [lia|].
  assert (Hlt : (p < length s)%nat) by (apply nth_error_Some; congruence).
  unfold len. rewrite (Z.min_l a) by lia.
  apply (nth_error_In _ (p - Z.to_nat a)).
  rewrite nth_error_firstn.
  destruct (Nat.ltb_spec (p - Z.to_nat a) (Z.to_nat (b `min` Z.of_nat (length s) - a)));
    [|lia].
  rewrite nth_error_skipn. rewrite <- Hn. f_equal. lia.
Qed.

Lemma strip_nonempty s ch : In ch s -> isspace ch = false -> strip s <> [].
Proof.
  intros Hin Hc H. pose proof (In_strip s ch Hin Hc) as Hi.
  rewrite H in Hi. destruct Hi.
Qed.

Lemma lstrip_id s : starts_ws s = false -> lstrip s = s.
Proof. destruct s as [|c s]; simpl; [reflexivity|]. intros ->. reflexivity. Qed.

Lemma strip_id s : starts_ws s = false -> ends_ws s = false -> strip s = s.
Proof.
  intros H1 H2. unfold strip, rstrip. rewrite (lstrip_id s H1).
  rewrite (lstrip_id (rev s) H2). apply rev_involutive.
Qed.

Lemma sub_ws_snoc c : isspace c = false -> forall s b,
  sub_ws b (s ++ [c]) = sub_ws b s ++ [c].
Proof.
  intros Hc. induction s as [|x s IH]; intros b; cbn [sub_ws app].
  - rewrite Hc. reflexivity.
  - destruct (isspace x); [destruct b|]; rewrite IH; reflexivity.
Qed.

Lemma ends_ws_snoc s c : ends_ws (s ++ [c]) = isspace c.
Proof. unfold ends_ws. rewrite rev_app_distr. reflexivity. Qed.

Lemma normalize_clean t :
  10 <= len (strip t) ->
  exists c r, normalize t = c :: r /\ isspace c = false /\
              starts_ws (normalize t) = false /\ ends_ws (normalize t) = false.
Proof.
  intros Hlen. unfold normalize, collapse_ws.
  pose proof (starts_ws_strip t) as Hs. pose proof (ends_ws_strip t) as He.
  destruct (strip t) as [|c r] eqn:E; [vm_compute in Hlen; exfalso; apply Hlen; reflexivity|].
  simpl in Hs. exists c, (sub_ws false r).
  split; [cbn [sub_ws]; rewrite Hs; reflexivity|].
  split; [exact Hs|].
  split; [cbn [sub_ws]; rewrite Hs; exact Hs|].
  destruct (exists_last (l := c :: r) ltac:(discriminate)) as (s' & z & Hz).
  rewrite Hz in He |- *. rewrite ends_ws_snoc in He.
  rewrite (sub_ws_snoc z He), ends_ws_snoc. exact He.
Qed.

(** X1.  With a chunk size of at least 1, [tokenize_text] returns and
    every chunk it returns has a text of at least 1 and at most
    [chunk_size] characters ([size] is the length of the stripped text). *)
Theorem tokenize_text_size_bound (t : str) (chunk_size overlap : Z) :
  1 <= chunk_size ->
  exists chunks,
    tokenize_text t chunk_size overlap = Some chunks /\
    Forall (fun c => 1 <= size c <= chunk_size) chunks.
Proof.
  intros Hcs.
  destruct (tokenize_text_total t chunk_size overlap) as (chunks & H & [->|Hl]).
  - exists []. split; [exact H | constructor].
  - exists chunks. split; [exact H|].
    apply tokenize_loop_chunks in Hl. destruct Hl as (HF & _).
    eapply List.Forall_impl; [|exact HF]. cbn beta.
    intros c ((H0 & _) & _ & He & Ht & Hn & Hs & _).
    destruct (chunk_end_bounds (normalize t) chunk_size (start_pos c) Hcs H0)
      as [Hb _]. rewrite <- He in Hb.
    rewrite Hs. split.
    + destruct (text c); [congruence|]. unfold len. simpl. lia.
    + rewrite Ht.
      pose proof (len_strip_le (slice (normalize t) (start_pos c) (end_pos c))).
      pose proof (len_slice_le (normalize t) (start_pos c) (end_pos c)
                    H0 ltac:(lia)). lia.
Qed.

Lemma tokenize_text_size_bound_witness :
  exists chunks,
    tokenize_text (utf8 "Metodos. Se midieron  las muestras.") 16 4 = Some chunks /\
    Forall (fun c => 1 <= size c <= 16) chunks.
Proof. apply tokenize_text_size_bound. lia. Defined.

(** X2.  With a chunk size of at least 1 and an overlap of at least 0,
    the overlap window stored with every chunk lies in the normalized
    text and holds the start of the chunk:
    [0 <= overlap_start <= start_pos < overlap_end <= len(text)]. *)
Theorem tokenize_text_overlap_window (t : str) (chunk_size overlap : Z) :
  1 <= chunk_size -> 0 <= overlap ->
  exists chunks,
    tokenize_text t chunk_size overlap = Some chunks /\
    Forall (fun c =>
              0 <= overlap_start c /\ overlap_start c <= start_pos c /\
              start_pos c < overlap_end c /\
              overlap_end c <= len (normalize t)) chunks.
Proof.
  intros Hcs Hov.
  destruct (tokenize_text_total t chunk_size overlap) as (chunks & H & [->|Hl]).
  - exists []. split; [exact H | constructor].
  - exists chunks. split; [exact H|].
    apply tokenize_loop_chunks in Hl. destruct Hl as (HF & _ & HI).
    eapply List.Forall_impl; [|exact HF]. cbn beta.
    intros c ((H0 & Hlt) & _ & He & _ & _ & _ & Hos & Hoe).
    destruct (chunk_end_bounds (normalize t) chunk_size (start_pos c) Hcs H0)
      as [Hb _]. rewrite <- He in Hb.
    rewrite Hos, Hoe. destruct (index c >? 0); lia.
Qed.

Lemma tokenize_text_overlap_window_witness :
  exists chunks,
    tokenize_text (utf8 "Metodos. Se midieron  las muestras.") 16 4 = Some chunks /\
    Forall (fun c =>
              0 <= overlap_start c /\ overlap_start c <= start_pos c /\
              start_pos c < overlap_end c /\
              overlap_end c
              <= len (normalize (utf8 "Metodos. Se midieron  las muestras.")))
           chunks.
Proof. apply tokenize_text_overlap_window; lia. Defined.

Lemma guard_false t :
  10 <= len (strip t) ->
  (match t with [] => true | _ => false end || (len (strip t) <? 10)) = false.
Proof.
  intros Hlen. apply orb_false_iff. split.
  - destruct t; [vm_compute in Hlen; exfalso; apply Hlen; reflexivity | reflexivity].
  - apply Z.ltb_ge. exact Hlen.
Qed.

Lemma guard_true t :
  len (strip t) < 10 ->
  (match t with [] => true | _ => false end || (len (strip t) <? 10)) = true.
Proof. intros H. apply orb_true_iff. right. apply Z.ltb_lt. exact H. Qed.

Lemma slice_from_0_head (c : Z) r e :
  1 <= e -> exists r', slice (c :: r) 0 e = c :: r'.
Proof.
  intros He. unfold slice, from_end.
  destruct (e <? 0) eqn:Ee; [lia|]. simpl (0 <? 0).
  cbv iota. unfold len. simpl length.
  rewrite (Z.min_l 0) by lia. simpl (Z.to_nat 0). cbn [skipn].
  destruct (Z.to_nat (e `min` Z.of_nat (S (length r)) - 0)) as [|k] eqn:Ek; [lia|].
  simpl. eauto.
Qed.

(** X3.  With a chunk size of at least 1, [tokenize_text] returns the
    empty list exactly when the input has fewer than 10 characters after
    [strip()]; otherwise the first chunk has [start_pos], [index] and
    [overlap_start] 0. *)
Theorem tokenize_text_empty_iff_short (t : str) (chunk_size overlap : Z) :
  1 <= chunk_size ->
  exists chunks,
    tokenize_text t chunk_size overlap = Some chunks /\
    (chunks = [] <-> len (strip t) < 10) /\
    (forall c rest, chunks = c :: rest ->
       start_pos c = 0 /\ index c = 0 /\ overlap_start c = 0).
Proof.
  intros Hcs. destruct (Z_lt_ge_dec (len (strip t)) 10) as [Hs|Hs].
  - exists []. unfold tokenize_text. rewrite (guard_true t Hs).
    split; [reflexivity|]. split; [tauto | discriminate].
  - assert (Hlen : 10 <= len (strip t)) by lia.
    destruct (normalize_clean t Hlen) as (c0 & r & Hn & Hc0 & _).
    unfold tokenize_text. rewrite (guard_false t Hlen). cbv zeta.
    rewrite Hn. simpl length. cbn [tokenize_loop].
    replace (0 <? len (c0 :: r)) with true
      by (symmetry; apply Z.ltb_lt; unfold len; simpl; lia).
    destruct (chunk_end_bounds (c0 :: r) chunk_size 0 Hcs ltac:(lia)) as [Hb _].
    destruct (slice_from_0_head c0 r (chunk_end (c0 :: r) chunk_size 0) ltac:(lia))
      as [r' Hr'].
    pose proof (strip_nonempty (slice (c0 :: r) 0 (chunk_end (c0 :: r) chunk_size 0))
                  c0 ltac:(rewrite Hr'; left; reflexivity) Hc0) as Hne.
    destruct (strip (slice (c0 :: r) 0 (chunk_end (c0 :: r) chunk_size 0)))
      as [|x xs] eqn:Es; [congruence|].
    destruct (tokenize_loop_total (c0 :: r) chunk_size overlap (length r)
                (next_start overlap 0 (chunk_end (c0 :: r) chunk_size 0)) (0 + 1))
      as [rest Hrest].
    { pose proof (next_start_advances overlap 0 (chunk_end (c0 :: r) chunk_size 0)).
      unfold len. simpl length. lia. }
    rewrite Hrest. simpl. eexists. split; [reflexivity|]. split.
    + split; [discriminate | lia].
    + intros c rest' [= <- _]. auto.
Qed.

Lemma tokenize_text_empty_iff_short_witness :
  exists chunks,
    tokenize_text (utf8 "Hola mundo") 512 50 = Some chunks /\ chunks <> [].
Proof.
  destruct (tokenize_text_empty_iff_short (utf8 "Hola mundo") 512 50 ltac:(lia))
    as (chunks & H & Hiff & _).
  exists chunks. split; [exact H|]. intros Hc. apply Hiff in Hc.
  vm_compute in Hc. discriminate.
Defined.

(** X4.  A text of at least 10 characters after [strip()] whose
    normalized form has at most [chunk_size] and at most
    [chunk_size - overlap] characters comes back as exactly one chunk: its
    text is the whole normalized text, and its [end_pos] is the unclipped
    [chunk_size]. *)
Theorem tokenize_text_single_chunk (t : str) (chunk_size overlap : Z) :
  10 <= len (strip t) ->
  len (normalize t) <= chunk_size ->
  len (normalize t) <= chunk_size - overlap ->
  exists c,
    tokenize_text t chunk_size overlap = Some [c] /\
    text c = normalize t /\ size c = len (normalize t) /\
    start_pos c = 0 /\ end_pos c = chunk_size /\ index c = 0.
Proof.
  intros Hlen Hcs Hov.
  destruct (normalize_clean t Hlen) as (c0 & r & Hn & Hc0 & Hs & He).
  unfold tokenize_text. rewrite (guard_false t Hlen). cbv zeta.
  remember (normalize t) as txt eqn:Heqtxt. clear Heqtxt.
  assert (Hpos : 1 <= len txt) by (rewrite Hn; unfold len; simpl; lia).
  assert (Hfuel : exists f, length txt = S f).
  { rewrite Hn. simpl. eauto. }
  destruct Hfuel as [f Hf]. rewrite Hf. cbn [tokenize_loop].
  replace (0 <? len txt) with true by (symmetry; apply Z.ltb_lt; lia).
  assert (Hend : chunk_end txt chunk_size 0 = chunk_size).
  { unfold chunk_end. cbv zeta. rewrite Z.add_0_l.
    destruct (chunk_size <? len txt) eqn:E;
      [apply Z.ltb_lt in E; lia | reflexivity]. }
  rewrite Hend.
  assert (Hslice : slice txt 0 chunk_size = txt).
  { unfold slice, from_end. destruct (chunk_size <? 0) eqn:E; [lia|].
    simpl (0 <? 0). cbv iota. rewrite (Z.min_l 0), (Z.min_r chunk_size) by lia.
    simpl (Z.to_nat 0). cbn [skipn]. apply firstn_all2. unfold len. lia. }
  rewrite Hslice, (strip_id txt Hs He).
  assert (Hdone : forall idx,
             tokenize_loop f txt chunk_size overlap
               (next_start overlap 0 chunk_size) idx = Some []).
  { intros idx. destruct f; cbn [tokenize_loop];
      replace (next_start overlap 0 chunk_size <? len txt) with false
        by (symmetry; apply Z.ltb_ge; unfold next_start; lia); reflexivity. }
  rewrite (Hdone (0 + 1)). clear Hdone Hslice Hend Hf. subst txt. simpl.
  eexists. split; [reflexivity|]. cbn. auto.
Qed.

Lemma tokenize_text_single_chunk_witness :
  exists c,
    tokenize_text (utf8 "  Hola   mundo cruel ") 512 50 = Some [c] /\
    text c = utf8 "Hola mundo cruel".
Proof.
  destruct (tokenize_text_single_chunk (utf8 "  Hola   mundo cruel ") 512 50)
    as (c & H & Ht & _).
  - vm_compute. discriminate.
  - vm_compute. discriminate.
  - vm_compute. discriminate.
  - exists c. split; [exact H|]. rewrite Ht. reflexivity.
Defined.

Lemma tokenize_loop_covers txt cs ov : 1 <= cs -> 0 <= ov ->
  forall fuel start idx chunks,
  0 <= start ->
  tokenize_loop fuel txt cs ov start idx = Some chunks ->
  forall p ch,
    start <= Z.of_nat p -> nth_error txt p = Some ch -> isspace ch = false ->
    Exists (fun c => start_pos c <= Z.of_nat p < end_pos c /\ In ch (text c))
           chunks.
Proof.
  intros Hcs Hov. induction fuel as [|fuel IH]; intros start idx chunks H0;
    cbn [tokenize_loop]; destruct (start <? len txt) eqn:E; try discriminate;
    try (intros [= <-] p ch Hp Hn _; apply Z.ltb_ge in E;
         assert (p < length txt)%nat by (apply nth_error_Some; congruence);
         unfold len in E; lia).
  apply Z.ltb_lt in E.
  destruct (chunk_end_bounds txt cs start Hcs H0) as [Hb _].
  set (e := chunk_end txt cs start) in *.
  assert (Hnext : start < next_start ov start e <= e) by (unfold next_start; lia).
  destruct (strip (slice txt start e)) as [|x xs] eqn:Es.
  - intros Hl p ch Hp Hn Hc.
    destruct (Z_lt_ge_dec (Z.of_nat p) e) as [Hlt|Hge].
    + exfalso. eapply (strip_nonempty (slice txt start e) ch); eauto.
      eapply In_slice; eauto.
    + eapply IH; [| exact Hl | | exact Hn | exact Hc]; lia.
  - destruct (tokenize_loop fuel txt cs ov _ (idx + 1)) as [rest|] eqn:Er;
      [|discriminate].
    simpl. intros [= <-] p ch Hp Hn Hc.
    destruct (Z_lt_ge_dec (Z.of_nat p) e) as [Hlt|Hge].
    + left. cbn [start_pos end_pos text]. split; [lia|]. rewrite <- Es. apply In_strip; [|exact Hc].
      eapply In_slice; eauto.
    + right. eapply IH; [| exact Er | | exact Hn | exact Hc]; lia.
Qed.

(** X5.  With a chunk size of at least 1 and an overlap of at least 0,
    no part of an accepted text is lost between chunks: every character
    of the normalized text that is not whitespace lies in the window
    [start_pos <= p < end_pos] of some chunk, and occurs in the text of
    that chunk. *)
Theorem tokenize_text_covers_text (t : str) (chunk_size overlap : Z) :
  1 <= chunk_size -> 0 <= overlap -> 10 <= len (strip t) ->
  exists chunks,
    tokenize_text t chunk_size overlap = Some chunks /\
    forall p ch,
      nth_error (normalize t) p = Some ch -> isspace ch = false ->
      Exists (fun c => start_pos c <= Z.of_nat p < end_pos c /\ In ch (text c))
             chunks.
Proof.
  intros Hcs Hov Hlen. unfold tokenize_text. rewrite (guard_false t Hlen).
  cbv zeta.
  destruct (tokenize_loop_total (normalize t) chunk_size overlap
              (length (normalize t)) 0 0) as [chunks Hc]; [unfold len; lia|].
  exists chunks. split; [exact Hc|].
  intros p ch Hn Hch.
  eapply (tokenize_loop_covers (normalize t) chunk_size overlap Hcs Hov
            _ 0 0 chunks); [lia | exact Hc | lia | exact Hn | exact Hch].
Qed.

Lemma tokenize_text_covers_text_witness :
  exists chunks,
    tokenize_text (utf8 "Metodos. Se midieron  las muestras.") 16 4 = Some chunks /\
    Exists (fun c => start_pos c <= 21 < end_pos c /\ In 108 (text c)) chunks.
Proof.
  destruct (tokenize_text_covers_text
              (utf8 "Metodos. Se midieron  las muestras.") 16 4)
    as (chunks & H & Hcov); [lia | lia | vm_compute; discriminate |].
  exists chunks. split; [exact H|].
  apply (Hcov 21%nat 108); reflexivity.
Defined.

Lemma tokenize_loop_overlap txt cs ov : forall fuel start idx chunks,
  tokenize_loop fuel txt cs ov start idx = Some chunks ->
  StronglySorted (fun a b => start_pos a < start_pos b /\
                             end_pos a - ov <= start_pos b) chunks.
Proof.
  induction fuel as [|fuel IH]; intros start idx chunks; cbn [tokenize_loop];
    destruct (start <? len txt) eqn:E; try discriminate;
    try (intros [= <-]; constructor).
  destruct (strip (slice txt start (chunk_end txt cs start))) as [|x xs] eqn:Es.
  - apply IH.
  - destruct (tokenize_loop fuel txt cs ov _ (idx + 1)) as [rest|] eqn:Er;
      [|discriminate].
    simpl. intros [= <-]. constructor; [eapply IH, Er|].
    apply tokenize_loop_chunks in Er. destruct Er as (HF & _).
    eapply List.Forall_impl; [|exact HF]. cbn.
    intros c ((Hc & _) & _). unfold next_start in Hc. lia.
Qed.

(** X6.  For every configuration the chunks come with strictly
    increasing [start_pos], and the window of a chunk reaches at most
    [overlap] characters past the start of any later chunk. *)
Theorem tokenize_text_overlap_bound (t : str) (chunk_size overlap : Z) :
  exists chunks,
    tokenize_text t chunk_size overlap = Some chunks /\
    StronglySorted (fun a b => start_pos a < start_pos b /\
                               end_pos a - start_pos b <= overlap) chunks.
Proof.
  destruct (tokenize_text_total t chunk_size overlap) as (chunks & H & [->|Hl]).
  - exists []. split; [exact H | apply SSorted_nil].
  - exists chunks. split; [exact H|].
    apply tokenize_loop_overlap in Hl. clear H.
    induction Hl as [|c l HS IH HF]; [apply SSorted_nil|].
    apply SSorted_cons; [exact IH|].
    eapply List.Forall_impl; [|exact HF]. cbn beta. intros b Hb. lia.
Qed.

End ChunkerMore.

Section ChunkerTail.
Import PyStr Chunker.

Lemma chunk_end_at_end txt cs start :
  len txt <= start + cs -> chunk_end txt cs start = start + cs.
Proof.
  intros H. unfold chunk_end. cbv zeta.
  destruct (start + cs <? len txt) eqn:E;
    [apply Z.ltb_lt in E; lia | reflexivity].
Qed.

Lemma slice_to_end {A} (s : list A) a b :
  0 <= a -> len s <= b -> slice s a b = skipn (Z.to_nat a) s.
Proof.
  intros Ha Hb. pose proof (len_nonneg s) as Hn. unfold slice, from_end.
  destruct (a <? 0) eqn:Ea; [lia|]. destruct (b <? 0) eqn:Eb; [lia|].
  cbv zeta. rewrite (Z.min_r b) by lia.
  destruct (Z_le_gt_dec a (len s)) as [Hle|Hgt].
  - rewrite (Z.min_l a) by lia. apply firstn_all2.
    rewrite length_skipn. unfold len. lia.
  - rewrite (Z.min_r a) by lia. rewrite Z.sub_diag. simpl.
    symmetry. apply skipn_all2. unfold len in Hgt. lia.
Qed.

Lemma normalize_two t : 10 <= len (strip t) -> 2 <= len (normalize t).
Proof.
  intros Hlen. unfold normalize, collapse_ws.
  pose proof (starts_ws_strip t) as Hs. pose proof (ends_ws_strip t) as He.
  destruct (strip t) as [|c r] eqn:E;
    [vm_compute in Hlen; exfalso; apply Hlen; reflexivity|].
  simpl in Hs. cbn [sub_ws]. rewrite Hs.
  destruct r as [|y r];
    [vm_compute in Hlen; exfalso; apply Hlen; reflexivity|].
  destruct (exists_last (l := y :: r) ltac:(discriminate)) as (s' & z & Hz).
  rewrite Hz in He |- *.
  change (c :: s' ++ [z]) with ((c :: s') ++ [z]) in He.
  rewrite ends_ws_snoc in He. rewrite (sub_ws_snoc z He).
  unfold len. simpl length. rewrite length_app. simpl. lia.
Qed.

(** X20.  A text that fits in one window ([len <= chunk_size]) but is
    longer than [chunk_size - overlap] is not returned as one chunk: the
    first chunk holds the whole normalized text, and a second chunk
    repeats its tail from position [max(1, chunk_size - overlap)]. *)
Theorem tokenize_text_repeats_tail (t : str) (chunk_size overlap : Z) :
  10 <= len (strip t) ->
  len (normalize t) <= chunk_size ->
  chunk_size - overlap < len (normalize t) ->
  exists c1 c2 rest,
    tokenize_text t chunk_size overlap = Some (c1 :: c2 :: rest) /\
    text c1 = normalize t /\
    start_pos c2 = Z.max 1 (chunk_size - overlap) /\
    text c2 = strip (skipn (Z.to_nat (start_pos c2)) (normalize t)).
Proof.
  intros Hlen Hcs Hov.
  destruct (normalize_clean t Hlen) as (c0 & r & Hn & Hc0 & Hs & He).
  pose proof (normalize_two t Hlen) as Hpos.
  unfold tokenize_text. rewrite (guard_false t Hlen). cbv zeta.
  remember (normalize t) as txt eqn:Heqtxt. clear Heqtxt.
  assert (Hlast : exists s' z, txt = s' ++ [z] /\ isspace z = false).
  { destruct (exists_last (l := txt) ltac:(rewrite Hn; discriminate))
      as (s' & z & Hz).
    exists s', z. split; [exact Hz|]. rewrite Hz, ends_ws_snoc in He. exact He. }
  destruct Hlast as (s' & z & Hz & Hzs).
  set (s2 := Z.max 1 (chunk_size - overlap)).
  assert (Hnext : next_start overlap 0 chunk_size = s2) by reflexivity.
  assert (Hs2 : 1 <= s2 < len txt) by (unfold s2; lia).
  assert (Hfuel : exists f, length txt = S (S f)).
  { unfold len in Hpos. destruct txt as [|a [|b txt']]; simpl in Hpos; try lia.
    simpl. eauto. }
  destruct Hfuel as [f Hf]. rewrite Hf. cbn [tokenize_loop].
  replace (0 <? len txt) with true by (symmetry; apply Z.ltb_lt; lia).
  rewrite (chunk_end_at_end txt chunk_size 0) by lia. rewrite Z.add_0_l.
  rewrite (slice_to_end txt 0 chunk_size) by lia.
  change (skipn (Z.to_nat 0) txt) with txt.
  rewrite (strip_id txt Hs He), Hnext.
  replace (s2 <? len txt) with true by (symmetry; apply Z.ltb_lt; lia).
  rewrite (chunk_end_at_end txt chunk_size s2) by lia.
  rewrite (slice_to_end txt s2 (s2 + chunk_size)) by lia.
  assert (Hne : strip (skipn (Z.to_nat s2) txt) <> []).
  { apply (strip_nonempty _ z); [|exact Hzs].
    rewrite Hz. rewrite skipn_app. apply in_or_app. right.
    replace (Z.to_nat s2 - length s')%nat with O.
    - left. reflexivity.
    - rewrite Hz in Hs2. unfold len in Hs2. rewrite length_app in Hs2.
      simpl in Hs2. lia. }
  destruct (tokenize_loop_total txt chunk_size overlap f
              (next_start overlap s2 (s2 + chunk_size)) (0 + 1 + 1))
    as [rest Hrest].
  { pose proof (next_start_advances overlap s2 (s2 + chunk_size)).
    unfold len. rewrite Hf. lia. }
  destruct (strip (skipn (Z.to_nat s2) txt)) as [|x xs] eqn:Es; [congruence|].
  clear Hf. destruct txt as [|a txt'] eqn:Et; [discriminate Hn|].
  rewrite Hrest. cbn [option_map].
  eexists _, _, rest. split; [reflexivity|].
  cbn [text start_pos]. rewrite Es. auto.
Qed.

Lemma tokenize_text_repeats_tail_witness :
  exists c1 c2 rest,
    tokenize_text (utf8 "Se midieron las muestras.") 30 10 =
    Some (c1 :: c2 :: rest) /\
    text c1 = utf8 "Se midieron las muestras." /\
    text c2 = utf8 "tras.".
Proof.
  destruct (tokenize_text_repeats_tail (utf8 "Se midieron las muestras.") 30 10)
    as (c1 & c2 & rest & H & H1 & H2 & H3).
  - vm_compute. discriminate.
  - vm_compute. discriminate.
  - vm_compute. reflexivity.
  - exists c1, c2, rest. split; [exact H|].
    split; [rewrite H1; vm_compute; reflexivity|].
    rewrite H3, H2. vm_compute. reflexivity.
Defined.

End ChunkerTail.

Section IngestMore.
Import PyStr Py Ingest.

Variable calculate_file_hash : thesis_data -> str.

Lemma find_snoc {A} (f : A -> bool) (l : list A) (x : A) :
  List.find f (l ++ [x])
  = match List.find f l with
    | Some y => Some y
    | None => if f x then Some x else None
    end.
Proof.
  induction l as [|a l IH]; simpl; [destruct (f x); reflexivity|].
  destruct (f a); [reflexivity | exact IH].
Qed.

Lemma str_eqb_refl (s : str) : str_eqb s s = true.
Proof. apply str_eqb_eq. reflexivity. Qed.

(** A second call of [insert_document] with the same analysis, and the
    row behind the id that a call returns. *)
Lemma insert_document_again (d : db) (thesis : thesis_data) :
  insert_document calculate_file_hash
    (snd (insert_document calculate_file_hash d thesis)) thesis
  = (fst (insert_document calculate_file_hash d thesis),
     snd (insert_document calculate_file_hash d thesis)) /\
  (forall document_id d',
      insert_document calculate_file_hash d thesis = (Ok document_id, d') ->
      exists r, In r (documents d') /\ doc_id r = document_id /\
                file_hash r = calculate_file_hash thesis).
Proof.
  unfold insert_document.
  destruct (List.find _ (documents d)) as [existing|] eqn:Ef.
  - cbn [fst snd]. rewrite Ef. split; [reflexivity|].
    intros document_id d' [= <- <-]. apply find_some in Ef.
    destruct Ef as [Hin Heq]. apply str_eqb_eq in Heq. eauto.
  - destruct (existsb _ (documents d)) eqn:Ee.
    + cbn [fst snd]. rewrite Ef, Ee. split; [reflexivity | discriminate].
    + cbn [fst snd documents]. rewrite find_snoc, Ef. cbn [file_hash].
      rewrite str_eqb_refl. split; [reflexivity|].
      intros document_id d' [= <- <-]. eexists. split.
      * cbn [documents]. apply in_or_app. right. left. reflexivity.
      * split; reflexivity.
Qed.

(** X7.  [insert_document] is idempotent: a second call with the same
    analysis has the outcome of the first (the same document id, or the
    same error) and changes the database no further; and the id that a
    call returns is the id of a stored document with the hash of the
    analysis. *)
Theorem insert_document_idempotent (d : db) (thesis : thesis_data) :
  insert_document calculate_file_hash
    (snd (insert_document calculate_file_hash d thesis)) thesis
  = (fst (insert_document calculate_file_hash d thesis),
     snd (insert_document calculate_file_hash d thesis)) /\
  (forall document_id d',
      insert_document calculate_file_hash d thesis = (Ok document_id, d') ->
      exists r, In r (documents d') /\ doc_id r = document_id /\
                file_hash r = calculate_file_hash thesis).
Proof. exact (insert_document_again d thesis). Qed.

Lemma ids_in_sequence_snoc ids :
  ids_in_sequence ids -> ids_in_sequence (ids ++ [len ids + 1]).
Proof.
  intros H i id Hn. destruct (Nat.lt_ge_cases i (length ids)) as [Hlt|Hge].
  - rewrite nth_error_app1 in Hn by exact Hlt. apply H, Hn.
  - rewrite nth_error_app2 in Hn by exact Hge.
    destruct (i - length ids)%nat as [|k] eqn:Ek; simpl in Hn.
    + injection Hn as <-. unfold len. lia.
    + destruct k; discriminate.
Qed.

Lemma ids_in_sequence_In ids id :
  ids_in_sequence ids -> In id ids -> 1 <= id <= len ids.
Proof.
  intros H Hin. apply In_nth_error in Hin. destruct Hin as [i Hi].
  assert (i < length ids)%nat by (apply nth_error_Some; congruence).
  rewrite (H i id Hi). unfold len. lia.
Qed.

Lemma existsb_false_not_In (l : list document_row) (name : str) :
  existsb (fun r => str_eqb (filename r) name) l = false ->
  ~ In name (map filename l).
Proof.
  intros He Hin. apply in_map_iff in Hin. destruct Hin as (r & Hr & Hin).
  assert (Ht : existsb (fun r => str_eqb (filename r) name) l = true).
  { apply existsb_exists. exists r. split; [exact Hin|].
    apply str_eqb_eq. exact Hr. }
  congruence.
Qed.

Lemma find_none_not_In (l : list document_row) (h : str) :
  List.find (fun r => str_eqb (file_hash r) h) l = None ->
  ~ In h (map file_hash l).
Proof.
  intros Hf Hin. apply in_map_iff in Hin. destruct Hin as (r & Hr & Hin).
  pose proof (find_none _ _ Hf r Hin) as Hn. cbn beta in Hn.
  rewrite Hr, str_eqb_refl in Hn. discriminate.
Qed.

Lemma NoDup_snoc {A} (l : list A) (x : A) :
  List.NoDup l -> ~ In x l -> List.NoDup (l ++ [x]).
Proof.
  induction l as [|a l IH]; simpl; intros Hl Hx.
  - apply List.NoDup_cons; [intros [] | apply List.NoDup_nil].
  - inversion Hl as [|? ? Ha Hl']; subst. apply List.NoDup_cons.
    + intros Hin. apply in_app_or in Hin. destruct Hin as [Hin|[<-|[]]].
      * exact (Ha Hin).
      * apply Hx. left. reflexivity.
    + apply IH; [exact Hl'|]. intros Hin. apply Hx. right. exact Hin.
Qed.

Lemma len_map {A B} (f : A -> B) (l : list A) : len (map f l) = len l.
Proof. unfold len. rewrite length_map. reflexivity. Qed.

Lemma insert_document_keys d thesis :
  keys_unique d ->
  keys_unique (snd (insert_document calculate_file_hash d thesis)).
Proof.
  intros (H1 & H2 & H3 & H4 & H5 & H6). unfold insert_document.
  destruct (List.find _ (documents d)) as [existing|] eqn:Ef;
    [repeat split; assumption|].
  destruct (existsb _ (documents d)) eqn:Ee; [repeat split; assumption|].
  cbn [snd]. unfold keys_unique.
  cbn [documents sections_table text_chunks bibliographic_references].
  rewrite !map_app. cbn [map file_hash filename doc_id].
  split; [|split; [|split; [|auto]]].
  - apply NoDup_snoc; [exact H1 | apply find_none_not_In, Ef].
  - apply NoDup_snoc; [exact H2 | apply existsb_false_not_In, Ee].
  - unfold lastrowid. rewrite <- (len_map doc_id).
    apply ids_in_sequence_snoc, H3.
Qed.

(** What [insert_chunks] appends. *)
Lemma insert_chunks_appends document_id section_id thesis sec :
  forall chunks rows, exists new,
    insert_chunks document_id section_id thesis sec chunks rows = rows ++ new /\
    length new = length chunks /\
    Forall (fun c => tc_document_id c = document_id /\
                     tc_section_id c = section_id) new /\
    (ids_in_sequence (map tc_id rows) ->
     ids_in_sequence (map tc_id (rows ++ new))).
Proof.
  induction chunks as [|c chunks IH]; intros rows; cbn [insert_chunks].
  - exists []. rewrite app_nil_r. repeat split; auto.
  - match goal with |- context [insert_chunks _ _ _ _ _ (rows ++ [?r])] =>
      destruct (IH (rows ++ [r])) as (new & -> & Hl & HF & Hs); exists (r :: new)
    end.
    rewrite <- app_assoc. cbn [app]. split; [reflexivity|]. split; [simpl; lia|].
    split; [constructor; [split; reflexivity | exact HF]|].
    intros Hids. rewrite <- app_assoc in Hs. apply Hs.
    rewrite map_app. cbn [map tc_id]. unfold lastrowid.
    rewrite <- (len_map tc_id). apply ids_in_sequence_snoc, Hids.
Qed.

Lemma In_map_app_l {A B} (f : A -> B) (l k : list A) x :
  In x (map f l) -> In x (map f (l ++ k)).
Proof. rewrite map_app. intros H. apply in_or_app. left. exact H. Qed.

Lemma insert_sections_keep document_id thesis : forall secs d,
  (keys_unique d -> keys_unique (insert_sections document_id thesis secs d)) /\
  (In document_id (map doc_id (documents d)) -> references_resolve d ->
   references_resolve (insert_sections document_id thesis secs d)) /\
  documents (insert_sections document_id thesis secs d) = documents d /\
  bibliographic_references (insert_sections document_id thesis secs d)
  = bibliographic_references d.
Proof.
  induction secs as [|sec secs IH]; intros d; cbn [insert_sections];
    [split; [auto|split; [auto|split; reflexivity]]|]. cbv zeta.
  lazymatch goal with |- context [insert_sections _ _ _ ?d1] =>
    destruct (IH d1) as (IHk & IHr & IHd & IHb); set (d' := d1) in *
  end.
  destruct (insert_chunks_appends document_id (lastrowid (sections_table d))
              thesis sec (Chunker.tokenize_default (content sec)) (text_chunks d))
    as (new & Hnew & _ & HF & Hs).
  split; [|split; [|split; [exact IHd | exact IHb]]].
  - intros (H1 & H2 & H3 & H4 & H5 & H6). apply IHk. unfold keys_unique, d'.
    cbn [documents sections_table text_chunks bibliographic_references].
    repeat split; auto.
    + rewrite map_app. cbn [map sec_id]. unfold lastrowid.
      rewrite <- (len_map sec_id). apply ids_in_sequence_snoc, H4.
    + rewrite Hnew. apply Hs, H5.
  - intros Hin (R1 & R2 & R3). apply IHr; [exact Hin|].
    unfold references_resolve, d'.
    cbn [documents sections_table text_chunks bibliographic_references].
    split; [|split; [|exact R3]].
    + apply Forall_app. split; [exact R1|]. constructor; [exact Hin | constructor].
    + rewrite Hnew. apply Forall_app. split.
      * eapply List.Forall_impl; [|exact R2]. cbn beta.
        intros c (Hc & s & Hs1 & Hs2 & Hs3). split; [exact Hc|].
        exists s. split; [apply in_or_app; left; exact Hs1 | auto].
      * eapply List.Forall_impl; [|exact HF]. cbn beta.
        intros c (Hc1 & Hc2). rewrite Hc1. split; [exact Hin|].
        eexists. split; [apply in_or_app; right; left; reflexivity|].
        cbn [sec_id sec_document_id]. rewrite Hc2. auto.
Qed.

Lemma insert_refs_appends document_id : forall refs i rows, exists new,
  insert_refs document_id refs i rows = rows ++ new /\
  Forall (fun r => rr_document_id r = document_id) new /\
  (ids_in_sequence (map rr_id rows) ->
   ids_in_sequence (map rr_id (rows ++ new))).
Proof.
  induction refs as [|ref refs IH]; intros i rows; cbn [insert_refs].
  - exists []. rewrite app_nil_r. repeat split; auto.
  - match goal with |- context [insert_refs _ _ _ (rows ++ [?r])] =>
      destruct (IH (i + 1) (rows ++ [r])) as (new & -> & HF & Hs);
        exists (r :: new)
    end.
    rewrite <- app_assoc. cbn [app]. split; [reflexivity|].
    split; [constructor; [reflexivity | exact HF]|].
    intros Hids. rewrite <- app_assoc in Hs. apply Hs.
    rewrite map_app. cbn [map rr_id]. unfold lastrowid.
    rewrite <- (len_map rr_id). apply ids_in_sequence_snoc, Hids.
Qed.

Lemma insert_references_keep document_id thesis d :
  (keys_unique d -> keys_unique (insert_references document_id thesis d)) /\
  (In document_id (map doc_id (documents d)) -> references_resolve d ->
   references_resolve (insert_references document_id thesis d)).
Proof.
  unfold insert_references.
  destruct (insert_refs_appends document_id (references thesis) 0
              (bibliographic_references d)) as (new & Hnew & HF & Hs).
  split.
  - intros (H1 & H2 & H3 & H4 & H5 & H6). unfold keys_unique.
    cbn [documents sections_table text_chunks bibliographic_references].
    repeat split; auto. rewrite Hnew. apply Hs, H6.
  - intros Hin (R1 & R2 & R3). unfold references_resolve.
    cbn [documents sections_table text_chunks bibliographic_references].
    repeat split; auto. rewrite Hnew. apply Forall_app. split; [exact R3|].
    eapply List.Forall_impl; [|exact HF]. cbn beta. intros r ->. exact Hin.
Qed.

Lemma insert_document_resolves d thesis :
  references_resolve d ->
  references_resolve (snd (insert_document calculate_file_hash d thesis)).
Proof.
  intros (R1 & R2 & R3). unfold insert_document.
  destruct (List.find _ (documents d)) as [existing|] eqn:Ef;
    [repeat split; assumption|].
  destruct (existsb _ (documents d)) eqn:Ee; [repeat split; assumption|].
  cbn [snd]. unfold references_resolve.
  cbn [documents sections_table text_chunks bibliographic_references].
  split; [|split].
  - eapply List.Forall_impl; [|exact R1]. cbn beta. intros s.
    apply In_map_app_l.
  - eapply List.Forall_impl; [|exact R2]. cbn beta. intros c (Hc & Hs).
    split; [apply In_map_app_l, Hc | exact Hs].
  - eapply List.Forall_impl; [|exact R3]. cbn beta. intros r.
    apply In_map_app_l.
Qed.

Lemma convert_one_keeps st thesis :
  (keys_unique (database st) ->
   keys_unique (database (convert_one calculate_file_hash st thesis))) /\
  (references_resolve (database st) ->
   references_resolve (database (convert_one calculate_file_hash st thesis))).
Proof.
  unfold convert_one. destruct (negb _); [auto|].
  pose proof (insert_document_keys (database st) thesis) as Hk.
  pose proof (insert_document_resolves (database st) thesis) as Hr.
  destruct (insert_document_again (database st) thesis) as [_ Hid].
  destruct (insert_document calculate_file_hash (database st) thesis)
    as [[document_id|e] d1]; cbn [snd database] in *; [|auto].
  destruct (Hid document_id d1 eq_refl) as (r & Hin & Hr1 & _).
  assert (Hdoc : In document_id (map doc_id (documents d1))).
  { rewrite <- Hr1. apply in_map, Hin. }
  unfold insert_sections_and_chunks.
  destruct (insert_sections_keep document_id thesis (sections thesis) d1)
    as (Sk & Sr & Sd & _).
  destruct (insert_references_keep document_id thesis
              (insert_sections document_id thesis (sections thesis) d1))
    as (Rk & Rr).
  split.
  - intros H. apply Rk, Sk, Hk, H.
  - intros H. apply Rr; [rewrite Sd; exact Hdoc|]. apply Sr; [exact Hdoc|].
    apply Hr, H.
Qed.

Lemma fold_convert_keeps (P : db -> Prop) :
  (forall st thesis, P (database st) ->
     P (database (convert_one calculate_file_hash st thesis))) ->
  forall analyses st, P (database st) ->
    P (database (fold_left (convert_one calculate_file_hash) analyses st)).
Proof.
  intros Hstep. induction analyses as [|t ts IH]; intros st H; simpl; [exact H|].
  apply IH, Hstep, H.
Qed.

(** X8.  [convert_json_to_sql] keeps the keys of the database: when no
    two documents share a content hash or a file name and the ids of
    every table are 1, 2, ... in row order, this still holds after the
    conversion of any list of analyses. *)
Theorem convert_keeps_keys_unique (d : db) (thesis_analyses : list thesis_data) :
  keys_unique d ->
  keys_unique (database (convert_json_to_sql calculate_file_hash d thesis_analyses)).
Proof.
  intros H. unfold convert_json_to_sql.
  apply (fold_convert_keeps keys_unique); [|exact H].
  intros st thesis. apply convert_one_keeps.
Qed.

(** X9.  [convert_json_to_sql] keeps every foreign key resolvable: after
    the conversion of any list of analyses every section and reference
    points at a stored document, and every chunk at a stored document and
    at a stored section of that document. *)
Theorem convert_keeps_references (d : db) (thesis_analyses : list thesis_data) :
  references_resolve d ->
  references_resolve
    (database (convert_json_to_sql calculate_file_hash d thesis_analyses)).
Proof.
  intros H. unfold convert_json_to_sql.
  apply (fold_convert_keeps references_resolve); [|exact H].
  intros st thesis. apply convert_one_keeps.
Qed.

Lemma convert_one_counts st thesis :
  let st' := convert_one calculate_file_hash st thesis in
  successful_conversions st' + failed_conversions st'
  = successful_conversions st + failed_conversions st + 1 /\
  successful_conversions st <= successful_conversions st'
  <= successful_conversions st + (if is_success thesis then 1 else 0) /\
  (is_success thesis = false -> database st' = database st).
Proof.
  unfold convert_one, is_success.
  destruct (str_eqb (status thesis) (utf8 "success")); cbn [negb].
  - destruct (insert_document _ _ _) as [[id|e] d1]; cbn; repeat split; try lia;
      discriminate.
  - cbn. repeat split; lia.
Qed.

(** X10.  [convert_json_to_sql] counts every analysis of the list once,
    as successful or as failed; only analyses with status ['success'] can
    count as successful; and a list without such an analysis leaves the
    database as it was. *)
Theorem convert_counts_every_analysis (d : db) (thesis_analyses : list thesis_data) :
  let r := convert_json_to_sql calculate_file_hash d thesis_analyses in
  successful_conversions r + failed_conversions r = len thesis_analyses /\
  0 <= successful_conversions r
  <= len (List.filter is_success thesis_analyses) /\
  (Forall (fun t => is_success t = false) thesis_analyses -> database r = d).
Proof.
  unfold convert_json_to_sql.
  assert (H : forall analyses st,
    let r := fold_left (convert_one calculate_file_hash) analyses st in
    successful_conversions r + failed_conversions r
    = successful_conversions st + failed_conversions st + len analyses /\
    successful_conversions st <= successful_conversions r
    <= successful_conversions st + len (List.filter is_success analyses) /\
    (Forall (fun t => is_success t = false) analyses ->
     database r = database st)).
  { induction analyses as [|t ts IH]; intros st; cbn [fold_left].
    - unfold len. simpl. repeat split; lia.
    - destruct (IH (convert_one calculate_file_hash st t)) as (I1 & I2 & I3).
      destruct (convert_one_counts st t) as (C1 & C2 & C3).
      cbv zeta in *. split; [|split].
      + rewrite I1, C1. unfold len. simpl length. lia.
      + cbn [List.filter]. destruct (is_success t); unfold len in *;
          simpl length; lia.
      + intros HF. inversion HF as [|? ? Ht Hts]; subst.
        rewrite (I3 Hts). apply C3, Ht. }
  cbv zeta. destruct (H thesis_analyses
    {| database := d; successful_conversions := 0; failed_conversions := 0 |})
    as (H1 & H2 & H3).
  cbv zeta in *. cbn [successful_conversions failed_conversions database] in *.
  repeat split; try lia. exact H3.
Qed.

(** X11.  An analysis with status ['success'] whose file name is stored
    already, but whose content hash is not (the analysis of the file has
    changed), is rejected: [insert_document] raises on the UNIQUE
    constraint of [filename], and [convert_json_to_sql] counts the
    analysis as failed and leaves the database as it was. *)
Theorem changed_analysis_is_rejected (st : conversion) (thesis : thesis_data) :
  is_success thesis = true ->
  In (file thesis) (map filename (documents (database st))) ->
  ~ In (calculate_file_hash thesis) (map file_hash (documents (database st))) ->
  insert_document calculate_file_hash (database st) thesis
  = (Raise IntegrityError, database st) /\
  let st' := convert_one calculate_file_hash st thesis in
  database st' = database st /\
  failed_conversions st' = failed_conversions st + 1 /\
  successful_conversions st' = successful_conversions st.
Proof.
  intros Hs Hname Hhash.
  assert (Hins : insert_document calculate_file_hash (database st) thesis
                 = (Raise IntegrityError, database st)).
  { unfold insert_document.
    destruct (List.find _ (documents (database st))) as [existing|] eqn:Ef.
    - exfalso. apply find_some in Ef. destruct Ef as [Hin Heq].
      apply str_eqb_eq in Heq. apply Hhash. rewrite <- Heq.
      apply in_map, Hin.
    - destruct (existsb _ (documents (database st))) eqn:Ee; [reflexivity|].
      exfalso. exact (existsb_false_not_In _ _ Ee Hname). }
  split; [exact Hins|]. unfold convert_one, is_success in *.
  rewrite Hs, Hins. cbn. auto.
Qed.

End IngestMore.

Section IngestWitnesses.
Import PyStr Py Ingest.

Lemma empty_db_keys_unique : keys_unique empty_db.
Proof.
  unfold keys_unique, ids_in_sequence. cbn.
  repeat split; try apply List.NoDup_nil; intros [|i] id H; discriminate.
Qed.

Lemma empty_db_references_resolve : references_resolve empty_db.
Proof. unfold references_resolve. cbn. repeat split; constructor. Qed.

Lemma insert_document_idempotent_witness :
  exists r,
    In r (documents (snd (insert_document Sample.digest empty_db Sample.thesis))) /\
    doc_id r = 1 /\ file_hash r = Sample.digest Sample.thesis.
Proof.
  apply (proj2 (insert_document_idempotent Sample.digest empty_db Sample.thesis)
           1 (snd (insert_document Sample.digest empty_db Sample.thesis))).
  reflexivity.
Defined.

Lemma convert_keeps_keys_unique_witness :
  keys_unique empty_db /\
  keys_unique (database (convert_json_to_sql Sample.digest empty_db
                           [Sample.thesis; thesis_revised; Sample.thesis])).
Proof.
  split; [exact empty_db_keys_unique|].
  apply convert_keeps_keys_unique, empty_db_keys_unique.
Defined.

Lemma convert_keeps_references_witness :
  references_resolve empty_db /\
  references_resolve
    (database (convert_json_to_sql Sample.digest empty_db
                 [Sample.thesis; thesis_revised; Sample.thesis])).
Proof.
  split; [exact empty_db_references_resolve|].
  apply convert_keeps_references, empty_db_references_resolve.
Defined.

Lemma convert_counts_every_analysis_witness :
  database (convert_json_to_sql Sample.digest (database ingested_once)
              [thesis_failed; thesis_failed])
  = database ingested_once.
Proof.
  apply (convert_counts_every_analysis Sample.digest (database ingested_once)
           [thesis_failed; thesis_failed]).
  repeat constructor.
Defined.

Lemma changed_analysis_is_rejected_witness :
  database (convert_one Sample.digest ingested_once thesis_revised)
  = database ingested_once /\
  failed_conversions (convert_one Sample.digest ingested_once thesis_revised) = 1.
Proof.
  destruct (changed_analysis_is_rejected Sample.digest ingested_once thesis_revised)
    as (_ & H1 & H2 & _).
  - reflexivity.
  - vm_compute. left. reflexivity.
  - vm_compute. intros [H|[]]. discriminate.
  - split; [exact H1 | rewrite H2; reflexivity].
Defined.

End IngestWitnesses.

Section SearchMore.
Import PyStr Py.

Lemma collect_ext {C H : Type} (j1 j2 : C -> verdict H) k :
  (forall c, j1 c = j2 c) -> forall cands results,
  collect j1 k cands results = collect j2 k cands results.
Proof.
  intros He. induction cands as [|c l IH]; intros results; simpl; [reflexivity|].
  rewrite He. destruct (j2 c); auto. destruct (_ >=? _); auto.
Qed.

Lemma collect_all_skip {C H : Type} (judge : C -> verdict H) k :
  (forall c, judge c = Skip) -> forall cands results,
  collect judge k cands results = Ok results.
Proof.
  intros Hs. induction cands as [|c l IH]; intros results; simpl; [reflexivity|].
  rewrite Hs. apply IH.
Qed.

Lemma filters_pass_unknown_key (f : gmap string pyval) key v chunk :
  ~ In key known_keys ->
  SearchSQLite.filters_pass (Some (<[key := v]> f)) chunk
  = SearchSQLite.filters_pass (Some f) chunk.
Proof.
  intros Hk.
  assert (Hne : forall k, In k known_keys -> (<[key := v]> f) !! k = f !! k).
  { intros k Hin. apply lookup_insert_ne. intros ->. exact (Hk Hin). }
  unfold SearchSQLite.filters_pass.
  rewrite (bool_decide_eq_false_2 (<[key := v]> f = ∅))
    by apply insert_non_empty.
  unfold SearchSQLite.substring_check, SearchSQLite.student_id_check,
    SearchSQLite.author_check, SearchSQLite.year_check.
  rewrite !Hne by (unfold known_keys; simpl; tauto).
  destruct (bool_decide (f = ∅)) eqn:E; [|reflexivity].
  apply bool_decide_eq_true in E. subst f. rewrite !lookup_empty. reflexivity.
Qed.

(** X12.  A filter under a key that [search] does not know (any key
    other than the ten it tests) is ignored: the search with it has the
    outcome of the search without it. *)
Theorem search_ignores_unknown_keys (dist qvec : Type)
    (self : SearchSQLite.FaissSemanticSearchSQLite dist qvec)
    (query : str) (k : Z) (sections : option (list pyval))
    (filters : gmap string pyval) (key : string) (v : pyval) :
  ~ In key known_keys ->
  SearchSQLite.search self query k sections (Some (<[key := v]> filters))
  = SearchSQLite.search self query k sections (Some filters).
Proof.
  intros Hk. unfold SearchSQLite.search.
  destruct (SearchSQLite.index_search _ _ _) as [D I'].
  apply collect_ext. intros [rank idx]. unfold SearchSQLite.judge.
  destruct (SearchSQLite.out_of_range self idx); [reflexivity|].
  destruct (SearchSQLite.get_chunk_with_metadata _ _) as [chunk|]; [|reflexivity].
  rewrite (filters_pass_unknown_key filters key v chunk Hk). reflexivity.
Qed.

Lemma search_ignores_unknown_keys_witness :
  SearchSQLite.search Sample.store [] 2 None
    (Some (<[ "pages"%string := PInt 12 ]> {[ "title"%string := PStr (utf8 "DEEP") ]}))
  = SearchSQLite.search Sample.store [] 2 None deep_filter.
Proof.
  apply search_ignores_unknown_keys. vm_compute.
  intros H. repeat (destruct H as [H|H]; [discriminate|]). exact H.
Defined.

(** X13.  The two searchers treat an empty section list differently:
    [FaissSemanticSearch.search] with [sections=[]] returns no hit at all,
    [FaissSemanticSearchSQLite.search] with [sections=[]] behaves as with
    [sections=None] (no section filter). *)
Theorem search_with_empty_section_list :
  (forall (dist qvec : Type) (self : SearchJSON.FaissSemanticSearch dist qvec)
          query k,
      SearchJSON.search self query (Some []) k = Ok []) /\
  (forall (dist qvec : Type)
          (self : SearchSQLite.FaissSemanticSearchSQLite dist qvec)
          query k filters,
      SearchSQLite.search self query k (Some []) filters
      = SearchSQLite.search self query k None filters).
Proof.
  split.
  - intros dist qvec self query k. unfold SearchJSON.search.
    destruct (SearchJSON.index_search _ _ _) as [D I'].
    apply collect_all_skip. intros [rank idx]. unfold SearchJSON.judge.
    destruct (SearchJSON.out_of_range self idx); reflexivity.
  - intros dist qvec self query k filters. reflexivity.
Qed.

Lemma contains_nil (s : str) : contains [] s = true.
Proof.
  unfold contains. pose proof (len_nonneg s) as Hs.
  destruct (Z.to_nat (len s - len (@nil Z) + 1)) as [|n] eqn:En.
  - unfold len in *. simpl in En. lia.
  - cbn [find_up]. unfold match_at. simpl. reflexivity.
Qed.

Lemma split_ends_empty sep s :
  exists p ps, split sep (s ++ [sep]) = (p :: ps) ++ [[]].
Proof.
  induction s as [|c s (p & ps & IH)]; cbn [app split].
  - rewrite Z.eqb_refl. exists [], []. reflexivity.
  - destruct (c =? sep).
    + rewrite IH. exists [], (p :: ps). reflexivity.
    + rewrite IH. exists (c :: p), ps. reflexivity.
Qed.

Lemma any_name_with_empty_name (a : str) : forall names,
  Forall (fun n => is_str n = true) names -> In (PStr []) names ->
  SearchSQLite.any_name names (PStr a) = Ok true.
Proof.
  induction names as [|name names IH]; intros HF Hin; [destruct Hin|].
  inversion HF as [|? ? Hn HF']; subst.
  destruct name as [| |n|]; try discriminate. cbn.
  destruct (contains (lower n) (lower a)) eqn:E; [reflexivity|].
  apply IH; [exact HF'|]. destruct Hin as [Hin|Hin]; [|exact Hin].
  injection Hin as ->. rewrite contains_nil in E. discriminate.
Qed.

(** X14.  An author filter given as a string that is empty or ends with
    [';'] holds an empty name, which is a substring of every authors
    field: such a filter lets every row with a string [authors] pass. *)
Theorem author_filter_with_empty_name (filters : gmap string pyval)
    (chunk : SearchSQLite.row) (s a : str) :
  filters !! "author"%string = Some (PStr s) ->
  SearchSQLite.authors chunk = PStr a ->
  s = [] \/ (exists s', s = s' ++ [SearchSQLite.SEMICOLON]) ->
  SearchSQLite.author_check filters chunk = Ok true.
Proof.
  intros Hf Ha Hs. unfold SearchSQLite.author_check. rewrite Hf, Ha. cbn.
  apply any_name_with_empty_name.
  - apply Forall_map. apply Forall_forall. reflexivity.
  - change (PStr []) with ((fun x => PStr (strip x)) []). apply in_map.
    destruct Hs as [->|[s' ->]]; [left; reflexivity|].
    destruct (split_ends_empty SearchSQLite.SEMICOLON s') as (p & ps & ->).
    apply in_or_app. right. left. reflexivity.
Qed.

Lemma author_filter_with_empty_name_witness :
  Forall (fun chunk =>
            SearchSQLite.author_check
              {[ "author"%string := PStr (utf8 "Zutano;") ]} chunk = Ok true)
         Sample.rows.
Proof.
  repeat (apply List.Forall_cons;
          [eapply author_filter_with_empty_name;
           [reflexivity | reflexivity
           | right; exists (utf8 "Zutano"); reflexivity]|]).
  apply List.Forall_nil.
Defined.

End SearchMore.

Section ClassifierMore.
Import PyStr Classifier.

Lemma score_gt_lt x y : score_gt x y = true <-> (y < x)%Q.
Proof.
  unfold score_gt. rewrite negb_true_iff. split.
  - intros H. apply Qnot_le_lt. intros Hle. apply Qle_bool_iff in Hle. congruence.
  - intros H. destruct (Qle_bool x y) eqn:E; [|reflexivity].
    apply Qle_bool_iff in E. exfalso. exact (Qlt_not_le _ _ H E).
Qed.

Lemma score_gt_le x y : score_gt x y = false <-> (x <= y)%Q.
Proof.
  unfold score_gt. rewrite negb_false_iff. apply Qle_bool_iff.
Qed.

(** ** One keyword *)

Ltac split_offers :=
  repeat (match goal with
          | |- context [score_gt ?a ?b] =>
            lazymatch b with
            | context [score_gt _ _] => fail
            | _ => idtac
            end;
            let E := fresh "E" in
            destruct (score_gt a b) eqn:E;
              [apply score_gt_lt in E | apply score_gt_le in E]
          end; cbn [fst snd] in *).

Section OneKeyword.
Variables (clean content category keyword : str) (st : best).

Let st' := try_keyword clean content category keyword st.

Lemma try_keyword_changes : st' = st \/ fst st' = Some category.
Proof.
  subst st'. unfold try_keyword. cbv zeta.
  destruct (contains keyword clean);
    destruct (contains keyword (content_start content));
    split_offers; auto.
Qed.

Lemma try_keyword_grows : (snd st <= snd st')%Q.
Proof.
  subst st'. unfold try_keyword. cbv zeta.
  destruct (contains keyword clean);
    destruct (contains keyword (content_start content));
    split_offers; lra.
Qed.

Lemma try_keyword_covers_title :
  contains keyword clean = true -> (similarity clean keyword <= snd st')%Q.
Proof.
  subst st'. unfold try_keyword. cbv zeta. intros ->.
  destruct (contains keyword (content_start content)); split_offers; lra.
Qed.

Lemma try_keyword_covers_content :
  contains keyword (content_start content) = true -> (7 # 10 <= snd st')%Q.
Proof.
  subst st'. unfold try_keyword. cbv zeta. intros ->.
  destruct (contains keyword clean); split_offers; lra.
Qed.

Lemma try_keyword_nothing_new :
  (contains keyword clean = true -> (similarity clean keyword <= snd st)%Q) ->
  (contains keyword (content_start content) = true -> (7 # 10 <= snd st)%Q) ->
  st' = st.
Proof.
  subst st'. unfold try_keyword. cbv zeta. intros Ht Hc.
  destruct (contains keyword clean);
    destruct (contains keyword (content_start content));
    try specialize (Ht eq_refl); try specialize (Hc eq_refl);
    split_offers; try reflexivity; lra.
Qed.

End OneKeyword.

(** ** The keywords of one category *)

Section OneCategory.
Variables (clean content category : str).

Let step := fun st keyword => try_keyword clean content category keyword st.

Lemma fold_keywords_changes : forall keywords st,
  fold_left step keywords st = st \/
  fst (fold_left step keywords st) = Some category.
Proof.
  induction keywords as [|kw kws IH]; intros st; simpl; [left; reflexivity|].
  destruct (IH (step st kw)) as [-> | H]; [|right; exact H].
  apply try_keyword_changes.
Qed.

Lemma fold_keywords_grows : forall keywords st,
  (snd st <= snd (fold_left step keywords st))%Q.
Proof.
  induction keywords as [|kw kws IH]; intros st; simpl; [apply Qle_refl|].
  eapply Qle_trans; [|apply IH]. apply try_keyword_grows.
Qed.

Lemma fold_keywords_covers : forall keywords st keyword,
  In keyword keywords ->
  (contains keyword clean = true ->
   (similarity clean keyword <= snd (fold_left step keywords st))%Q) /\
  (contains keyword (content_start content) = true ->
   (7 # 10 <= snd (fold_left step keywords st))%Q).
Proof.
  induction keywords as [|kw kws IH]; intros st keyword Hin; [destruct Hin|].
  simpl. destruct Hin as [<- | Hin]; [|apply IH; exact Hin].
  split; intros H; (eapply Qle_trans; [|apply fold_keywords_grows]).
  - apply try_keyword_covers_title; exact H.
  - apply try_keyword_covers_content; exact H.
Qed.

Lemma fold_keywords_nothing_new : forall keywords st,
  (forall keyword, In keyword keywords ->
     (contains keyword clean = true -> (similarity clean keyword <= snd st)%Q) /\
     (contains keyword (content_start content) = true -> (7 # 10 <= snd st)%Q)) ->
  fold_left step keywords st = st.
Proof.
  induction keywords as [|kw kws IH]; intros st H; simpl; [reflexivity|].
  assert (E : step st kw = st).
  { destruct (H kw (or_introl eq_refl)) as [H1 H2].
    apply try_keyword_nothing_new; assumption. }
  rewrite E. apply IH. intros k Hk. apply H. right. exact Hk.
Qed.

End OneCategory.

(** ** The whole table *)

Section WholeTable.
Variables (clean content : str).

Lemma fold_categories_changes : forall table st,
  fold_left (try_category clean content) table st = st \/
  exists category, In category (map fst table) /\
    fst (fold_left (try_category clean content) table st) = Some category.
Proof.
  induction table as [|entry table IH]; intros st; simpl; [left; reflexivity|].
  destruct (IH (try_category clean content st entry)) as [-> | (c & Hc & H)].
  - unfold try_category.
    destruct (fold_keywords_changes clean content (fst entry) (snd entry) st)
      as [-> | H]; [left; reflexivity|].
    right. exists (fst entry). split; [left; reflexivity | exact H].
  - right. exists c. split; [right; exact Hc | exact H].
Qed.



Lemma fold_categories_shadowed e1 e2 rest st :
  incl (snd e2) (snd e1) ->
  fold_left (try_category clean content) (e1 :: e2 :: rest) st =
  fold_left (try_category clean content) (e1 :: rest) st.
Proof.
  intros Hincl. simpl. f_equal. unfold try_category at 1.
  apply fold_keywords_nothing_new. intros keyword Hin.
  apply fold_keywords_covers, Hincl, Hin.
Qed.

(** With no keyword in the title, a category (at score 0.7) is only
    entered from the initial state, by the first keyword found in the
    content. *)
Lemma fold_keywords_content_only category : forall keywords st,
  (forall keyword, In keyword keywords -> contains keyword clean = false) ->
  st = (None, 0%Q) \/ snd st = (7 # 10)%Q ->
  fold_left (fun st keyword => try_keyword clean content category keyword st)
    keywords st =
  if existsb (fun keyword => contains keyword (content_start content)) keywords
  then (if score_gt (7 # 10) (snd st) then (Some category, (7 # 10)%Q) else st)
  else st.
Proof.
  induction keywords as [|kw kws IH]; intros st Ht Hst; simpl; [reflexivity|].
  assert (Ht' : forall keyword, In keyword kws -> contains keyword clean = false)
    by (intros k Hk; apply Ht; right; exact Hk).
  unfold try_keyword at 2. cbv zeta. rewrite (Ht kw (or_introl eq_refl)).
  destruct (contains kw (content_start content)); simpl.
  - destruct Hst as [-> | Hst].
    + change (score_gt (7 # 10) (snd (None, 0%Q))) with true. cbv iota.
      rewrite IH; [|exact Ht'|right; reflexivity].
      destruct (existsb _ kws); reflexivity.
    + assert (E : score_gt (7 # 10) (snd st) = false)
        by (apply score_gt_le; rewrite Hst; apply Qle_refl).
      rewrite E. rewrite IH; [|exact Ht'|right; exact Hst].
      rewrite E. destruct (existsb _ kws); reflexivity.
  - apply IH; assumption.
Qed.

Lemma fold_categories_content_only : forall table st,
  (forall keyword, In keyword (concat (map snd table)) ->
     contains keyword clean = false) ->
  st = (None, 0%Q) \/ snd st = (7 # 10)%Q ->
  fold_left (try_category clean content) table st =
  match List.find
          (fun entry =>
             existsb (fun keyword => contains keyword (content_start content))
                     (snd entry)) table with
  | Some entry =>
    if score_gt (7 # 10) (snd st) then (Some (fst entry), (7 # 10)%Q) else st
  | None => st
  end.
Proof.
  induction table as [|entry table IH]; intros st Ht Hst; simpl; [reflexivity|].
  assert (Ht1 : forall keyword, In keyword (snd entry) ->
                  contains keyword clean = false).
  { intros k Hk. apply Ht. simpl. apply in_or_app. left. exact Hk. }
  assert (Ht2 : forall keyword, In keyword (concat (map snd table)) ->
                  contains keyword clean = false).
  { intros k Hk. apply Ht. simpl. apply in_or_app. right. exact Hk. }
  unfold try_category at 2.
  rewrite (fold_keywords_content_only (fst entry) (snd entry) st Ht1 Hst).
  destruct (existsb _ (snd entry)).
  - destruct Hst as [-> | Hst].
    + change (score_gt (7 # 10) (snd (None, 0%Q))) with true. cbv iota.
      rewrite IH; [|exact Ht2|right; reflexivity].
      assert (E : score_gt (7 # 10) (snd (Some (fst entry), (7 # 10)%Q)) = false)
        by (apply score_gt_le; apply Qle_refl).
      rewrite E. destruct (List.find _ table); reflexivity.
    + assert (E : score_gt (7 # 10) (snd st) = false)
        by (apply score_gt_le; rewrite Hst; apply Qle_refl).
      rewrite E. rewrite IH; [|exact Ht2|right; exact Hst].
      rewrite E. destruct (List.find _ table); reflexivity.
  - apply IH; assumption.
Qed.

End WholeTable.

(** ** What [categorize_section] returns *)

(** X15.  Every value returned is a string: ['otros'] or a category of the
    table; Python's [None] (the initial [best_match]) is never
    returned. *)
Theorem categorize_section_range section_title content :
  exists category,
    categorize_section section_title content = Some category /\
    (category = utf8 "otros" \/ In category categories).
Proof.
  unfold categorize_section. cbv zeta.
  destruct (fold_categories_changes (strip_punctuation (lower section_title))
              content section_mappings (None, 0%Q)) as [-> | (c & Hc & H)].
  - exists (utf8 "otros"). split; [reflexivity | left; reflexivity].
  - destruct (fold_left _ _ _) as [best_match best_score]. simpl in H. subst.
    destruct (score_gt best_score (6 # 10)).
    + exists c. split; [reflexivity | right; exact Hc].
    + exists (utf8 "otros"). split; [reflexivity | left; reflexivity].
Qed.

(** X16.  The category ['abstract'] is never returned: its keywords are all
    keywords of ['resumen'], which the loop examines first, and a later
    keyword replaces the best match only with a strictly higher score. *)
Theorem categorize_section_never_abstract section_title content :
  categorize_section section_title content <> Some (utf8 "abstract").
Proof.
  unfold categorize_section. cbv zeta.
  set (clean := strip_punctuation (lower section_title)).
  assert (Hs : section_mappings =
               nth 0 section_mappings ([], []) :: nth 1 section_mappings ([], [])
               :: skipn 2 section_mappings) by reflexivity.
  rewrite Hs, fold_categories_shadowed.
  2:{ intros keyword Hin. vm_compute in Hin. vm_compute.
      repeat (destruct Hin as [<- | Hin]; [auto 6|]). destruct Hin. }
  destruct (fold_categories_changes clean content
              (nth 0 section_mappings ([], []) :: skipn 2 section_mappings)
              (None, 0%Q)) as [-> | (c & Hc & H)].
  - vm_compute. discriminate.
  - destruct (fold_left _ _ _) as [best_match best_score]. simpl in H. subst.
    destruct (score_gt best_score (6 # 10)); [|vm_compute; discriminate].
    intros Heq. injection Heq as ->. vm_compute in Hc.
    repeat (destruct Hc as [Hc | Hc]; [discriminate|]). destruct Hc.
Qed.



End ClassifierMore.

Section DifflibFacts.
Import PyStr Classifier.

Lemma find_up_match s sub : forall k i,
  0 <= i -> 0 <= find_up s sub i k ->
  0 <= find_up s sub i k /\ match_at s sub (find_up s sub i k) = true.
Proof.
  induction k as [|k IH]; intros i Hi H; simpl in *; [lia|].
  destruct (match_at s sub i) eqn:E; [split; [lia | exact E]|].
  apply IH; [lia | exact H].
Qed.

Lemma contains_occurs sub s :
  contains sub s = true -> exists pre post, s = pre ++ sub ++ post.
Proof.
  unfold contains. intros H. apply Z.leb_le in H.
  destruct (find_up_match s sub _ 0 (Z.le_refl 0) H) as [_ Hm].
  unfold match_at in Hm. apply str_eqb_eq in Hm.
  set (i := Z.to_nat (find_up s sub 0 (Z.to_nat (len s - len sub + 1)))) in *.
  exists (firstn i s), (skipn (length sub) (skipn i s)).
  rewrite <- Hm at 1. rewrite !firstn_skipn. reflexivity.
Qed.

Lemma common_prefix_le a : forall b, (common_prefix a b <= length b)%nat.
Proof.
  induction a as [|x a IH]; intros [|y b]; simpl; try lia.
  destruct (x =? y); [specialize (IH b); lia | lia].
Qed.

Lemma common_prefix_app b : forall post,
  common_prefix (b ++ post) b = length b.
Proof.
  induction b as [|x b IH]; intros post; simpl; [destruct post; reflexivity|].
  rewrite Z.eqb_refl, IH. reflexivity.
Qed.

Section LongestMatch.
Variable n : nat.

(** A block lies within the second sequence. *)
Let fits (m : block) : Prop := (snd (fst m) + block_size m <= n)%nat.

Lemma best_in_row_fits arow i : forall brest j best,
  (length brest + j = n)%nat -> fits best ->
  fits (best_in_row arow brest i j best).
Proof.
  induction brest as [|y brest IH]; intros j best Hn Hb; simpl; [exact Hb|].
  apply IH; [simpl in Hn; lia|].
  destruct (block_size best <? _)%nat eqn:E; [|exact Hb].
  unfold fits, block_size. simpl snd. simpl fst.
  pose proof (common_prefix_le arow (y :: brest)) as Hle. simpl in Hn, Hle.
  simpl common_prefix. lia.
Qed.

Lemma best_in_row_grows arow i : forall brest j best,
  (block_size best <= block_size (best_in_row arow brest i j best))%nat.
Proof.
  induction brest as [|y brest IH]; intros j best; simpl; [lia|].
  etransitivity; [|apply IH].
  destruct (block_size best <? _)%nat eqn:E; [|lia].
  apply Nat.ltb_lt in E. unfold block_size at 2. simpl snd. lia.
Qed.

Lemma best_in_row_reaches arow i y brest j best :
  (common_prefix arow (y :: brest)
     <= block_size (best_in_row arow (y :: brest) i j best))%nat.
Proof.
  simpl best_in_row. etransitivity; [|apply best_in_row_grows].
  destruct (block_size best <? _)%nat eqn:E.
  - unfold block_size. simpl snd. lia.
  - apply Nat.ltb_ge in E. exact E.
Qed.

Lemma best_from_fits b : length b = n -> forall arest i best,
  fits best -> fits (best_from arest b i best).
Proof.
  intros Hb. induction arest as [|x arest IH]; intros i best H; simpl;
    [exact H|].
  apply IH. apply best_in_row_fits; [lia | exact H].
Qed.

Lemma best_from_grows b : forall arest i best,
  (block_size best <= block_size (best_from arest b i best))%nat.
Proof.
  induction arest as [|x arest IH]; intros i best; simpl; [lia|].
  etransitivity; [|apply IH]. apply best_in_row_grows.
Qed.

Lemma best_from_reaches y b post : forall pre i best,
  (length (y :: b)
     <= block_size (best_from (pre ++ (y :: b) ++ post) (y :: b) i best))%nat.
Proof.
  induction pre as [|x pre IH]; intros i best.
  - change ([] ++ (y :: b) ++ post) with (y :: (b ++ post)).
    cbn [best_from]. etransitivity; [|apply best_from_grows].
    etransitivity; [|apply best_in_row_reaches].
    change (y :: b ++ post) with ((y :: b) ++ post).
    rewrite common_prefix_app. lia.
  - cbn [app best_from]. apply IH.
Qed.

End LongestMatch.

(** When [b] occurs in [a], the longest matching block is the whole of
    [b]. *)
Lemma find_longest_match_contained pre b post :
  b <> [] ->
  exists i, find_longest_match (pre ++ b ++ post) b = (i, O, length b).
Proof.
  intros Hb. destruct b as [|y b]; [congruence|].
  unfold find_longest_match.
  pose proof (best_from_reaches y b post pre O (O, O, O)) as Hr.
  pose proof (best_from_fits (length (y :: b)) (y :: b) eq_refl
                (pre ++ (y :: b) ++ post) O (O, O, O)) as Hf.
  destruct (best_from _ _ _ _) as [[i j] k].
  unfold block_size in *. simpl fst in *. simpl snd in *.
  assert (Hf' : (j + k <= length (y :: b))%nat) by (apply Hf; simpl; lia).
  exists i. f_equal; [f_equal|]; lia.
Qed.

Lemma matches_nil_r fuel a : matches fuel a [] = O.
Proof.
  destruct fuel as [|fuel]; [reflexivity|]. simpl.
  assert (E : find_longest_match a [] = (O, O, O)).
  { unfold find_longest_match. generalize O at 1.
    induction a as [|x a IH]; intros i; simpl; [reflexivity | apply IH]. }
  rewrite E. reflexivity.
Qed.

Lemma matches_contained fuel pre b post :
  fuel <> O -> matches fuel (pre ++ b ++ post) b = length b.
Proof.
  intros Hf. destruct b as [|y b]; [apply matches_nil_r|].
  destruct fuel as [|fuel]; [congruence|].
  destruct (find_longest_match_contained pre (y :: b) post) as [i E];
    [discriminate|].
  cbn [matches]. rewrite E.
  change (length (y :: b)) with (S (length b)). cbv iota.
  change (firstn 0 (y :: b)) with (@nil Z).
  replace (skipn (0 + S (length b)) (y :: b)) with (@nil Z)
    by (symmetry; apply skipn_all).
  rewrite !matches_nil_r. lia.
Qed.

Lemma lower_length s : length (lower s) = length s.
Proof. apply length_map. Qed.

Lemma ratio_contained pre b post :
  b <> [] ->
  ratio (pre ++ b ++ post) b =
  Qmake (2 * len b) (Z.to_pos (len (pre ++ b ++ post) + len b)).
Proof.
  intros Hb. unfold ratio. cbv zeta.
  assert (Hpos : (0 < length b)%nat)
    by (destruct b; [congruence | simpl; lia]).
  destruct (length (pre ++ b ++ post) + length b)%nat as [|t] eqn:Et; [lia|].
  rewrite matches_contained by discriminate. unfold len. f_equal.
  rewrite <- Nat2Z.inj_add, Et. simpl. symmetry. apply Pos.of_nat_succ.
Qed.

(** The score of a keyword found in the title. *)
Lemma similarity_contained clean keyword :
  keyword <> [] -> contains keyword clean = true ->
  similarity clean keyword =
  Qmake (2 * len keyword) (Z.to_pos (len clean + len keyword)).
Proof.
  intros Hk Hc. destruct (contains_occurs _ _ Hc) as (pre & post & ->).
  unfold similarity, lower. rewrite !map_app, ratio_contained.
  2:{ destruct keyword; [congruence | discriminate]. }
  unfold len. rewrite !length_app, !length_map. reflexivity.
Qed.

(** Whether that score is above the threshold depends on the two lengths
    only. *)
Lemma similarity_contained_threshold clean keyword :
  keyword <> [] -> contains keyword clean = true ->
  score_gt (similarity clean keyword) (6 # 10) = true <->
  3 * len clean < 7 * len keyword.
Proof.
  intros Hk Hc. rewrite (similarity_contained _ _ Hk Hc).
  assert (Hpos : 0 < len keyword)
    by (unfold len; destruct keyword; [congruence | simpl length; lia]).
  pose proof (len_nonneg clean) as Hn.
  unfold score_gt. rewrite negb_true_iff.
  destruct (Qle_bool _ _) eqn:E.
  - split; [discriminate|]. intros H. exfalso.
    apply Qle_bool_iff in E. unfold Qle in E. simpl in E.
    rewrite Z2Pos.id in E by lia. lia.
  - split; [|reflexivity]. intros _.
    destruct (Z_lt_le_dec (3 * len clean) (7 * len keyword)) as [H|H];
      [exact H|].
    exfalso. assert (E' : Qle_bool (2 * len keyword
                # Z.to_pos (len clean + len keyword)) (6 # 10) = true).
    { apply Qle_bool_iff. unfold Qle. simpl. rewrite Z2Pos.id by lia. lia. }
    congruence.
Qed.

(** X18.  The score of a string [b] (shorter than 200 characters, where
    [difflib] starts to treat frequent characters as junk) against a
    string [a] that contains it: [2 * len(b) / (len(a) + len(b))], which is
    above 0.6 exactly when [3 * len(a) < 7 * len(b)]. *)
Theorem similarity_of_contained a b :
  b <> [] -> len b < 200 -> contains b a = true ->
  similarity a b = Qmake (2 * len b) (Z.to_pos (len a + len b)) /\
  (score_gt (similarity a b) (6 # 10) = true <-> 3 * len a < 7 * len b).
Proof.
  intros Hb _ Hc. split.
  - apply similarity_contained; assumption.
  - apply similarity_contained_threshold; assumption.
Qed.

Lemma similarity_of_contained_witness :
  similarity (utf8 "resultados y discusión") (utf8 "resultados") = (20 # 32)%Q /\
  score_gt (similarity (utf8 "resultados y discusión") (utf8 "resultados"))
    (6 # 10) = true.
Proof.
  assert (H3 : contains (utf8 "resultados") (utf8 "resultados y discusión") = true)
    by (vm_compute; reflexivity).
  assert (H1 : utf8 "resultados" <> []) by (vm_compute; discriminate).
  assert (H2 : len (utf8 "resultados") < 200) by (vm_compute; reflexivity).
  destruct (similarity_of_contained _ _ H1 H2 H3) as [E T].
  split; [rewrite E; vm_compute; reflexivity|].
  apply T. vm_compute. reflexivity.
Defined.



End DifflibFacts.

Section AnalyzerFacts.
Import PyStr Py Classifier Analyzer.

(** ** [extract_content]: when it raises *)

Lemma extract_section_cases st section :
  (head_text section = Some None /\
   extract_section st section = Raise AttributeError) \/
  (head_text section <> Some None /\
   exists st', extract_section st section = Ok st' /\
     length (sections st') = S (length (sections st))).
Proof.
  unfold extract_section. destruct (head_text section) as [[t|]|].
  - right. split; [discriminate|]. eexists. split; [reflexivity|].
    cbn. rewrite length_app. simpl. lia.
  - left. split; reflexivity.
  - right. split; [discriminate|]. eexists. split; [reflexivity|].
    cbn. rewrite length_app. simpl. lia.
Qed.

Lemma extract_sections_cases : forall sections_ st,
  (Exists (fun section => head_text section = Some None) sections_ /\
   extract_sections st sections_ = Raise AttributeError) \/
  (Forall (fun section => head_text section <> Some None) sections_ /\
   exists st', extract_sections st sections_ = Ok st' /\
     length (sections st') = (length (sections st) + length sections_)%nat).
Proof.
  induction sections_ as [|section rest IH]; intros st.
  - right. split; [constructor|]. exists st. split; [reflexivity | simpl; lia].
  - cbn [extract_sections].
    destruct (extract_section_cases st section) as [[Hh ->] | (Hh & st' & -> & Hl)].
    + left. split; [left; exact Hh | reflexivity].
    + cbn. destruct (IH st') as [[He ->] | (Hf & st'' & -> & Hl')].
      * left. split; [right; exact He | reflexivity].
      * right. split; [constructor; assumption|].
        exists st''. split; [reflexivity|]. simpl. lia.
Qed.

(** X21.  [extract_content] raises exactly when some [div] of the body has
    a [head] without text of its own (its title is then [None], and
    [categorize_section] fails on [section_title.lower()]); the exception
    is an [AttributeError], and otherwise one section is returned for
    every [div]. *)
Theorem extract_content_fails_iff (root : body) :
  (Exists (fun section => head_text section = Some None) (divs root) /\
   extract_content root = Raise AttributeError) \/
  (Forall (fun section => head_text section <> Some None) (divs root) /\
   exists c, extract_content root = Ok c /\
     length (c_sections c) = length (divs root)).
Proof.
  unfold extract_content.
  destruct (extract_sections_cases (divs root)
              {| sections := []; categorized_sections := [];
                 all_text_for_language := [] |})
    as [[He ->] | (Hf & st & -> & Hl)].
  - left. split; [exact He | reflexivity].
  - right. split; [exact Hf|]. eexists. split; [reflexivity|]. exact Hl.
Qed.

(** ** [extract_content]: the sections by category *)

Lemma category_eqb_eq a b : category_eqb a b = true <-> a = b.
Proof.
  destruct a as [x|], b as [y|]; simpl; try (split; [discriminate|congruence]);
    [|tauto].
  rewrite str_eqb_eq. split; congruence.
Qed.

Lemma category_eqb_neq a b : category_eqb a b = false <-> a <> b.
Proof.
  destruct (category_eqb a b) eqn:E.
  - apply category_eqb_eq in E. split; [discriminate | congruence].
  - split; [|reflexivity]. intros _ H. apply category_eqb_eq in H. congruence.
Qed.

Lemma keys_append_to key entry : forall d k,
  In k (map fst (append_to d key entry)) <-> In k (map fst d) \/ k = key.
Proof.
  induction d as [|[k0 l0] d IH]; intros k; simpl.
  - split; [intros [<-|[]]; auto | intros [[] | ->]; auto].
  - destruct (category_eqb k0 key) eqn:E; simpl.
    + apply category_eqb_eq in E. subst.
      split; [tauto | intros [H | ->]; [exact H | left; reflexivity]].
    + rewrite IH. tauto.
Qed.

Lemma NoDup_append_to key entry : forall d,
  List.NoDup (map fst d) -> List.NoDup (map fst (append_to d key entry)).
Proof.
  induction d as [|[k0 l0] d IH]; intros H; simpl.
  - apply List.NoDup_cons; [intros [] | apply List.NoDup_nil].
  - simpl in H. apply List.NoDup_cons_iff in H. destruct H as [Hn Hd].
    destruct (category_eqb k0 key) eqn:E; simpl.
    + apply List.NoDup_cons; assumption.
    + apply List.NoDup_cons; [|apply IH, Hd].
      rewrite keys_append_to. intros [H|H]; [exact (Hn H)|].
      apply category_eqb_neq in E. congruence.
Qed.

Lemma In_append_to key entry : forall d k l,
  List.NoDup (map fst d) ->
  In (k, l) (append_to d key entry) ->
  (k <> key /\ In (k, l) d) \/
  (k = key /\ exists l0, l = l0 ++ [entry] /\
     (In (key, l0) d \/ (l0 = [] /\ ~ In key (map fst d)))).
Proof.
  induction d as [|[k0 l0] d IH]; intros k l Hnd H; simpl in *.
  - destruct H as [H|[]]. injection H as <- <-. right. split; [reflexivity|].
    exists []. split; [reflexivity|]. right. split; [reflexivity | tauto].
  - apply List.NoDup_cons_iff in Hnd. destruct Hnd as [Hn Hd].
    destruct (category_eqb k0 key) eqn:E.
    + apply category_eqb_eq in E. subst k0.
      destruct H as [H|H].
      * injection H as <- <-.
        right. split; [reflexivity|]. exists l0. split; [reflexivity|]. auto.
      * left. split; [|right; exact H].
        intros ->. apply Hn. apply (in_map fst) in H. exact H.
    + apply category_eqb_neq in E. destruct H as [H|H].
      * injection H as <- <-. left. split; [exact E | left; reflexivity].
      * destruct (IH k l Hd H) as [[Hk Hin] | (-> & l1 & -> & Hl1)].
        -- left. split; [exact Hk | right; exact Hin].
        -- right. split; [reflexivity|]. exists l1. split; [reflexivity|].
           destruct Hl1 as [Hin | [-> Hnot]]; [left; right; exact Hin|].
           right. split; [reflexivity|]. intros [Heq | Hin]; [congruence | tauto].
Qed.

Lemma entries_of_snoc key sections_ s :
  entries_of key (sections_ ++ [s]) =
  entries_of key sections_
  ++ (if category_eqb (category s) key then [(title s, content s)] else []).
Proof.
  unfold entries_of. rewrite List.filter_app, map_app. simpl.
  destruct (category_eqb (category s) key); reflexivity.
Qed.

Lemma groups_snoc d sections_ s :
  groups d sections_ ->
  groups (append_to d (category s) (title s, content s)) (sections_ ++ [s]).
Proof.
  intros (Hnd & Hent & Hkeys). split; [apply NoDup_append_to, Hnd|]. split.
  - intros key entries Hin. rewrite entries_of_snoc.
    destruct (In_append_to _ _ _ _ _ Hnd Hin)
      as [[Hk Hin'] | (-> & l0 & -> & Hl0)].
    + destruct (Hent _ _ Hin') as [Hne Heq]. split; [exact Hne|].
      assert (E : category_eqb (category s) key = false)
        by (apply category_eqb_neq; congruence).
      rewrite E, app_nil_r. exact Heq.
    + split; [destruct l0; discriminate|].
      assert (E : category_eqb (category s) (category s) = true)
        by (apply category_eqb_eq; reflexivity).
      rewrite E. f_equal.
      destruct Hl0 as [Hin' | [-> Hnot]]; [apply Hent, Hin'|].
      unfold entries_of.
      destruct (List.filter _ sections_) as [|s0 rest] eqn:Ef; [reflexivity|].
      exfalso. apply Hnot.
      assert (Hs0 : In s0 (List.filter
                 (fun s' => category_eqb (category s') (category s)) sections_))
        by (rewrite Ef; left; reflexivity).
      apply List.filter_In in Hs0. destruct Hs0 as [Hs0 Hc].
      apply category_eqb_eq in Hc. rewrite <- Hc. apply Hkeys, Hs0.
  - intros s' Hin. rewrite keys_append_to. apply in_app_or in Hin.
    destruct Hin as [Hin | [<- | []]]; [left; apply Hkeys, Hin | right; reflexivity].
Qed.

Lemma extract_section_groups st section st' :
  extract_section st section = Ok st' ->
  groups (categorized_sections st) (sections st) ->
  groups (categorized_sections st') (sections st').
Proof.
  unfold extract_section.
  destruct (match head_text section with Some text => text | None => Some SIN_TITULO end)
    as [t|]; [|discriminate].
  intros [= <-] H. cbn [sections categorized_sections].
  apply (groups_snoc _ _ {| title := t; content := _; category := _ |} H).
Qed.

Lemma extract_sections_groups : forall sections_ st st',
  extract_sections st sections_ = Ok st' ->
  groups (categorized_sections st) (sections st) ->
  groups (categorized_sections st') (sections st').
Proof.
  induction sections_ as [|section rest IH]; intros st st' H Hg.
  - injection H as <-. exact Hg.
  - cbn [extract_sections] in H.
    destruct (extract_section st section) as [st1|e] eqn:E; [|discriminate].
    cbn in H. apply (IH st1 st' H). apply (extract_section_groups _ _ _ E Hg).
Qed.

(** X22.  The dict [categorized_sections] that [extract_content] returns
    groups the sections it returns: its keys are distinct, the category of
    every section is a key, and every key holds the [title] and [content]
    of exactly the sections of that category, in document order (so no
    key holds an empty list). *)
Theorem extract_content_groups_sections (root : body) (c : content_data) :
  extract_content root = Ok c ->
  groups (c_categorized_sections c) (c_sections c).
Proof.
  unfold extract_content. intros H.
  destruct (extract_sections _ (divs root)) as [st|e] eqn:E; [|discriminate].
  cbn in H. injection H as <-. cbn [c_categorized_sections c_sections].
  apply (extract_sections_groups _ _ _ E). cbn.
  split; [apply List.NoDup_nil|]. split; [intros ? ? []|intros ? []].
Qed.

Lemma extract_content_groups_sections_witness :
  exists c,
    extract_content sample_body = Ok c /\
    map fst (c_categorized_sections c)
    = [Some (utf8 "introduccion"); Some (utf8 "resultados")] /\
    groups (c_categorized_sections c) (c_sections c).
Proof.
  eexists. split; [vm_compute; reflexivity|].
  split; [reflexivity|].
  apply (extract_content_groups_sections sample_body). vm_compute. reflexivity.
Defined.

(** ** A section without a [head] *)

Lemma sin_titulo_has_no_keyword keyword :
  In keyword all_keywords ->
  contains keyword (strip_punctuation (lower SIN_TITULO)) = false.
Proof.
  intros Hin. vm_compute in Hin.
  repeat (destruct Hin as [<- | Hin]; [vm_compute; reflexivity|]).
  destruct Hin.
Qed.

(** X23.  A [div] without a [head] never makes [extract_content] fail: it
    is recorded under the title ['Sin título'], and its category is
    decided by its content alone (the first category of the table with a
    keyword in the first 200 characters, else ['otros']). *)
Theorem extract_section_without_head (st : progress) (section : div) :
  head_text section = None ->
  exists st',
    extract_section st section = Ok st' /\
    sections st' =
    sections st ++
      [ {| title := SIN_TITULO;
           content := join [SPACE] (section_text (p_texts section));
           category :=
             match content_category
                     (join [SPACE] (section_text (p_texts section))) with
             | Some category => Some category
             | None => Some (utf8 "otros")
             end |} ].
Proof.
  intros Hh. unfold extract_section. rewrite Hh. eexists.
  split; [reflexivity|]. cbn [sections]. do 3 f_equal.
  unfold categorize_section, content_category. cbv zeta.
  rewrite fold_categories_content_only;
    [|exact sin_titulo_has_no_keyword|left; reflexivity].
  destruct (List.find _ section_mappings); reflexivity.
Qed.

Lemma extract_section_without_head_witness :
  exists st',
    extract_section
      {| sections := []; categorized_sections := [];
         all_text_for_language := [] |}
      {| head_text := None;
         p_texts := [Some (utf8 "Los resultados de la medición.")] |} = Ok st' /\
    map category (sections st') = [Some (utf8 "resultados")].
Proof.
  destruct (extract_section_without_head
              {| sections := []; categorized_sections := [];
                 all_text_for_language := [] |}
              {| head_text := None;
                 p_texts := [Some (utf8 "Los resultados de la medición.")] |}
              eq_refl) as (st' & H & Hs).
  exists st'. split; [exact H|]. rewrite Hs. vm_compute. reflexivity.
Defined.

(** ** [detect_language] *)

Lemma isspace_lower_char c : isspace c = true -> lower_char c = c.
Proof.
  unfold isspace, lower_char. intros H.
  destruct ((65 <=? c) && (c <=? 90)) eqn:E1.
  { exfalso. apply andb_true_iff in E1. destruct E1 as [A B].
    apply Z.leb_le in A, B.
    repeat (apply orb_true_iff in H; destruct H as [H|H]);
      repeat (apply andb_true_iff in H; destruct H as [H H']);
      repeat match goal with
             | X : (_ <=? _) = true |- _ => apply Z.leb_le in X
             | X : (_ =? _) = true |- _ => apply Z.eqb_eq in X
             end; lia. }
  destruct ((192 <=? c) && (c <=? 222) && negb (c =? 215)) eqn:E2; [|reflexivity].
  exfalso. apply andb_true_iff in E2. destruct E2 as [E2 _].
  apply andb_true_iff in E2. destruct E2 as [A B].
  apply Z.leb_le in A, B.
  repeat (apply orb_true_iff in H; destruct H as [H|H]);
    repeat (apply andb_true_iff in H; destruct H as [H H']);
    repeat match goal with
           | X : (_ <=? _) = true |- _ => apply Z.leb_le in X
           | X : (_ =? _) = true |- _ => apply Z.eqb_eq in X
           end; lia.
Qed.

Lemma split_ws_head_word c s :
  isspace c = false -> exists word words, split_ws (c :: s) = word :: words.
Proof.
  intros Hc. cbn [split_ws]. rewrite Hc. destruct s as [|c' s']; [eauto|].
  destruct (isspace c'); [eauto|]. destruct (split_ws (c' :: s')); eauto.
Qed.

(** Whitespace between two texts separates their words. *)
Lemma split_ws_app w b : isspace w = true -> forall a,
  split_ws (a ++ w :: b) = split_ws a ++ split_ws b.
Proof.
  intros Hw. induction a as [|c a IH].
  - cbn [app split_ws]. rewrite Hw. reflexivity.
  - cbn [app]. cbn [split_ws]. destruct (isspace c) eqn:Hc; [exact IH|].
    destruct a as [|c' a'].
    + cbn [app]. rewrite Hw. cbn [split_ws]. rewrite Hw. reflexivity.
    + cbn [app] in *. destruct (isspace c') eqn:Hc'.
      * rewrite IH. reflexivity.
      * rewrite IH.
        destruct (split_ws_head_word c' a' Hc') as (word & words & ->).
        reflexivity.
Qed.

Lemma firstn_app_enough {A} (n : nat) (l1 l2 : list A) :
  (n <= length l1)%nat -> firstn n (l1 ++ l2) = firstn n l1.
Proof.
  intros H. rewrite firstn_app.
  replace (n - length l1)%nat with O by lia. simpl. apply app_nil_r.
Qed.

(** X24.  [detect_language] looks at the first 100 words only: when a
    text has at least 100 words, whatever follows it after a whitespace
    character does not change the answer. *)
Theorem detect_language_first_words (text rest : str) (w : Z) :
  (100 <= length (split_ws (lower text)))%nat ->
  isspace w = true ->
  detect_language (text ++ w :: rest) = detect_language text.
Proof.
  intros Hlen Hw. unfold detect_language, lower.
  rewrite map_app. cbn [map]. rewrite (isspace_lower_char w Hw).
  rewrite (split_ws_app w (map lower_char rest) Hw).
  rewrite firstn_app_enough by exact Hlen. reflexivity.
Qed.

Lemma detect_language_first_words_witness :
  detect_language (hundred_words ++ SPACE :: utf8 "the end of the story")
  = utf8 "spanish".
Proof.
  rewrite detect_language_first_words;
    [vm_compute; reflexivity | vm_compute; lia | reflexivity].
Defined.

Lemma split_ws_blank s :
  Forall (fun c => isspace c = true) s -> split_ws (lower s) = [].
Proof.
  induction 1 as [|c s Hc _ IH]; [reflexivity|].
  unfold lower in *. cbn [map split_ws].
  rewrite (isspace_lower_char c Hc), Hc. exact IH.
Qed.

Lemma extract_sections_blank : forall sections_ st st',
  Forall (fun section => section_text (p_texts section) = []) sections_ ->
  Forall (fun c => isspace c = true) (all_text_for_language st) ->
  extract_sections st sections_ = Ok st' ->
  Forall (fun c => isspace c = true) (all_text_for_language st').
Proof.
  induction sections_ as [|section rest IH]; intros st st' Hs Hst H.
  - injection H as <-. exact Hst.
  - cbn [extract_sections] in H. inversion Hs as [|? ? Hsec Hrest]; subst.
    destruct (extract_section st section) as [st1|e] eqn:E; [|discriminate].
    cbn in H. apply (IH st1 st' Hrest); [|exact H].
    unfold extract_section in E. rewrite Hsec in E. cbn [join] in E.
    destruct (match head_text section with
              | Some text => text | None => Some SIN_TITULO end);
      [|discriminate].
    injection E as <-. cbn [all_text_for_language].
    apply Forall_app. split; [exact Hst|].
    apply List.Forall_cons; [reflexivity | apply List.Forall_nil].
Qed.

(** X25.  The language that [extract_content] returns is ['spanish'] or
    ['english'], never the initial ['unknown']; a body none of whose
    sections has a paragraph with text is reported as ['english']. *)
Theorem extract_content_language (root : body) (c : content_data) :
  extract_content root = Ok c ->
  (c_language c = utf8 "spanish" \/ c_language c = utf8 "english") /\
  (Forall (fun section => section_text (p_texts section) = []) (divs root) ->
   c_language c = utf8 "english").
Proof.
  unfold extract_content. intros H.
  destruct (extract_sections _ (divs root)) as [st|e] eqn:E; [|discriminate].
  cbn in H. injection H as <-. cbn [c_language]. split.
  - unfold detect_language. cbv zeta. destruct (_ >? _); auto.
  - intros Hblank.
    assert (Hws : Forall (fun c => isspace c = true)
                    (all_text_for_language st)).
    { apply (extract_sections_blank (divs root)
               {| sections := []; categorized_sections := [];
                  all_text_for_language := [] |} st Hblank);
        [apply List.Forall_nil | exact E]. }
    unfold detect_language. rewrite (split_ws_blank _ Hws). reflexivity.
Qed.

Lemma extract_content_language_witness :
  exists c, extract_content empty_body = Ok c /\ c_language c = utf8 "english".
Proof.
  eexists. split; [vm_compute; reflexivity|].
  apply (extract_content_language empty_body); [vm_compute; reflexivity|].
  apply List.Forall_cons; [reflexivity | apply List.Forall_nil].
Defined.

End AnalyzerFacts.

Section ExportFacts.
Import PyStr Py Ingest FaissExport.

(** ** ORDER BY has an answer *)

Section Sorting.
Context {R K : Type} (key : R -> K) (le : K -> K -> Prop)
  (leb : K -> K -> bool).
Hypothesis leb_le : forall a b, leb a b = true -> le a b.
Hypothesis leb_total : forall a b, leb a b = false -> le b a.
Hypothesis le_trans : forall a b c, le a b -> le b c -> le a c.

Lemma insert_by_perm r : forall sorted,
  Permutation (r :: sorted) (insert_by key leb r sorted).
Proof.
  induction sorted as [|x sorted IH]; simpl; [reflexivity|].
  destruct (leb (key x) (key r)); [|reflexivity].
  rewrite perm_swap. apply perm_skip, IH.
Qed.

Lemma insert_by_sorted r : forall sorted,
  StronglySorted (fun a b => le (key a) (key b)) sorted ->
  StronglySorted (fun a b => le (key a) (key b)) (insert_by key leb r sorted).
Proof.
  induction sorted as [|x sorted IH]; intros H; simpl.
  - apply SSorted_cons; [apply SSorted_nil | apply List.Forall_nil].
  - apply StronglySorted_inv in H. destruct H as [Hs Hx].
    destruct (leb (key x) (key r)) eqn:E.
    + apply SSorted_cons; [apply IH, Hs|].
      apply (Permutation_Forall (insert_by_perm r sorted)).
      apply List.Forall_cons; [apply leb_le, E | exact Hx].
    + apply SSorted_cons; [apply SSorted_cons; assumption|].
      apply leb_total in E. apply List.Forall_cons; [exact E|].
      apply (List.Forall_impl _ (P := fun b => le (key x) (key b)));
        [|exact Hx].
      intros b Hb. apply (le_trans _ _ _ E Hb).
Qed.

Lemma sort_by_ordered rows : ordered_by key le rows (sort_by key leb rows).
Proof.
  unfold sort_by.
  assert (H : forall rows acc,
             StronglySorted (fun a b => le (key a) (key b)) acc ->
             Permutation (rev rows ++ acc)
               (fold_left (fun sorted r => insert_by key leb r sorted) rows acc)
             /\ StronglySorted (fun a b => le (key a) (key b))
                  (fold_left (fun sorted r => insert_by key leb r sorted)
                     rows acc)).
  { clear rows. induction rows as [|r rows IH]; intros acc Hacc; simpl.
    - split; [reflexivity | exact Hacc].
    - destruct (IH (insert_by key leb r acc) (insert_by_sorted r acc Hacc))
        as [Hp Hs].
      split; [|exact Hs]. rewrite <- Hp, <- app_assoc. simpl.
      apply Permutation_app_head, insert_by_perm. }
  destruct (H rows [] (SSorted_nil _)) as [Hp Hs].
  split; [|exact Hs]. rewrite <- Hp, app_nil_r. apply Permutation_rev.
Qed.

End Sorting.

Lemma leb3_le a b : leb3 a b = true -> le3 a b.
Proof.
  destruct a as [[a1 a2] a3], b as [[b1 b2] b3]. unfold leb3, le3.
  rewrite !orb_true_iff, !andb_true_iff, !orb_true_iff, !andb_true_iff.
  rewrite !Z.ltb_lt, !Z.eqb_eq, Z.leb_le. tauto.
Qed.

Lemma leb3_total a b : leb3 a b = false -> le3 b a.
Proof.
  destruct a as [[a1 a2] a3], b as [[b1 b2] b3]. unfold leb3, le3.
  rewrite !orb_false_iff, !andb_false_iff, !orb_false_iff, !andb_false_iff.
  rewrite !Z.ltb_ge, !Z.eqb_neq, Z.leb_gt. lia.
Qed.

Lemma le3_trans a b c : le3 a b -> le3 b c -> le3 a c.
Proof.
  destruct a as [[a1 a2] a3], b as [[b1 b2] b3], c as [[c1 c2] c3].
  unfold le3. lia.
Qed.

Lemma leb2_le a b : leb2 a b = true -> le2 a b.
Proof.
  unfold leb2, le2. rewrite orb_true_iff, andb_true_iff.
  rewrite Z.ltb_lt, Z.eqb_eq, Z.leb_le. tauto.
Qed.

Lemma leb2_total a b : leb2 a b = false -> le2 b a.
Proof.
  unfold leb2, le2. rewrite orb_false_iff, andb_false_iff.
  rewrite Z.ltb_ge, Z.eqb_neq, Z.leb_gt. lia.
Qed.

Lemma le2_trans a b c : le2 a b -> le2 b c -> le2 a c.
Proof. unfold le2. lia. Qed.

(** Both queries have an answer on every database. *)
Lemma export_for_faiss_total d :
  export_for_faiss d
    (map faiss_entry_of (sort_by export_key leb3 (join_documents_sections d))).
Proof.
  eexists. split; [|reflexivity].
  apply (sort_by_ordered export_key le3 leb3 leb3_le leb3_total le3_trans).
Qed.

Lemma get_chunks_by_category_total d category :
  get_chunks_by_category d category
    (map category_chunk_of
       (sort_by category_key leb2 (join_sections_where d category))).
Proof.
  eexists. split; [|reflexivity].
  apply (sort_by_ordered category_key le2 leb2 leb2_le leb2_total le2_trans).
Qed.

(** ** Every chunk joins with one document and one section *)

Lemma ids_in_sequence_NoDup ids : ids_in_sequence ids -> List.NoDup ids.
Proof.
  intros H. apply NoDup_nth_error. intros i j Hi Hij.
  destruct (nth_error ids i) as [x|] eqn:Ei;
    [|apply nth_error_None in Ei; lia].
  symmetry in Hij. pose proof (H i x Ei) as H1. pose proof (H j x Hij) as H2.
  lia.
Qed.

Lemma filter_key_none {A} (key : A -> Z) (k : Z) (l : list A) :
  ~ In k (map key l) -> List.filter (fun y => key y =? k) l = [].
Proof.
  induction l as [|a l IH]; intros H; simpl; [reflexivity|].
  destruct (key a =? k) eqn:E.
  - apply Z.eqb_eq in E. exfalso. apply H. left. exact E.
  - apply IH. intros Hin. apply H. right. exact Hin.
Qed.

Lemma filter_key_unique {A} (key : A -> Z) (k : Z) (l : list A) (x : A) :
  List.NoDup (map key l) -> In x l -> key x = k ->
  List.filter (fun y => key y =? k) l = [x].
Proof.
  induction l as [|a l IH]; intros Hnd Hin Hk; [destruct Hin|].
  simpl in Hnd. apply List.NoDup_cons_iff in Hnd. destruct Hnd as [Hn Hd].
  simpl. destruct Hin as [-> | Hin].
  - rewrite Hk, Z.eqb_refl. f_equal. apply filter_key_none.
    rewrite <- Hk. exact Hn.
  - destruct (key a =? k) eqn:E.
    + apply Z.eqb_eq in E. exfalso. apply Hn. rewrite E, <- Hk.
      apply in_map, Hin.
    + apply IH; assumption.
Qed.

Lemma chunk_joins_once d tc :
  keys_unique d -> references_resolve d -> In tc (text_chunks d) ->
  exists doc s,
    List.filter (fun doc => doc_id doc =? tc_document_id tc) (documents d)
    = [doc] /\
    List.filter (fun s => sec_id s =? tc_section_id tc) (sections_table d)
    = [s].
Proof.
  intros (_ & _ & Hdoc & Hsec & _) (_ & Hr & _) Hin.
  rewrite List.Forall_forall in Hr. destruct (Hr tc Hin) as [Hd (s & Hs & Hsid & _)].
  apply in_map_iff in Hd. destruct Hd as (doc & Hdid & Hdin).
  exists doc, s. split.
  - apply filter_key_unique; [apply ids_in_sequence_NoDup, Hdoc | exact Hdin | exact Hdid].
  - apply filter_key_unique; [apply ids_in_sequence_NoDup, Hsec | exact Hs | exact Hsid].
Qed.

Lemma map_flat_map_single {A B C} (g : A -> list B) (f : B -> C) (h : A -> C) :
  forall l,
  (forall x, In x l -> exists y, g x = [y] /\ f y = h x) ->
  map f (flat_map g l) = map h l.
Proof.
  induction l as [|a l IH]; intros H; simpl; [reflexivity|].
  destruct (H a (or_introl eq_refl)) as (y & -> & <-). simpl. f_equal.
  apply IH. intros x Hx. apply H. right. exact Hx.
Qed.

(** X26.  In a database whose keys are unique and whose foreign keys
    resolve (as [convert_json_to_sql] keeps them), [export_for_faiss]
    exports every stored chunk exactly once: the ids of the exported
    entries are the ids of the rows of [text_chunks], each one once. *)
Theorem export_for_faiss_exports_every_chunk (d : db)
    (faiss_data : list faiss_entry) :
  keys_unique d -> references_resolve d ->
  export_for_faiss d faiss_data ->
  Permutation (map fe_id faiss_data) (map tc_id (text_chunks d)) /\
  List.NoDup (map fe_id faiss_data).
Proof.
  intros Hk Hr (rows & [Hperm _] & ->).
  assert (Hids : Permutation (map fe_id (map faiss_entry_of rows))
                   (map tc_id (text_chunks d))).
  { rewrite map_map. cbn [faiss_entry_of fe_id].
    rewrite <- (Permutation_map (fun r => tc_id (j_chunk r)) Hperm).
    unfold join_documents_sections.
    rewrite (map_flat_map_single _ _ tc_id); [reflexivity|].
    intros tc Hin.
    destruct (chunk_joins_once d tc Hk Hr Hin) as (doc & s & -> & ->).
    simpl. eexists. split; reflexivity. }
  split; [exact Hids|].
  apply (Permutation_NoDup (Permutation_sym Hids)).
  apply ids_in_sequence_NoDup. apply Hk.
Qed.

Lemma export_for_faiss_exports_every_chunk_witness :
  exists faiss_data,
    export_for_faiss (database ingested_twice) faiss_data /\
    Permutation (map fe_id faiss_data) [1; 2].
Proof.
  exists (map faiss_entry_of
            (sort_by export_key leb3
               (join_documents_sections (database ingested_twice)))).
  split; [apply export_for_faiss_total|].
  apply (export_for_faiss_exports_every_chunk (database ingested_twice)).
  - apply (fold_convert_keeps Sample.digest keys_unique);
      [intros st thesis; apply convert_one_keeps|].
    apply (fold_convert_keeps Sample.digest keys_unique);
      [intros st thesis; apply convert_one_keeps | apply empty_db_keys_unique].
  - apply (fold_convert_keeps Sample.digest references_resolve);
      [intros st thesis; apply convert_one_keeps|].
    apply (fold_convert_keeps Sample.digest references_resolve);
      [intros st thesis; apply convert_one_keeps
      | apply empty_db_references_resolve].
  - apply export_for_faiss_total.
Defined.

(** ** The chunks of one category *)

Lemma Permutation_filter {A} (p : A -> bool) (l l' : list A) :
  Permutation l l' -> Permutation (List.filter p l) (List.filter p l').
Proof.
  induction 1 as [|x l l' _ IH|x y l|l l' l'' _ IH1 _ IH2]; simpl.
  - reflexivity.
  - destruct (p x); [apply perm_skip|]; exact IH.
  - destruct (p x), (p y); try reflexivity. apply perm_swap.
  - etransitivity; eassumption.
Qed.

Lemma filter_map_comm {A B} (p : B -> bool) (f : A -> B) (l : list A) :
  List.filter p (map f l) = map f (List.filter (fun x => p (f x)) l).
Proof.
  induction l as [|a l IH]; simpl; [reflexivity|].
  destruct (p (f a)); simpl; rewrite IH; reflexivity.
Qed.

Lemma filter_flat_map {A B} (p : B -> bool) (g : A -> list B) (l : list A) :
  List.filter p (flat_map g l) = flat_map (fun x => List.filter p (g x)) l.
Proof.
  induction l as [|a l IH]; simpl; [reflexivity|].
  rewrite List.filter_app, IH. reflexivity.
Qed.

Lemma map_flat_map {A B C} (f : B -> C) (g : A -> list B) (l : list A) :
  map f (flat_map g l) = flat_map (fun x => map f (g x)) l.
Proof.
  induction l as [|a l IH]; simpl; [reflexivity|].
  rewrite map_app, IH. reflexivity.
Qed.

Lemma flat_map_ext_in {A B} (g h : A -> list B) (l : list A) :
  (forall x, In x l -> g x = h x) -> flat_map g l = flat_map h l.
Proof.
  induction l as [|a l IH]; intros H; simpl; [reflexivity|].
  rewrite (H a (or_introl eq_refl)), IH; [reflexivity|].
  intros x Hx. apply H. right. exact Hx.
Qed.

Lemma filter_filter_and {A} (p q : A -> bool) (l : list A) :
  List.filter p (List.filter q l) = List.filter (fun x => q x && p x) l.
Proof.
  induction l as [|a l IH]; simpl; [reflexivity|].
  destruct (q a); simpl; [destruct (p a)|]; rewrite IH; reflexivity.
Qed.

(** X27.  In such a database [get_chunks_by_category(category)] returns
    the texts of exactly the exported entries whose ['category'] is
    [category]: the two read paths agree on which chunks belong to a
    category, each chunk counted as often. *)
Theorem get_chunks_by_category_agrees_with_export (d : db) (category : str)
    (chunks : list category_chunk) (faiss_data : list faiss_entry) :
  keys_unique d -> references_resolve d ->
  get_chunks_by_category d category chunks ->
  export_for_faiss d faiss_data ->
  Permutation
    (map cc_text chunks)
    (map fe_text
       (List.filter
          (fun e => str_eqb (fm_category (fe_metadata e)) category)
          faiss_data)).
Proof.
  intros Hk Hr (rows2 & [Hperm2 _] & ->) (rows3 & [Hperm3 _] & ->).
  rewrite filter_map_comm, !map_map.
  cbn [category_chunk_of cc_text faiss_entry_of fe_text fe_metadata fm_category].
  rewrite <- (Permutation_map (fun r => chunk_text (js_chunk r)) Hperm2).
  rewrite <- (Permutation_map (fun r => chunk_text (j_chunk r))
                (Permutation_filter _ _ _ Hperm3)).
  unfold join_sections_where, join_documents_sections.
  rewrite filter_flat_map, !map_flat_map.
  match goal with
  | |- Permutation ?x ?y => replace y with x; [reflexivity|]
  end.
  apply flat_map_ext_in.
  intros tc Hin.
  destruct (chunk_joins_once d tc Hk Hr Hin) as (doc & s & Hd & _).
  rewrite Hd. cbn [flat_map]. rewrite app_nil_r.
  rewrite filter_map_comm, !map_map. cbn [j_section j_chunk js_chunk].
  rewrite filter_filter_and. reflexivity.
Qed.

Lemma get_chunks_by_category_agrees_with_export_witness :
  exists chunks faiss_data,
    get_chunks_by_category (database ingested_twice) (utf8 "metodologia") chunks /\
    export_for_faiss (database ingested_twice) faiss_data /\
    Permutation
      (map cc_text chunks)
      (map fe_text
         (List.filter
            (fun e => str_eqb (fm_category (fe_metadata e)) (utf8 "metodologia"))
            faiss_data)).
Proof.
  eexists _, _.
  split; [apply get_chunks_by_category_total|].
  split; [apply export_for_faiss_total|].
  apply (get_chunks_by_category_agrees_with_export (database ingested_twice)).
  - apply (fold_convert_keeps Sample.digest keys_unique);
      [intros st thesis; apply convert_one_keeps|].
    apply (fold_convert_keeps Sample.digest keys_unique);
      [intros st thesis; apply convert_one_keeps | apply empty_db_keys_unique].
  - apply (fold_convert_keeps Sample.digest references_resolve);
      [intros st thesis; apply convert_one_keeps|].
    apply (fold_convert_keeps Sample.digest references_resolve);
      [intros st thesis; apply convert_one_keeps
      | apply empty_db_references_resolve].
  - apply get_chunks_by_category_total.
  - apply export_for_faiss_total.
Defined.

End ExportFacts.

Section TeiFacts.
Import PyStr Py TeiToSqlite.

(** ** One call of [insert_chunk] *)

Lemma existsb_chunk_id key (l : list chunk_row) :
  existsb (fun r => str_eqb (chunk_id r) key) l = true <->
  In key (map chunk_id l).
Proof.
  rewrite existsb_exists, in_map_iff. split.
  - intros (r & Hin & H). apply str_eqb_eq in H. eauto.
  - intros (r & H & Hin). exists r. split; [exact Hin|].
    apply str_eqb_eq. exact H.
Qed.

Lemma insert_chunk_cases pdf_db_id a b c st :
  let st' := insert_chunk pdf_db_id a b c st in
  st' = st \/
  (next_chunk st' = next_chunk st + 1 /\
   In (chunk_key pdf_db_id (next_chunk st)) (map chunk_id (rows st')) /\
   ((rows st' = rows st /\ inserted_chunks st' = inserted_chunks st) \/
    (exists r, rows st' = rows st ++ [r] /\
       chunk_id r = chunk_key pdf_db_id (next_chunk st) /\
       ~ In (chunk_id r) (map chunk_id (rows st)) /\
       inserted_chunks st' = inserted_chunks st + 1))).
Proof.
  cbv zeta. unfold insert_chunk.
  destruct c as [|c0 c']; [left; reflexivity|].
  destruct (strip (c0 :: c')) as [|s0 s'] eqn:Es; [left; reflexivity|].
  right. destruct (existsb _ (rows st)) eqn:E; cbn [next_chunk rows inserted_chunks].
  - split; [reflexivity|]. split; [apply existsb_chunk_id, E|].
    left. split; reflexivity.
  - split; [reflexivity|]. split.
    + rewrite map_app. apply in_or_app. right. left. reflexivity.
    + right. eexists. split; [reflexivity|]. cbn [chunk_id].
      split; [reflexivity|]. split; [|reflexivity].
      intros Hin. apply existsb_chunk_id in Hin. congruence.
Qed.

(** What any sequence of calls keeps. *)
Lemma play_grows pdf_db_id : forall calls st,
  exists new,
    rows (play pdf_db_id calls st) = rows st ++ new /\
    len new = inserted_chunks (play pdf_db_id calls st) - inserted_chunks st /\
    (List.NoDup (map chunk_id (rows st)) ->
     List.NoDup (map chunk_id (rows (play pdf_db_id calls st)))).
Proof.
  induction calls as [|[[a b] c] calls IH]; intros st.
  - exists []. cbn. rewrite app_nil_r. split; [reflexivity|].
    split; [unfold len; simpl; lia | auto].
  - cbn [play fold_left fst snd].
    destruct (IH (insert_chunk pdf_db_id a b c st)) as (new & Hr & Hl & Hn).
    fold (play pdf_db_id calls (insert_chunk pdf_db_id a b c st)) in *.
    destruct (insert_chunk_cases pdf_db_id a b c st)
      as [E | (_ & _ & [[Er Ei] | (r & Er & _ & Hnot & Ei)])].
    + rewrite E in *. exists new. auto.
    + rewrite Er, Ei in *. exists new. auto.
    + rewrite Er, Ei in *. exists (r :: new).
      split; [rewrite Hr, <- app_assoc; reflexivity|].
      split; [unfold len in *; simpl length; lia|].
      intros Hnd. apply Hn. rewrite map_app. cbn [map].
      apply NoDup_snoc; assumption.
Qed.

Lemma play_app pdf_db_id calls1 calls2 st :
  play pdf_db_id (calls1 ++ calls2) st
  = play pdf_db_id calls2 (play pdf_db_id calls1 st).
Proof. unfold play. apply fold_left_app. Qed.

Lemma insert_div_play pdf_db_id st div :
  insert_div pdf_db_id st div = play pdf_db_id (div_calls div) st.
Proof.
  unfold insert_div, div_calls. cbv zeta.
  destruct (match fst div with
            | Some (c :: s) => contains (utf8 "appendix") (lower (c :: s))
            | _ => false
            end); [reflexivity|].
  destruct (div_text (snd div)); reflexivity.
Qed.

Lemma insert_divs_play pdf_db_id : forall divs st,
  fold_left (insert_div pdf_db_id) divs st
  = play pdf_db_id (flat_map div_calls divs) st.
Proof.
  induction divs as [|div divs IH]; intros st; [reflexivity|].
  cbn [fold_left flat_map]. rewrite play_app, IH, insert_div_play. reflexivity.
Qed.

(** A run, as the sequence of its calls. *)
Lemma run_play cfg xml db :
  run cfg xml db
  = (let st := play (snd (register_pdf cfg xml (metadata db))) (calls_of xml)
                 {| rows := chunks db; next_chunk := 0; inserted_chunks := 0 |} in
     ({| metadata := fst (register_pdf cfg xml (metadata db));
         chunks := rows st |}, inserted_chunks st)).
Proof.
  unfold run, calls_of. destruct (register_pdf cfg xml (metadata db)) as [m p].
  cbv zeta. cbn [fst snd]. rewrite play_app, insert_divs_play. reflexivity.
Qed.

(** ** The record of the PDF *)

Lemma find_app_some {A} (f : A -> bool) (l l' : list A) x :
  List.find f l = Some x -> List.find f (l ++ l') = Some x.
Proof.
  induction l as [|a l IH]; simpl; [discriminate|].
  destruct (f a); [auto | exact IH].
Qed.

Lemma register_pdf_again cfg xml rows_ :
  register_pdf cfg xml (fst (register_pdf cfg xml rows_))
  = (fst (register_pdf cfg xml rows_), snd (register_pdf cfg xml rows_)).
Proof.
  unfold register_pdf.
  destruct (List.find _ rows_) as [row|] eqn:E; cbn [fst snd].
  - rewrite E. reflexivity.
  - rewrite find_snoc, E. cbn [source_file].
    rewrite str_eqb_refl. reflexivity.
Qed.

Lemma register_pdf_grows cfg xml rows_ :
  exists new,
    fst (register_pdf cfg xml rows_) = rows_ ++ new /\ (length new <= 1)%nat /\
    (List.NoDup (map source_file rows_) ->
     List.NoDup (map source_file (fst (register_pdf cfg xml rows_)))).
Proof.
  unfold register_pdf.
  destruct (List.find _ rows_) as [row|] eqn:E; cbn [fst].
  - exists []. rewrite app_nil_r. simpl. auto.
  - eexists [_]. split; [reflexivity|]. split; [simpl; lia|].
    intros Hnd. rewrite map_app. cbn [map source_file].
    apply NoDup_snoc; [exact Hnd|].
    intros Hin. apply in_map_iff in Hin. destruct Hin as (r & Hr & Hin).
    apply (find_none _ _ E) in Hin. apply not_true_iff_false in Hin.
    apply Hin, str_eqb_eq, Hr.
Qed.

(** ** A second pass over the same calls *)

Lemma play_replay pdf_db_id : forall calls st1 st2,
  next_chunk st1 = next_chunk st2 ->
  incl (map chunk_id (rows (play pdf_db_id calls st1)))
       (map chunk_id (rows st2)) ->
  rows (play pdf_db_id calls st2) = rows st2 /\
  inserted_chunks (play pdf_db_id calls st2) = inserted_chunks st2.
Proof.
  induction calls as [|[[a b] c] calls IH]; intros st1 st2 Hc Hincl;
    [split; reflexivity|].
  cbn [play fold_left fst snd] in *.
  fold (play pdf_db_id calls (insert_chunk pdf_db_id a b c st1)) in *.
  fold (play pdf_db_id calls (insert_chunk pdf_db_id a b c st2)) in *.
  assert (Hkey : insert_chunk pdf_db_id a b c st1 = st1 \/
                 In (chunk_key pdf_db_id (next_chunk st2))
                    (map chunk_id (rows st2))).
  { destruct (insert_chunk_cases pdf_db_id a b c st1) as [E | (_ & Hin & _)];
      [left; exact E|].
    right. rewrite <- Hc. apply Hincl.
    destruct (play_grows pdf_db_id calls (insert_chunk pdf_db_id a b c st1))
      as (new & -> & _).
    rewrite map_app. apply in_or_app. left. exact Hin. }
  unfold insert_chunk in *.
  destruct c as [|c0 c']; [apply (IH st1 st2 Hc Hincl)|].
  destruct (strip (c0 :: c')) as [|s0 s'] eqn:Es; [apply (IH st1 st2 Hc Hincl)|].
  destruct Hkey as [E | Hin].
  { exfalso. destruct (existsb _ (rows st1));
      apply (f_equal next_chunk) in E; cbn in E; lia. }
  apply existsb_chunk_id in Hin. rewrite Hin.
  match goal with
  | |- rows (play _ _ ?s2) = _ /\ _ =>
    match type of Hincl with
    | incl (map chunk_id (rows (play _ _ ?s1))) _ =>
      destruct (IH s1 s2) as [H1 H2]
    end
  end.
  - destruct (existsb _ (rows st1)); cbn [next_chunk]; lia.
  - exact Hincl.
  - split; [exact H1 | exact H2].
Qed.

(** X28.  A run of the script only appends: the rows of [metadata] and
    [chunks] that were there stay, unchanged and in place, at most one
    row is added to [metadata], and the number the script reports is the
    number of rows added to [chunks]. *)
Theorem run_appends_only (cfg : config) (xml : tei) (db : store) :
  exists new_metadata new_chunks,
    metadata (fst (run cfg xml db)) = metadata db ++ new_metadata /\
    (length new_metadata <= 1)%nat /\
    chunks (fst (run cfg xml db)) = chunks db ++ new_chunks /\
    snd (run cfg xml db) = len new_chunks.
Proof.
  rewrite run_play. cbv zeta. cbn [fst snd metadata chunks].
  destruct (register_pdf_grows cfg xml (metadata db)) as (nm & Hm & Hl & _).
  destruct (play_grows (snd (register_pdf cfg xml (metadata db))) (calls_of xml)
              {| rows := chunks db; next_chunk := 0; inserted_chunks := 0 |})
    as (nc & Hr & Hn & _).
  exists nm, nc. cbn [rows inserted_chunks] in *.
  split; [exact Hm|]. split; [exact Hl|]. split; [exact Hr | lia].
Qed.

(** X29.  The script checks every key before it inserts, so it keeps them
    distinct: when no two rows of [metadata] share a [source_file] and no
    two rows of [chunks] share a [chunk_id], this still holds after a
    run (no INSERT of the script can violate the UNIQUE or PRIMARY KEY
    constraint of these columns). *)
Theorem run_keeps_keys_distinct (cfg : config) (xml : tei) (db : store) :
  keys_distinct db -> keys_distinct (fst (run cfg xml db)).
Proof.
  intros [Hs Hc]. rewrite run_play. cbv zeta. cbn [fst].
  unfold keys_distinct. cbn [metadata chunks].
  destruct (register_pdf_grows cfg xml (metadata db)) as (nm & _ & _ & Hm).
  destruct (play_grows (snd (register_pdf cfg xml (metadata db))) (calls_of xml)
              {| rows := chunks db; next_chunk := 0; inserted_chunks := 0 |})
    as (nc & _ & _ & Hn).
  split; [apply Hm, Hs | apply Hn, Hc].
Qed.

Lemma run_keeps_keys_distinct_witness :
  keys_distinct empty_store /\
  keys_distinct (fst (run sample_config sample_tei empty_store)).
Proof.
  assert (H : keys_distinct empty_store)
    by (split; apply List.NoDup_nil).
  split; [exact H|]. apply run_keeps_keys_distinct, H.
Defined.

(** X30.  Running the script again on the same TEI file inserts nothing:
    the second run finds the record of the PDF and every chunk key of the
    first run, leaves the database as the first run left it and reports 0
    new chunks. *)
Theorem run_again_inserts_nothing (cfg : config) (xml : tei) (db : store) :
  run cfg xml (fst (run cfg xml db)) = (fst (run cfg xml db), 0).
Proof.
  rewrite (run_play cfg xml (fst (run cfg xml db))).
  rewrite (run_play cfg xml db). cbv zeta. cbn [fst metadata chunks].
  rewrite register_pdf_again. cbn [fst snd].
  set (pdf := snd (register_pdf cfg xml (metadata db))).
  set (st0 := {| rows := chunks db; next_chunk := 0; inserted_chunks := 0 |}).
  destruct (play_replay pdf (calls_of xml) st0
              {| rows := rows (play pdf (calls_of xml) st0);
                 next_chunk := 0; inserted_chunks := 0 |})
    as [Hr Hi]; [reflexivity | apply incl_refl|].
  cbn [rows inserted_chunks] in Hr, Hi. rewrite Hr, Hi. reflexivity.
Qed.

End TeiFacts.
